(** * Traart transcription engine: the orchestration core of
      [engine/transcribe.py] and [engine/diarize.py]

    The development embeds the chunk scheduler, the per-unit transcription,
    the plain and the diarized pipeline, the merge step, the progress
    stream of [main], the SRT and VTT timestamp renderers and the Markdown
    renderer, and states the properties of the specification over that
    embedding.

    Conventions.
    - Python [float] values are modelled by the rationals they denote and
      float arithmetic by exact arithmetic on [Q], with one exception: the
      gap test of the two merge loops is computed in binary64
      ([Py.sub_lt]), since a gap next to the threshold is merged or not
      according to the rounding of the difference ([gap_of_floats]).  The
      two sample-count thresholds of the source are checked against
      binary64 below ([threshold_03_binary64], [threshold_01_binary64]).
    - The audio tensor is modelled by the window of sample indices it
      views: slicing a tensor yields a view of the same buffer.
    - The ASR model and the pyannote pipeline are opaque collaborators:
      they are parameters of the development and may answer or raise in
      any way.
    - The detail of a progress message and the text of a warning are kept
      as structured values instead of formatted strings; [eta_seconds] is
      computed from wall-clock readings and is left out of the messages.
    - The heartbeat thread of [main] is modelled by the messages it writes
      while the model loads, one per period, before the load returns.  The
      thread is not stopped when the load raises: the progress lines of
      the step [loading_model], of value at most 0.13, that it may write
      from then on are not modelled. *)

From Stdlib Require Import ZArith QArith Qround List String Ascii Lia Bool.
From Stdlib Require Import DecimalString Floats Lqa Sorted.
Import ListNotations.

Local Open Scope string_scope.
Local Open Scope list_scope.
Local Open Scope Z_scope.

(** ** Python numerics *)

Module Py.

(** [int(x)] on a float: truncation toward zero. *)
Definition int (x : Q) : Z :=
  if Qle_bool 0 x then Qfloor x else Qceiling x.

(** [round(x)]: nearest integer, ties to the even one. *)
Definition round (x : Q) : Z :=
  let f := Qfloor x in
  match ((x - inject_Z f) ?= (1 # 2))%Q with
  | Lt => f
  | Gt => f + 1
  | Eq => if Z.even f then f else f + 1
  end.

(** [round(x, n)]. *)
Definition round_n (x : Q) (n : positive) : Q :=
  (round (x * inject_Z (Zpos (10 ^ n))) # (10 ^ n))%Q.

(** [x // y] and [x % y] on floats, for [y > 0]. *)
Definition floordiv (x y : Q) : Q := inject_Z (Qfloor (x / y)).
Definition mod_ (x y : Q) : Q := (x - y * floordiv x y)%Q.

Definition Qltb (x y : Q) : bool := negb (Qle_bool y x).

(** The binary64 value nearest to a rational, ties to the even mantissa:
    the float that a literal, an argument of type [float] or [round(x, n)]
    stands for.  A rational that is a binary64 value is its own nearest.
    The rational is scaled by a power of two to a mantissa of 53 bits (or
    fewer, below the smallest normal value), which [round] rounds. *)
Definition scale2 (x : Q) (k : Z) : Q := (x * Qpower 2 k)%Q.

Definition binary64_pos (x : Q) : float :=
  let e := Z.log2 (Qnum x) - Z.log2 (Zpos (Qden x)) in
  let k := if Qle_bool (inject_Z (2 ^ 52)) (scale2 x (52 - e))
           then e - 52 else e - 53 in
  let k := Z.max k (-1074) in
  Z.ldexp (PrimFloat.of_uint63 (Uint63.of_Z (round (scale2 x (- k))))) k.

Definition binary64 (x : Q) : float :=
  match Qnum x with
  | Z0 => PrimFloat.zero
  | Zpos _ => binary64_pos x
  | Zneg _ => PrimFloat.opp (binary64_pos (- x))
  end.

(** [x - y < z] on floats: the difference is rounded to binary64 before it
    is compared. *)
Definition sub_lt (x y z : Q) : bool :=
  PrimFloat.ltb (PrimFloat.sub (binary64 x) (binary64 y)) (binary64 z).

(** [range(0, stop, step)] for a positive step, [None] standing for the
    [ValueError] raised on a zero step; a negative step from 0 yields the
    empty range whenever [stop >= 0]. *)
Definition range_len (stop step : Z) : nat :=
  if stop <=? 0 then 0%nat else Z.to_nat ((stop - 1) / step + 1).

Definition range0 (stop step : Z) : option (list Z) :=
  if step =? 0 then None
  else if step <? 0 then
    Some (map (fun i => Z.of_nat i * step)
              (seq 0 (if 0 <=? stop then 0%nat
                      else Z.to_nat ((- stop - 1) / (- step) + 1))))
  else Some (map (fun i => Z.of_nat i * step) (seq 0 (range_len stop step))).

(** Slice bounds: [t[a:b]] on a sequence of length [n]. *)
Definition clamp_index (n i : Z) : Z :=
  if i <? 0 then Z.max 0 (i + n) else Z.min i n.

(** [" ".join(parts)]. *)
Definition join (parts : list string) : string := String.concat " " parts.

(** [str.strip()], over the ASCII whitespace characters. *)
Definition is_space (c : ascii) : bool :=
  let n := nat_of_ascii c in
  ((9 <=? n)%nat && (n <=? 13)%nat) || ((28 <=? n)%nat && (n <=? 32)%nat).

Fixpoint lstrip (s : string) : string :=
  match s with
  | String c r => if is_space c then lstrip r else s
  | EmptyString => EmptyString
  end.

Fixpoint rstrip (s : string) : string :=
  match s with
  | String c r =>
      match rstrip r with
      | EmptyString => if is_space c then EmptyString else String c EmptyString
      | r' => String c r'
      end
  | EmptyString => EmptyString
  end.

Definition strip (s : string) : string := rstrip (lstrip s).

(** Truthiness of a string. *)
Definition truthy (s : string) : bool :=
  match s with EmptyString => false | _ => true end.

End Py.

(** ** Audio views *)

(** A one-dimensional tensor that views the samples [lo, hi) of the run's
    buffer. *)
Record tensor := { lo : Z; hi : Z }.

Definition len (t : tensor) : Z := hi t - lo t.

(** [t[a:b]] *)
Definition slice (t : tensor) (a b : Z) : tensor :=
  let a' := Py.clamp_index (len t) a in
  let b' := Py.clamp_index (len t) b in
  {| lo := lo t + a'; hi := lo t + Z.max a' b' |}.

(** [t[a:]] *)
Definition slice_from (t : tensor) (a : Z) : tensor := slice t a (len t).

Definition SAMPLE_RATE : Z := 16000.

(** ** Records *)

(** [diarize.Segment] *)
Module Diarize.
Record Segment := { start : Q; end_ : Q; speaker_id : string }.
End Diarize.

(** The dicts built by [transcribe_audio]: keys [start], [end], [text]. *)
Module Plain.
Record Dict := { start : Q; end_ : Q; text : string }.
End Plain.

(** The dicts built by [transcribe_with_diarization]: keys [start], [end],
    [speaker], [text]. *)
Record Dict := { start : Q; end_ : Q; speaker : string; text : string }.

(** ** Lists used as Python lists *)

(** [l[-1]] of a non-empty list. *)
Definition last_item {A} (l : list A) : option A :=
  match rev l with
  | x :: _ => Some x
  | [] => None
  end.

(** [l[-1] = x] *)
Definition set_last {A} (l : list A) (x : A) : list A := removelast l ++ [x].

(** ** diarize.py: post-processing of the raw turns *)

Definition _merge_step (gap_threshold : Q)
    (merged : list Diarize.Segment) (seg : Diarize.Segment)
  : list Diarize.Segment :=
  match last_item merged with
  | Some prev =>
      if String.eqb (Diarize.speaker_id seg) (Diarize.speaker_id prev)
         && Py.sub_lt (Diarize.start seg) (Diarize.end_ prev) gap_threshold
      then set_last merged
             {| Diarize.start := Diarize.start prev;
                Diarize.end_ := Diarize.end_ seg;
                Diarize.speaker_id := Diarize.speaker_id prev |}
      else merged ++ [seg]
  | None => merged ++ [seg]
  end.

Definition _merge_segments (segments : list Diarize.Segment)
    (gap_threshold : Q) : list Diarize.Segment :=
  match segments with
  | [] => segments
  | first :: others => fold_left (_merge_step gap_threshold) others [first]
  end.

Definition _filter_short (segments : list Diarize.Segment)
    (min_duration : Q) : list Diarize.Segment :=
  filter (fun s => Qle_bool min_duration (Diarize.end_ s - Diarize.start s))
         segments.

(** ** transcribe.py: the merge step (lines 410-423) *)

Definition merge_step (merge_gap : Q) (merged : list Dict) (r : Dict)
  : list Dict :=
  match last_item merged with
  | Some prev =>
      if String.eqb (speaker prev) (speaker r)
         && negb (String.eqb (speaker r) "")
         && Py.sub_lt (start r) (end_ prev) merge_gap
      then set_last merged
             {| start := start prev;
                end_ := end_ r;
                speaker := speaker prev;
                text := (text prev ++ " " ++ text r)%string |}
      else merged ++ [r]
  | None => merged ++ [r]
  end.

Definition merge_results (merge_gap : Q) (results : list Dict) : list Dict :=
  fold_left (merge_step merge_gap) results [].

(** ** The progress stream and the collected warnings *)

Definition Exn := string.

Inductive Step :=
  preparing | loading_model | diarizing | transcribing | saving | complete.

Inductive Detail :=
| converting_audio | loading_audio | loading_GigaAM | model_ready
| running_speaker_diarization | found_segments (n : nat)
| single_chunk | chunk_of (i n : nat) | segment_of (i n : nat)
| processing_undetected_tail_audio
| fallback_without_diarization | starting_transcription
| writing_output | saved_to_output.

Inductive Warning :=
| chunk_failed (duration : Q) (e : Exn)
| empty_segment (speaker_id : string) (seg_start seg_end duration : Q)
| diarization_unavailable (e : Exn).

(** One JSON line written to stderr. *)
Inductive Msg :=
| progress_msg (progress : Q) (step : Step) (detail : Detail)
| error_msg (message : string)
| warning_msg (w : Warning)
| warnings_summary (warnings_count : nat) (first : list Warning).

(** ** The command line, the host and the result of a run *)

(** The segment list handed to the formatters holds dicts of either
    shape. *)
Inductive AnyDict := plain (d : Plain.Dict) | spoken (d : Dict).

Definition get_speaker (s : AnyDict) : string :=
  match s with plain _ => "" | spoken d => speaker d end.

(** The parsed command line. *)
Module Args.
Record t := {
  diarize : bool;
  speakers : Z;
  chunk_duration : Z;
  chunk_overlap : Z;
  merge_gap : Q;
  min_segment : Q;
  expansion_pad : Z
}.
End Args.

(** What the host answers during a run: the file checks, ffprobe, ffmpeg,
    [torchaudio.load] (already resampled to [SAMPLE_RATE] and mixed to
    mono), the model load with the number of heartbeat periods it lasts,
    and the write of the rendered output.  A load that fails inside
    [gigaam.load_model] is reported by the handler of [load_asr_model]
    before it is raised again: [load_report] is the message of that error
    line, and [None] when the load fails elsewhere (the import, the device,
    a model that is [None]). *)
Module Host.
Record t := {
  input_exists : bool;
  extension_supported : bool;
  get_audio_duration : Q;
  convert_to_wav : Exn + unit;
  torchaudio_load : Exn + tensor;
  load_asr_model : Exn + unit;
  load_report : option string;
  heartbeats : nat;
  write_output : Exn + unit
}.
End Host.

(** What a run hands to the formatter. *)
Record Transcription := {
  duration : Q;
  diarization : bool;
  num_speakers : nat;
  full_text : string;
  segments : list AnyDict
}.

(** ** The pipeline, over its collaborators *)

Section Engine.

(** The ASR model: a stateful object whose [transcribe], fed with the
    saved slice, answers with a text or raises. *)
Variable Model : Type.
Variable model_transcribe : Model -> tensor -> (Exn + string) * Model.

(** The pyannote pipeline run on the wav file with the optional speaker
    count: the raw turns, or an exception (loading or inference). *)
Variable pyannote : option Z -> Exn + list Diarize.Segment.

(** The state a run threads: the model, the stderr stream, the module's
    [_warnings] list, and two histories kept for stating properties: the
    calls of [transcribe_chunk] (the slice with the text returned) and the
    invocations of the model (the slice with the answer or exception). *)
Record World := {
  model : Model;
  stderr : list Msg;
  _warnings : list Warning;
  units : list (tensor * string);
  invoked : list (tensor * (Exn + string))
}.

Inductive Res (A : Type) := Ok (a : A) | Raise (e : Exn).
Arguments Ok {A} a.
Arguments Raise {A} e.

Definition M (A : Type) := World -> Res A * World.

Definition ret {A} (a : A) : M A := fun w => (Ok a, w).

Definition bind {A B} (m : M A) (k : A -> M B) : M B :=
  fun w => match m w with
           | (Ok a, w') => k a w'
           | (Raise e, w') => (Raise e, w')
           end.

Definition raise {A} (e : Exn) : M A := fun w => (Raise e, w).

(** [try: body / except Exception as e: handler e] *)
Definition try_except {A} (body : M A) (handler : Exn -> M A) : M A :=
  fun w => match body w with
           | (Ok a, w') => (Ok a, w')
           | (Raise e, w') => handler e w'
           end.

Notation "x <- m ;; k" := (bind m (fun x => k))
  (at level 61, m at next level, right associativity).
Notation "m ;;; k" := (bind m (fun _ => k))
  (at level 61, right associativity).

Definition report_progress (progress : Q) (step : Step) (detail : Detail)
  : M unit :=
  fun w => (Ok tt,
            {| model := model w;
               stderr := stderr w ++ [progress_msg (Py.round_n progress 3) step detail];
               _warnings := _warnings w;
               units := units w; invoked := invoked w |}).

Definition report_error (message : string) : M unit :=
  fun w => (Ok tt,
            {| model := model w;
               stderr := stderr w ++ [error_msg message];
               _warnings := _warnings w;
               units := units w; invoked := invoked w |}).

Definition report_warning (message : Warning) : M unit :=
  fun w => (Ok tt,
            {| model := model w;
               stderr := stderr w ++ [warning_msg message];
               _warnings := _warnings w ++ [message];
               units := units w; invoked := invoked w |}).

Definition report_warnings_summary : M unit :=
  fun w => match _warnings w with
           | [] => (Ok tt, w)
           | ws => (Ok tt,
                    {| model := model w;
                       stderr := stderr w ++
                         [warnings_summary (List.length ws) (firstn 20 ws)];
                       _warnings := _warnings w;
                       units := units w; invoked := invoked w |})
           end.

(** [torchaudio.save] of the slice followed by [model.transcribe]. *)
Definition save_and_transcribe (audio_tensor : tensor) : M string :=
  fun w => let (r, m') := model_transcribe (model w) audio_tensor in
           (match r with inl e => Raise e | inr t => Ok t end,
            {| model := m'; stderr := stderr w; _warnings := _warnings w;
               units := units w;
               invoked := invoked w ++ [(audio_tensor, r)] |}).

Definition returned (audio_tensor : tensor) (text : string) : M string :=
  fun w => (Ok text,
            {| model := model w; stderr := stderr w;
               _warnings := _warnings w;
               units := units w ++ [(audio_tensor, text)];
               invoked := invoked w |}).

Definition transcribe_chunk (audio_tensor : tensor) (sr : Z) : M string :=
  text <-
    (if Py.Qltb (inject_Z (len audio_tensor)) (inject_Z sr * 0.1)
     then ret ""
     else
       try_except
         (text <- save_and_transcribe audio_tensor ;; ret (Py.strip text))
         (fun e =>
            let duration := (inject_Z (len audio_tensor) / inject_Z sr)%Q in
            report_warning (chunk_failed duration e) ;;; ret "")) ;;
  returned audio_tensor text.

(** Lines 251-256: the ranges kept by the loop over
    [range(0, total_samples, step_samples)], up to its [break]. *)
Fixpoint take_chunks (starts : list Z) (chunk_samples total_samples sr : Z)
  : list (Z * Z) :=
  match starts with
  | [] => []
  | start :: rest =>
      let end_ := Z.min (start + chunk_samples) total_samples in
      if Py.Qltb (inject_Z (end_ - start)) (inject_Z sr * 0.3) then []
      else (start, end_) :: take_chunks rest chunk_samples total_samples sr
  end.

Definition py_range0 (stop step : Z) : M (list Z) :=
  match Py.range0 stop step with
  | Some l => ret l
  | None => raise "ValueError: range() arg 3 must not be zero"
  end.

(** Lines 263-283: the loop over the chunks ([i] counts from 0). *)
Fixpoint chunk_loop (audio_tensor : tensor) (sr : Z)
    (progress_offset progress_scale : Q) (total_chunks : nat)
    (i : nat) (chunks : list (Z * Z))
    (texts : list string) (segments : list Plain.Dict)
  : M (list string * list Plain.Dict) :=
  match chunks with
  | [] => ret (texts, segments)
  | (start_sample, end_sample) :: rest =>
      text <- transcribe_chunk (slice audio_tensor start_sample end_sample) sr ;;
      let '(texts', segments') :=
        if Py.truthy text
        then (texts ++ [text],
              segments ++
                [{| Plain.start := Py.round_n (inject_Z start_sample / inject_Z sr) 2;
                    Plain.end_ := Py.round_n (inject_Z end_sample / inject_Z sr) 2;
                    Plain.text := text |}])
        else (texts, segments) in
      let progress :=
        (progress_offset
         + progress_scale
           * (inject_Z (Z.of_nat (i + 1)) / inject_Z (Z.of_nat total_chunks)))%Q in
      report_progress progress transcribing (chunk_of (i + 1) total_chunks) ;;;
      chunk_loop audio_tensor sr progress_offset progress_scale total_chunks
                 (S i) rest texts' segments'
  end.

Definition transcribe_audio (audio_tensor : tensor) (sr : Z)
    (progress_offset progress_scale : Q)
    (chunk_duration chunk_overlap : Z)
  : M (string * list Plain.Dict) :=
  let total_samples := len audio_tensor in
  let chunk_samples := chunk_duration * sr in
  let step_samples := (chunk_duration - chunk_overlap) * sr in
  if total_samples <=? chunk_samples then
    report_progress (progress_offset + progress_scale * 0.1)%Q
                    transcribing single_chunk ;;;
    text <- transcribe_chunk audio_tensor sr ;;
    report_progress (progress_offset + progress_scale)%Q
                    transcribing (chunk_of 1 1) ;;;
    ret (text,
         if Py.truthy text
         then [{| Plain.start := 0;
                  Plain.end_ := (inject_Z total_samples / inject_Z sr)%Q;
                  Plain.text := text |}]
         else [])
  else
    starts <- py_range0 total_samples step_samples ;;
    let chunks := take_chunks starts chunk_samples total_samples sr in
    r <- chunk_loop audio_tensor sr progress_offset progress_scale
                    (List.length chunks) 0 chunks [] [] ;;
    ret (Py.join (fst r), snd r).

(** [diarize.diarize]: the raw turns of the pipeline, merged and
    filtered. *)
Definition diarize (num_speakers : option Z)
    (gap_threshold min_duration : Q) : M (list Diarize.Segment) :=
  match pyannote num_speakers with
  | inl e => raise e
  | inr segments =>
      ret (_filter_short (_merge_segments segments gap_threshold) min_duration)
  end.

(** Lines 333-339: the chunks of a long turn. *)
Fixpoint span_loop (segment_audio : tensor) (sr chunk_samples : Z)
    (starts : list Z) (parts : list string) : M (list string) :=
  match starts with
  | [] => ret parts
  | chunk_start :: rest =>
      let chunk := slice segment_audio chunk_start (chunk_start + chunk_samples) in
      if Py.Qltb (inject_Z (len chunk)) (inject_Z sr * 0.3) then ret parts
      else
        text <- transcribe_chunk chunk sr ;;
        span_loop segment_audio sr chunk_samples rest
                  (if Py.truthy text then parts ++ [text] else parts)
  end.

(** The sample span of a turn and its duration (lines 323-327). *)
Definition start_sample_of (seg : Diarize.Segment) (sr : Z) : Z :=
  Py.int (Diarize.start seg * inject_Z sr).
Definition end_sample_of (seg : Diarize.Segment) (sr : Z) : Z :=
  Py.int (Diarize.end_ seg * inject_Z sr).
Definition span_duration (seg : Diarize.Segment) (sr : Z) : Q :=
  (inject_Z (end_sample_of seg sr - start_sample_of seg sr) / inject_Z sr)%Q.

(** Lines 329-342: the first transcription of a turn. *)
Definition transcribe_span (audio_tensor : tensor) (sr : Z)
    (chunk_duration chunk_overlap : Z) (seg : Diarize.Segment) : M string :=
  let segment_audio :=
    slice audio_tensor (start_sample_of seg sr) (end_sample_of seg sr) in
  if Py.Qltb (inject_Z (chunk_duration - chunk_overlap)) (span_duration seg sr)
  then
    let chunk_samples := chunk_duration * sr in
    let step_s := (chunk_duration - chunk_overlap) * sr in
    starts <- py_range0 (len segment_audio) step_s ;;
    parts <- span_loop segment_audio sr chunk_samples starts [] ;;
    ret (Py.join parts)
  else transcribe_chunk segment_audio sr.

(** Lines 344-350: the retry on the padded span. *)
Definition expanded_audio (audio_tensor : tensor) (sr expansion_pad : Z)
    (seg : Diarize.Segment) : tensor :=
  let pad := expansion_pad * sr in
  let expanded_start := Z.max 0 (start_sample_of seg sr - pad) in
  let expanded_end := Z.min (len audio_tensor) (end_sample_of seg sr + pad) in
  slice audio_tensor expanded_start expanded_end.

Definition retry_expanded (audio_tensor : tensor) (sr expansion_pad : Z)
    (seg : Diarize.Segment) (text : string) : M string :=
  if negb (Py.truthy text) && Qle_bool 0.5 (span_duration seg sr)
  then transcribe_chunk (expanded_audio audio_tensor sr expansion_pad seg) sr
  else ret text.

(** Lines 352-370: what a turn adds to [results]. *)
Definition emit_turn (sr : Z) (seg : Diarize.Segment) (text : string)
    (results : list Dict) : M (list Dict) :=
  if Py.truthy text then
    ret (results ++
           [{| start := Py.round_n (Diarize.start seg) 2;
               end_ := Py.round_n (Diarize.end_ seg) 2;
               speaker := Diarize.speaker_id seg;
               text := text |}])
  else if Qle_bool 0.5 (span_duration seg sr) then
    report_warning
      (empty_segment (Diarize.speaker_id seg) (Diarize.start seg)
                     (Diarize.end_ seg) (span_duration seg sr)) ;;;
    ret (results ++
           [{| start := Py.round_n (Diarize.start seg) 2;
               end_ := Py.round_n (Diarize.end_ seg) 2;
               speaker := Diarize.speaker_id seg;
               text := "[...]" |}])
  else ret results.

(** Lines 329-350: the text of a turn, retry included. *)
Definition transcribe_with_expansion (audio_tensor : tensor) (sr : Z)
    (chunk_duration chunk_overlap expansion_pad : Z)
    (seg : Diarize.Segment) : M string :=
  text <- transcribe_span audio_tensor sr chunk_duration chunk_overlap seg ;;
  retry_expanded audio_tensor sr expansion_pad seg text.

(** Lines 322-370: what one turn does to [results]. *)
Definition turn_body (audio_tensor : tensor) (sr : Z)
    (chunk_duration chunk_overlap expansion_pad : Z)
    (seg : Diarize.Segment) (results : list Dict) : M (list Dict) :=
  text <- transcribe_with_expansion audio_tensor sr chunk_duration
            chunk_overlap expansion_pad seg ;;
  emit_turn sr seg text results.

(** Lines 321-380: the loop over the turns ([i] counts from 0). *)
Fixpoint turn_loop (audio_tensor : tensor) (sr : Z)
    (chunk_duration chunk_overlap expansion_pad : Z)
    (total_segments : nat) (i : nat)
    (diar_segments : list Diarize.Segment) (results : list Dict)
  : M (list Dict) :=
  match diar_segments with
  | [] => ret results
  | seg :: rest =>
      results' <- turn_body audio_tensor sr chunk_duration chunk_overlap
                            expansion_pad seg results ;;
      let progress :=
        (0.35 + 0.6 * (inject_Z (Z.of_nat (i + 1))
                       / inject_Z (Z.of_nat total_segments)))%Q in
      report_progress progress transcribing
                      (segment_of (i + 1) total_segments) ;;;
      turn_loop audio_tensor sr chunk_duration chunk_overlap expansion_pad
                total_segments (S i) rest results'
  end.

(** Lines 395-408: the chunks of the undetected tail. *)
Fixpoint tail_loop (tail_audio : tensor) (sr chunk_samples : Z)
    (last_diar_end : Q) (starts : list Z) (results : list Dict)
  : M (list Dict) :=
  match starts with
  | [] => ret results
  | chunk_start :: rest =>
      let chunk := slice tail_audio chunk_start (chunk_start + chunk_samples) in
      if Py.Qltb (inject_Z (len chunk)) (inject_Z sr * 0.3) then ret results
      else
        text <- transcribe_chunk chunk sr ;;
        let results' :=
          if Py.truthy text then
            let abs_start :=
              (last_diar_end + inject_Z chunk_start / inject_Z sr)%Q in
            let abs_end :=
              (last_diar_end
               + inject_Z (Z.min (chunk_start + chunk_samples) (len tail_audio))
                 / inject_Z sr)%Q in
            results ++
              [{| start := Py.round_n abs_start 2;
                  end_ := Py.round_n abs_end 2;
                  speaker := "";
                  text := text |}]
          else results in
        tail_loop tail_audio sr chunk_samples last_diar_end rest results'
  end.

(** Lines 384-408. *)
Definition last_diar_end_of (diar_segments : list Diarize.Segment) : Q :=
  match last_item diar_segments with
  | Some seg => Diarize.end_ seg
  | None => 0
  end.

Definition tail_gap_of (audio_tensor : tensor) (sr : Z)
    (diar_segments : list Diarize.Segment) : Q :=
  (inject_Z (len audio_tensor) / inject_Z sr
   - last_diar_end_of diar_segments)%Q.

Definition tail_fallback (audio_tensor : tensor) (sr : Z)
    (chunk_duration chunk_overlap : Z)
    (diar_segments : list Diarize.Segment) (results : list Dict)
  : M (list Dict) :=
  let last_diar_end := last_diar_end_of diar_segments in
  if Py.Qltb 10 (tail_gap_of audio_tensor sr diar_segments) then
    let tail_start_sample := Py.int (last_diar_end * inject_Z sr) in
    let tail_audio := slice_from audio_tensor tail_start_sample in
    report_progress 0.95 transcribing processing_undetected_tail_audio ;;;
    let chunk_samples := chunk_duration * sr in
    let step_samples := (chunk_duration - chunk_overlap) * sr in
    starts <- py_range0 (len tail_audio) step_samples ;;
    tail_loop tail_audio sr chunk_samples last_diar_end starts results
  else ret results.

Definition transcribe_with_diarization (audio_tensor : tensor) (sr : Z)
    (num_speakers : option Z)
    (chunk_duration chunk_overlap : Z) (merge_gap min_segment : Q)
    (expansion_pad : Z)
  : M (string * list Dict) :=
  report_progress 0.16 diarizing running_speaker_diarization ;;;
  diar_segments <- diarize num_speakers merge_gap min_segment ;;
  report_progress 0.35 diarizing (found_segments (List.length diar_segments)) ;;;
  results <- turn_loop audio_tensor sr chunk_duration chunk_overlap
                       expansion_pad (List.length diar_segments) 0
                       diar_segments [] ;;
  results <- tail_fallback audio_tensor sr chunk_duration chunk_overlap
                           diar_segments results ;;
  let merged := merge_results merge_gap results in
  ret (Py.join (map text merged), merged).

(** *** [main] *)

Definition lift {A} (r : Exn + A) : M A :=
  match r with inl e => raise e | inr a => ret a end.

(** [_model_heartbeat]: one message per period elapsed before the load
    returns. *)
Fixpoint _model_heartbeat (periods : nat) (p : Q) : M unit :=
  match periods with
  | O => ret tt
  | S k =>
      let p' := if Qle_bool (p + 0.008) 0.13 then (p + 0.008)%Q else 0.13%Q in
      report_progress p' loading_model loading_GigaAM ;;;
      _model_heartbeat k p'
  end.

(** Lines 655-691: the choice of the pipeline and the fallback. *)
Definition run_pipeline (args : Args.t) (audio : tensor) (sr : Z)
  : M (bool * nat * string * list AnyDict) :=
  if Args.diarize args then
    let num_spk :=
      if 0 <? Args.speakers args then Some (Args.speakers args) else None in
    try_except
      (r <- transcribe_with_diarization audio sr num_spk
              (Args.chunk_duration args) (Args.chunk_overlap args)
              (Args.merge_gap args) (Args.min_segment args)
              (Args.expansion_pad args) ;;
       let segments := map spoken (snd r) in
       ret (true,
            List.length (nodup string_dec (map get_speaker segments)),
            fst r, segments))
      (fun e =>
         report_warning (diarization_unavailable e) ;;;
         report_progress 0.15 transcribing fallback_without_diarization ;;;
         r <- transcribe_audio audio sr 0.15 0.78
                (Args.chunk_duration args) (Args.chunk_overlap args) ;;
         ret (false, 0%nat, fst r, map plain (snd r)))
  else
    report_progress 0.15 transcribing starting_transcription ;;;
    r <- transcribe_audio audio sr 0.15 0.78
           (Args.chunk_duration args) (Args.chunk_overlap args) ;;
    ret (false, 0%nat, fst r, map plain (snd r)).

(** Lines 617-737: the body of the [try] of [main]. *)
Definition main_body (host : Host.t) (args : Args.t) : M Transcription :=
  report_progress 0.01 preparing converting_audio ;;;
  let duration := Host.get_audio_duration host in
  lift (Host.convert_to_wav host) ;;;
  report_progress 0.03 preparing loading_audio ;;;
  audio <- lift (Host.torchaudio_load host) ;;
  let sr := SAMPLE_RATE in
  let duration :=
    if Qle_bool duration 0 then (inject_Z (len audio) / inject_Z sr)%Q
    else duration in
  report_progress 0.05 loading_model loading_GigaAM ;;;
  _model_heartbeat (Host.heartbeats host) 0.05 ;;;
  try_except (lift (Host.load_asr_model host))
             (fun e =>
                match Host.load_report host with
                | Some message => report_error message
                | None => ret tt
                end ;;;
                raise e) ;;;
  report_progress 0.14 loading_model model_ready ;;;
  r <- run_pipeline args audio sr ;;
  report_progress 0.95 saving writing_output ;;;
  lift (Host.write_output host) ;;;
  report_warnings_summary ;;;
  report_progress 1.0 complete saved_to_output ;;;
  let '(diarization, num_speakers, full_text, segments) := r in
  ret {| duration := duration; diarization := diarization;
         num_speakers := num_speakers; full_text := full_text;
         segments := segments |}.

(** [main]: the exit code, and the transcription of a successful run. *)
Definition main (host : Host.t) (args : Args.t)
  : World -> (Z * option Transcription) * World :=
  fun w =>
    if negb (Host.input_exists host) then
      ((1, None), snd (report_error "Input file not found" w))
    else if negb (Host.extension_supported host) then
      ((1, None), snd (report_error "Unsupported file format" w))
    else
      match main_body host args w with
      | (Ok t, w') => ((0, Some t), w')
      | (Raise e, w') => ((1, None), snd (report_error e w'))
      end.

End Engine.

Arguments Ok {A} a.
Arguments Raise {A} e.
Arguments model {Model} w.
Arguments stderr {Model} w.
Arguments _warnings {Model} w.
Arguments units {Model} w.
Arguments invoked {Model} w.
Arguments ret {Model A} a w.
Arguments bind {Model A B} m k w.
Arguments raise {Model A} e w.
Arguments try_except {Model A} body handler w.
Arguments lift {Model A} r.
Arguments report_progress {Model} progress step detail w.
Arguments report_error {Model} message w.
Arguments report_warning {Model} message w.
Arguments report_warnings_summary {Model} w.
Arguments save_and_transcribe {Model} model_transcribe audio_tensor w.
Arguments returned {Model} audio_tensor text w.
Arguments transcribe_chunk {Model} model_transcribe audio_tensor sr.
Arguments py_range0 {Model} stop step.
Arguments chunk_loop {Model} model_transcribe audio_tensor sr
  progress_offset progress_scale total_chunks i chunks texts segments.
Arguments transcribe_audio {Model} model_transcribe audio_tensor sr
  progress_offset progress_scale chunk_duration chunk_overlap.
Arguments diarize {Model} pyannote num_speakers gap_threshold min_duration.
Arguments span_loop {Model} model_transcribe segment_audio sr chunk_samples
  starts parts.
Arguments transcribe_span {Model} model_transcribe audio_tensor sr
  chunk_duration chunk_overlap seg.
Arguments retry_expanded {Model} model_transcribe audio_tensor sr
  expansion_pad seg text.
Arguments emit_turn {Model} sr seg text results.
Arguments transcribe_with_expansion {Model} model_transcribe audio_tensor sr
  chunk_duration chunk_overlap expansion_pad seg.
Arguments turn_body {Model} model_transcribe audio_tensor sr
  chunk_duration chunk_overlap expansion_pad seg results.
Arguments turn_loop {Model} model_transcribe audio_tensor sr
  chunk_duration chunk_overlap expansion_pad total_segments i
  diar_segments results.
Arguments tail_loop {Model} model_transcribe tail_audio sr chunk_samples
  last_diar_end starts results.
Arguments tail_fallback {Model} model_transcribe audio_tensor sr
  chunk_duration chunk_overlap diar_segments results.
Arguments transcribe_with_diarization {Model} model_transcribe pyannote
  audio_tensor sr num_speakers chunk_duration chunk_overlap merge_gap
  min_segment expansion_pad.
Arguments _model_heartbeat {Model} periods p.
Arguments run_pipeline {Model} model_transcribe pyannote args audio sr.
Arguments main_body {Model} model_transcribe pyannote host args.
Arguments main {Model} model_transcribe pyannote host args w.

(** The progress values of a stream, in order of emission. *)
Fixpoint progress_values (msgs : list Msg) : list Q :=
  match msgs with
  | [] => []
  | progress_msg p _ _ :: rest => p :: progress_values rest
  | _ :: rest => progress_values rest
  end.

(** ** The SRT renderer *)

Definition newline : string := String (ascii_of_nat 10) EmptyString.

Fixpoint zeros (n : nat) : string :=
  match n with O => EmptyString | S k => String "0" (zeros k) end.

(** [str(n)] and [f"{n:0<width>d}"] for an integer. *)
Definition str (n : Z) : string := NilZero.string_of_int (Z.to_int n).

Definition format_d (width : nat) (n : Z) : string :=
  let digits := str (Z.abs n) in
  if n <? 0
  then ("-" ++ zeros (width - 1 - String.length digits) ++ digits)%string
  else (zeros (width - String.length digits) ++ digits)%string.

Definition _format_ts_srt (seconds : Q) : string :=
  let h := Py.int (Py.floordiv seconds 3600) in
  let m := Py.int (Py.floordiv (Py.mod_ seconds 3600) 60) in
  let s := Py.int (Py.mod_ seconds 60) in
  let ms := Py.round ((seconds - inject_Z (Py.int seconds)) * 1000) in
  (format_d 2 h ++ ":" ++ format_d 2 m ++ ":" ++ format_d 2 s
   ++ "," ++ format_d 3 ms)%string.

Definition get_start (s : AnyDict) : Q :=
  match s with plain d => Plain.start d | spoken d => start d end.
Definition get_end (s : AnyDict) : Q :=
  match s with plain d => Plain.end_ d | spoken d => end_ d end.
Definition get_text (s : AnyDict) : string :=
  match s with plain d => Plain.text d | spoken d => text d end.

Fixpoint srt_lines (i : Z) (segments : list AnyDict) (diarization : bool)
  : list string :=
  match segments with
  | [] => []
  | seg :: rest =>
      let start_ts := _format_ts_srt (get_start seg) in
      let end_ts := _format_ts_srt (get_end seg) in
      let speaker := get_speaker seg in
      [str i;
       (start_ts ++ " --> " ++ end_ts)%string;
       if diarization && Py.truthy speaker
       then ("[" ++ speaker ++ "] " ++ get_text seg)%string
       else get_text seg;
       ""]
      ++ srt_lines (i + 1) rest diarization
  end.

Definition format_output_srt (segments : list AnyDict) (diarization : bool)
  : string :=
  String.concat newline (srt_lines 1 segments diarization).

(** ** Vocabulary of the statements *)

(** The window [a, b) of a view, in samples counted from its start. *)
Definition window (t : tensor) (a b : Z) : tensor :=
  {| lo := lo t + a; hi := lo t + b |}.

(** A number of samples in seconds. *)
Definition seconds (samples sr : Z) : Q := (inject_Z samples / inject_Z sr)%Q.

(** The [i]-th range of the schedule: it starts [i] steps into the buffer
    and lasts one chunk, cut at the end of the buffer. *)
Definition nth_range (chunk_samples step_samples total_samples : Z) (i : nat)
  : Z * Z :=
  (Z.of_nat i * step_samples,
   Z.min (Z.of_nat i * step_samples + chunk_samples) total_samples).

Definition range_samples (r : Z * Z) : Z := snd r - fst r.

(** The dict built for a kept chunk (lines 271-275). *)
Definition chunk_dict (sr : Z) (c : (Z * Z) * string) : Plain.Dict :=
  {| Plain.start := Py.round_n (inject_Z (fst (fst c)) / inject_Z sr) 2;
     Plain.end_ := Py.round_n (inject_Z (snd (fst c)) / inject_Z sr) 2;
     Plain.text := snd c |}.

(** The chunks of a buffer longer than one chunk (lines 251-256). *)
Definition chunks_of (total_samples chunk_samples step_samples sr : Z)
  : list (Z * Z) :=
  take_chunks
    (map (fun i => Z.of_nat i * step_samples)
         (seq 0 (Py.range_len total_samples step_samples)))
    chunk_samples total_samples sr.

(** A range of the schedule shorter than 0.3 s. *)
Definition too_short (chunk_samples step_samples total_samples sr : Z)
    (i : nat) : Prop :=
  10 * range_samples (nth_range chunk_samples step_samples total_samples i)
  < 3 * sr.


(** The dict built for a recognised chunk of the tail (lines 401-408). *)
Definition tail_dict (sr : Z) (last_diar_end : Q) (c : (Z * Z) * string)
  : Dict :=
  {| start := Py.round_n (last_diar_end + inject_Z (fst (fst c)) / inject_Z sr) 2;
     end_ := Py.round_n (last_diar_end + inject_Z (snd (fst c)) / inject_Z sr) 2;
     speaker := "";
     text := snd c |}.

(** A sequence of progress values that never goes back. *)
Fixpoint non_decreasing (values : list Q) : Prop :=
  match values with
  | a :: (b :: _) as rest => (a <= b)%Q /\ non_decreasing rest
  | _ => True
  end.

(** A computation that only appends to the stream. *)
Definition appends {Model A} (m : M Model A) : Prop :=
  forall w, exists msgs, stderr (snd (m w)) = stderr w ++ msgs.

(** Reading an SRT timestamp [HH:MM:SS,mmm] back into seconds: two digits
    of hours, two of minutes, two of seconds and three of milliseconds. *)
Definition digit_value (c : ascii) : option Z :=
  let n := Z.of_nat (nat_of_ascii c) in
  if (48 <=? n) && (n <=? 57) then Some (n - 48) else None.

Definition digits2 (a b : ascii) : option Z :=
  match digit_value a, digit_value b with
  | Some x, Some y => Some (10 * x + y)
  | _, _ => None
  end.

Definition digits3 (a b c : ascii) : option Z :=
  match digit_value a, digit_value b, digit_value c with
  | Some x, Some y, Some z => Some (100 * x + 10 * y + z)
  | _, _, _ => None
  end.

Definition parse_ts_srt (ts : string) : option Q :=
  match ts with
  | String h1 (String h2 (String ":"
      (String m1 (String m2 (String ":"
        (String s1 (String s2 (String ","
          (String f1 (String f2 (String f3 EmptyString))))))))))) =>
      match digits2 h1 h2, digits2 m1 m2, digits2 s1 s2, digits3 f1 f2 f3 with
      | Some h, Some m, Some s, Some ms =>
          Some (inject_Z (3600 * h + 60 * m + s) + (ms # 1000))%Q
      | _, _, _, _ => None
      end
  | _ => None
  end.

(** ** Inputs used in the examples *)

(** A buffer of [n] samples, as loaded by [main]. *)
Definition buffer (n : Z) : tensor := {| lo := 0; hi := n |}.

(** The state at the start of a run. *)
Definition fresh {Model} (m : Model) : World Model :=
  {| model := m; stderr := []; _warnings := []; units := []; invoked := [] |}.

Definition talkative : unit -> tensor -> (Exn + string) * unit :=
  fun _ _ => (inr " hi ", tt).
Definition failing : unit -> tensor -> (Exn + string) * unit :=
  fun _ _ => (inl "RuntimeError", tt).

(** A diarization that cannot be loaded, one that finds no turn, and one
    that finds the given turns. *)
Definition unavailable : option Z -> Exn + list Diarize.Segment :=
  fun _ => inl "RuntimeError: pipeline not loaded".
Definition finds (turns : list Diarize.Segment)
  : option Z -> Exn + list Diarize.Segment :=
  fun _ => inr turns.

(** Speaker A from 0 to 5 s, a blip of speaker B, speaker A again from 5.2
    to 9 s. *)
Definition turn_A1 : Diarize.Segment :=
  {| Diarize.start := 0; Diarize.end_ := 5; Diarize.speaker_id := "A" |}.
Definition turn_B : Diarize.Segment :=
  {| Diarize.start := 5; Diarize.end_ := 5.1; Diarize.speaker_id := "B" |}.
Definition turn_A2 : Diarize.Segment :=
  {| Diarize.start := 5.2; Diarize.end_ := 9; Diarize.speaker_id := "A" |}.


(** A host on which every step succeeds, for a buffer of [n] samples whose
    model loads within [periods] heartbeat periods. *)
Definition host_ok (n : Z) (periods : nat) : Host.t :=
  {| Host.input_exists := true;
     Host.extension_supported := true;
     Host.get_audio_duration := seconds n SAMPLE_RATE;
     Host.convert_to_wav := inr tt;
     Host.torchaudio_load := inr (buffer n);
     Host.load_asr_model := inr tt;
     Host.load_report := None;
     Host.heartbeats := periods;
     Host.write_output := inr tt |}.

(** The default command line, with or without [--diarize]. *)
Definition default_args (diarize : bool) : Args.t :=
  {| Args.diarize := diarize;
     Args.speakers := 0;
     Args.chunk_duration := 20;
     Args.chunk_overlap := 4;
     Args.merge_gap := 0.8;
     Args.min_segment := 0.2;
     Args.expansion_pad := 3 |}.

(** ** Vocabulary of the further properties *)

(** No two neighbours of the list are related by [R]. *)
Fixpoint adjacent_free {A} (R : A -> A -> Prop) (l : list A) : Prop :=
  match l with
  | a :: (b :: _) as rest => ~ R a b /\ adjacent_free R rest
  | _ => True
  end.

(** The condition under which the merge step of the pipeline joins [r] to
    [prev], and the one under which [_merge_segments] joins [seg] to
    [prev]; the gap is compared as the source compares it, on floats. *)
Definition mergeable (merge_gap : Q) (prev r : Dict) : Prop :=
  speaker prev = speaker r /\ speaker r <> ""
  /\ Py.sub_lt (start r) (end_ prev) merge_gap = true.

Definition mergeable_turns (gap_threshold : Q) (prev seg : Diarize.Segment)
  : Prop :=
  Diarize.speaker_id seg = Diarize.speaker_id prev
  /\ Py.sub_lt (Diarize.start seg) (Diarize.end_ prev) gap_threshold = true.

(** The shape shared by the two merge loops: the last element kept absorbs
    the next one when [test] holds. *)
Definition absorb_step {A} (test : A -> A -> bool) (join : A -> A -> A)
    (kept : list A) (next : A) : list A :=
  match last_item kept with
  | Some prev =>
      if test prev next then set_last kept (join prev next)
      else kept ++ [next]
  | None => kept ++ [next]
  end.

(** A computation every run of which relates the state it starts from to
    the state it ends in by [R]. *)
Definition stable {Model A} (R : World Model -> World Model -> Prop)
    (m : M Model A) : Prop :=
  forall w, R w (snd (m w)).

(** The warnings written to a stream, in order. *)
Fixpoint warnings_of (msgs : list Msg) : list Warning :=
  match msgs with
  | [] => []
  | warning_msg w :: rest => w :: warnings_of rest
  | _ :: rest => warnings_of rest
  end.

(** The warning [transcribe_chunk] emits for an invocation of the model
    that raised (none for one that answered). *)
Definition failure_warning (sr : Z) (call : tensor * (Exn + string))
  : list Warning :=
  match snd call with
  | inl e => [chunk_failed (seconds (len (fst call)) sr) e]
  | inr _ => []
  end.

(** Reading a stream from its start with the warnings [seen] so far: every
    summary counts the warnings written before it and lists the first 20
    of them, and none is written while there is no warning. *)
Fixpoint summaries_agree (seen : list Warning) (msgs : list Msg) : Prop :=
  match msgs with
  | [] => True
  | warning_msg w :: rest => summaries_agree (seen ++ [w]) rest
  | warnings_summary n first :: rest =>
      n = List.length seen /\ first = firstn 20 seen /\ seen <> []
      /\ summaries_agree seen rest
  | _ :: rest => summaries_agree seen rest
  end.

(** Between two states of a run: each new warning answers one new
    invocation of the model that raised. *)
Definition tracks {Model} (sr : Z) (w w' : World Model) : Prop :=
  exists calls,
    invoked w' = invoked w ++ calls
    /\ _warnings w' = _warnings w ++ flat_map (failure_warning sr) calls.

(** Between two states of a run: the model was invoked on the slices of at
    least 0.1 s handed to [transcribe_chunk], in order. *)
Definition reaches {Model} (sr : Z) (w w' : World Model) : Prop :=
  exists us,
    units w' = units w ++ us
    /\ map fst (invoked w')
       = map fst (invoked w)
         ++ filter (fun t => negb (10 * len t <? sr)) (map fst us).

(** Between two states of a run: the warnings collected are the warnings
    written to the stream, and every summary written agrees with the
    stream before it. *)
Definition in_step {Model} (w w' : World Model) : Prop :=
  forall seen,
    _warnings w = seen ++ warnings_of (stderr w) ->
    summaries_agree seen (stderr w) ->
    _warnings w' = seen ++ warnings_of (stderr w')
    /\ summaries_agree seen (stderr w').

(** A computation that, run from a state satisfying [P], ends in a state
    satisfying [Q] of its result when it returns, and [E] of the exception
    when it raises. *)
Definition triple {Model A} (P : World Model -> Prop) (m : M Model A)
    (Q : A -> World Model -> Prop) (E : Exn -> World Model -> Prop) : Prop :=
  forall w, P w ->
    match m w with
    | (Ok a, w') => Q a w'
    | (Raise e, w') => E e w'
    end.




(** Between two states of a run: lines were added to the stream, none of
    them [unwanted]. *)
Definition adds_no {Model} (unwanted : Msg -> bool) (w w' : World Model)
  : Prop :=
  exists msgs,
    stderr w' = stderr w ++ msgs /\ existsb unwanted msgs = false.


(** The command line without [--diarize]. *)
Definition without_diarize (args : Args.t) : Args.t :=
  {| Args.diarize := false;
     Args.speakers := Args.speakers args;
     Args.chunk_duration := Args.chunk_duration args;
     Args.chunk_overlap := Args.chunk_overlap args;
     Args.merge_gap := Args.merge_gap args;
     Args.min_segment := Args.min_segment args;
     Args.expansion_pad := Args.expansion_pad args |}.

(** Two states in which the model and its history are the same; the
    stream and the collected warnings may differ. *)
Definition same_work {Model} (w1 w2 : World Model) : Prop :=
  model w1 = model w2 /\ units w1 = units w2 /\ invoked w1 = invoked w2.

(** Two computations that, from states with the same model and history,
    end with the same outcome in states with the same model and
    history. *)
Definition alike {Model A} (m1 m2 : M Model A) : Prop :=
  forall w1 w2,
    same_work w1 w2 ->
    fst (m1 w1) = fst (m2 w2) /\ same_work (snd (m1 w1)) (snd (m2 w2)).

(** A time rounded to two decimals. *)
Definition two_decimals (q : Q) : Prop := exists x, q = Py.round_n x 2.

(** A segment of the diarized result: it has words, its bounds are rounded
    to two decimals, and its speaker is one of [speakers] or none. *)
Definition wellformed_segment (speakers : list string) (d : Dict) : Prop :=
  text d <> ""
  /\ two_decimals (start d) /\ two_decimals (end_ d)
  /\ (speaker d = "" \/ In (speaker d) speakers).

(** The assertion that holds of every state. *)
Definition anywhere {Model} : World Model -> Prop := fun _ => True.

(** ** The VTT timestamp (lines 539-545) and its reading *)

Definition _format_ts_vtt (seconds : Q) : string :=
  let h := Py.int (Py.floordiv seconds 3600) in
  let m := Py.int (Py.floordiv (Py.mod_ seconds 3600) 60) in
  let s := Py.int (Py.mod_ seconds 60) in
  let ms := Py.round ((seconds - inject_Z (Py.int seconds)) * 1000) in
  (format_d 2 h ++ ":" ++ format_d 2 m ++ ":" ++ format_d 2 s
   ++ "." ++ format_d 3 ms)%string.

(** Reading a VTT timestamp [HH:MM:SS.mmm] back into seconds. *)
Definition parse_ts_vtt (ts : string) : option Q :=
  match ts with
  | String h1 (String h2 (String ":"
      (String m1 (String m2 (String ":"
        (String s1 (String s2 (String "."
          (String f1 (String f2 (String f3 EmptyString))))))))))) =>
      match digits2 h1 h2, digits2 m1 m2, digits2 s1 s2, digits3 f1 f2 f3 with
      | Some h, Some m, Some s, Some ms =>
          Some (inject_Z (3600 * h + 60 * m + s) + (ms # 1000))%Q
      | _, _, _, _ => None
      end
  | _ => None
  end.

(** The labels of a list of segments that name a speaker, and whether one
    of the segments names none. *)
Definition named_speakers (segments : list Dict) : list string :=
  filter (fun s => negb (String.eqb s "")) (map speaker segments).

Definition some_unlabelled (segments : list Dict) : bool :=
  existsb (fun s => String.eqb s "") (map speaker segments).

(** The dict a turn adds to the results, with the words recognised or the
    placeholder (lines 353-358 and 365-370), and what the loop over the
    turns adds, given for each turn the words kept for it, if any. *)
Definition turn_dict (seg : Diarize.Segment) (words : string) : Dict :=
  {| start := Py.round_n (Diarize.start seg) 2;
     end_ := Py.round_n (Diarize.end_ seg) 2;
     speaker := Diarize.speaker_id seg;
     text := words |}.

Definition kept_turns (segs : list Diarize.Segment)
    (outcomes : list (option string)) : list Dict :=
  flat_map (fun c => match snd c with
                     | Some words => [turn_dict (fst c) words]
                     | None => []
                     end)
           (combine segs outcomes).

(** ** The Markdown renderer (lines 446-495) *)

(** [f"{m:02d}:{s:02d}"] for [m, s = divmod(int(t), 60)]. *)
Definition md_time (t : Q) : string :=
  let whole := Py.int t in
  (format_d 2 (whole / 60) ++ ":" ++ format_d 2 (whole mod 60))%string.

Definition md_line (seg : AnyDict) : string :=
  ("*[" ++ md_time (get_start seg) ++ "]* " ++ get_text seg)%string.

(** [speaker != current_speaker], where [current_speaker] starts as
    [None]. *)
Definition differs (current_speaker : option string) (speaker : string)
  : bool :=
  match current_speaker with
  | Some current => negb (String.eqb speaker current)
  | None => true
  end.

(** Lines 472-484: the loop over the segments of a diarized result. *)
Fixpoint md_speaker_loop (current_speaker : option string)
    (segments : list AnyDict) : list string :=
  match segments with
  | [] => []
  | seg :: rest =>
      let speaker := get_speaker seg in
      if Py.truthy speaker && differs current_speaker speaker
      then [("### " ++ speaker)%string; ""; md_line seg; ""]
           ++ md_speaker_loop (Some speaker) rest
      else [md_line seg; ""] ++ md_speaker_loop current_speaker rest
  end.

(** [Path(source).stem] and [Path(source).name] are given as
    [source_stem] and [source_name]. *)
Definition md_lines (source_stem source_name : string) (duration : Q)
    (diarization : bool) (speakers : Z) (full_text : string)
    (segments : list AnyDict) : list string :=
  let dur_min := Py.int (Py.floordiv duration 60) in
  let dur_sec := Py.int (Py.mod_ duration 60) in
  [("# Транскрипция: " ++ source_stem)%string; "";
   ("**Длительность:** " ++ str dur_min ++ " мин " ++ str dur_sec
    ++ " сек")%string]
  ++ (if diarization && (0 <? speakers)
      then [("**Спикеров:** " ++ str speakers)%string] else [])
  ++ [("**Файл:** `" ++ source_name ++ "`")%string; ""; "---"; ""]
  ++ (if diarization
         && match segments with [] => false | _ => true end
         && existsb (fun s => Py.truthy (get_speaker s)) segments
      then md_speaker_loop None segments
      else if match segments with [] => false | _ => true end
              && (1 <? Z.of_nat (List.length segments))
      then flat_map (fun seg => [md_line seg; ""]) segments
      else [full_text; ""]).

Definition format_output_md (source_stem source_name : string) (duration : Q)
    (diarization : bool) (speakers : Z) (full_text : string)
    (segments : list AnyDict) : string :=
  String.concat newline
    (md_lines source_stem source_name duration diarization speakers full_text
              segments).

(** The labels of a list that differ from the label before them. *)
Definition speaker_changes (labels : list string) : list string :=
  map fst
      (filter (fun c => differs (snd c) (fst c))
              (combine labels (None :: map Some labels))).

(** * Properties *)

(** [Py.binary64] is the correctly rounded value.  On the tenths up to
    1000 and on the hundredths between -100 and 100 it is the quotient of
    the two integers, which binary64 division rounds correctly; on a
    binary64 value it is the value itself; halfway between two binary64
    values it takes the one of even mantissa; at half the smallest
    subnormal value it is zero and at [2 ^ 1024] it is infinity. *)
Example binary64_nearest :
  forallb (fun k =>
             PrimFloat.eqb (Py.binary64 (k # 10))
               (PrimFloat.div (PrimFloat.of_uint63 (Uint63.of_Z k)) 10)
             && PrimFloat.eqb (Py.binary64 (k # 100))
                  (PrimFloat.div (PrimFloat.of_uint63 (Uint63.of_Z k)) 100)
             && PrimFloat.eqb (Py.binary64 (- k # 100))
                  (PrimFloat.opp
                     (PrimFloat.div (PrimFloat.of_uint63 (Uint63.of_Z k))
                                    100)))
          (map Z.of_nat (seq 0 (Z.to_nat 10001))) = true
  /\ Py.binary64 (3602879701896397 # 36028797018963968)
     = 0x1.999999999999ap-4%float
  /\ Py.binary64 (2 ^ 53 + 1) = 0x1p+53%float
  /\ Py.binary64 (2 ^ 53 + 3) = 0x1.0000000000002p+53%float
  /\ Py.binary64 (Qpower 2 (-1074)) = 0x1p-1074%float
  /\ Py.binary64 (Qpower 2 (-1075)) = PrimFloat.zero
  /\ Py.binary64 (Qpower 2 1024) = PrimFloat.infinity.
Proof. repeat apply conj; vm_compute; reflexivity. Qed.

(** [sr * 0.3] and [sr * 0.1] at the pipeline's rate are the binary64
    values 4800.0 and 1600.0: comparing a sample count with them is the
    comparison with the exact products used below. *)
Example threshold_03_binary64 :
  PrimFloat.eqb (PrimFloat.mul 16000%float 0x1.3333333333333p-2%float)
                4800%float = true.
Proof. reflexivity. Qed.

Example threshold_01_binary64 :
  PrimFloat.eqb (PrimFloat.mul 16000%float 0x1.999999999999ap-4%float)
                1600%float = true.
Proof. reflexivity. Qed.

(** ** Comparisons of sample counts with the thresholds *)

Lemma Qltb_lt (x y : Q) : Py.Qltb x y = true <-> (x < y)%Q.
Proof.
  unfold Py.Qltb. rewrite negb_true_iff, <- not_true_iff_false, Qle_bool_iff.
  split; intro H; [ now apply Qnot_le_lt | now apply Qlt_not_le ].
Qed.

Lemma Qltb_ge (x y : Q) : Py.Qltb x y = false <-> (y <= x)%Q.
Proof.
  unfold Py.Qltb. rewrite negb_false_iff. apply Qle_bool_iff.
Qed.

Lemma short_03 (n sr : Z) :
  Py.Qltb (inject_Z n) (inject_Z sr * 0.3) = (10 * n <? 3 * sr).
Proof.
  apply eq_iff_eq_true. rewrite Qltb_lt, Z.ltb_lt.
  unfold Qlt, Qmult, inject_Z; cbn [Qnum Qden]. lia.
Qed.

Lemma short_01 (n sr : Z) :
  Py.Qltb (inject_Z n) (inject_Z sr * 0.1) = (10 * n <? sr).
Proof.
  apply eq_iff_eq_true. rewrite Qltb_lt, Z.ltb_lt.
  unfold Qlt, Qmult, inject_Z; cbn [Qnum Qden]. lia.
Qed.

(** ** Lists *)

Lemma last_item_snoc {A} (l : list A) (x : A) : last_item (l ++ [x]) = Some x.
Proof. unfold last_item. now rewrite rev_unit. Qed.

Lemma set_last_snoc {A} (l : list A) (x y : A) :
  set_last (l ++ [x]) y = l ++ [y].
Proof. unfold set_last. now rewrite removelast_last. Qed.

Lemma last_item_nil {A} : @last_item A [] = None.
Proof. reflexivity. Qed.

(** ** Slices of a view *)

Lemma slice_window (t : tensor) (a b : Z) :
  0 <= a <= b -> b <= len t -> slice t a b = window t a b.
Proof.
  intros Ha Hb. unfold slice, window, Py.clamp_index.
  destruct (Z.ltb_spec a 0); destruct (Z.ltb_spec b 0); try lia.
  f_equal; lia.
Qed.

Lemma len_slice_nonneg (t : tensor) (a b : Z) : 0 <= len (slice t a b).
Proof. unfold slice, len; cbn. lia. Qed.

Lemma len_window (t : tensor) (a b : Z) : len (window t a b) = b - a.
Proof. unfold len, window; cbn. lia. Qed.


Lemma seconds_lt (n sr : Z) (a : Z) (b : positive) :
  0 < sr -> (seconds n sr < a # b)%Q <-> n * Zpos b < a * sr.
Proof.
  intros Hsr. unfold seconds, Qlt, Qdiv, Qmult, Qinv, inject_Z.
  destruct sr as [|p|p]; try lia. cbn [Qnum Qden]. nia.
Qed.

Lemma seconds_le (n sr : Z) (a : Z) (b : positive) :
  0 < sr -> (a # b <= seconds n sr)%Q <-> a * sr <= n * Zpos b.
Proof.
  intros Hsr. unfold seconds, Qle, Qdiv, Qmult, Qinv, inject_Z.
  destruct sr as [|p|p]; try lia. cbn [Qnum Qden]. nia.
Qed.

Section Units.

Variable Model : Type.
Variable model_transcribe : Model -> tensor -> (Exn + string) * Model.

(** C7: [transcribe_chunk] never raises.  On a slice shorter than 0.1 s
    it returns the empty text and leaves the model, the stream and the
    warnings untouched, the model is not invoked.  On any other slice the
    model is invoked exactly once, on that slice: an answer is returned
    stripped; an exception is turned into one warning (written to the
    stream and collected) and the empty text. *)
Theorem transcribe_chunk_contract
    (audio_tensor : tensor) (sr : Z) (w : World Model) :
  0 < sr ->
  let r := fst (transcribe_chunk model_transcribe audio_tensor sr w) in
  let w' := snd (transcribe_chunk model_transcribe audio_tensor sr w) in
  (exists text, r = Ok text) /\
  ((seconds (len audio_tensor) sr < 0.1)%Q ->
     r = Ok "" /\ invoked w' = invoked w /\ model w' = model w
     /\ stderr w' = stderr w /\ _warnings w' = _warnings w) /\
  (~ (seconds (len audio_tensor) sr < 0.1)%Q ->
     let answer := fst (model_transcribe (model w) audio_tensor) in
     invoked w' = invoked w ++ [(audio_tensor, answer)] /\
     match answer with
     | inr text =>
         r = Ok (Py.strip text)
         /\ stderr w' = stderr w /\ _warnings w' = _warnings w
     | inl e =>
         let warning := chunk_failed (seconds (len audio_tensor) sr) e in
         r = Ok ""
         /\ stderr w' = stderr w ++ [warning_msg warning]
         /\ _warnings w' = _warnings w ++ [warning]
     end).
Proof.
  intros Hsr r w'. subst r w'.
  unfold transcribe_chunk, bind, try_except, save_and_transcribe, returned,
    report_warning, ret.
  rewrite short_01.
  assert (Hiff : (seconds (len audio_tensor) sr < 0.1)%Q
                 <-> 10 * len audio_tensor < sr).
  { change (0.1%Q) with (1 # 10)%Q. rewrite seconds_lt by assumption. lia. }
  destruct (Z.ltb_spec (10 * len audio_tensor) sr) as [Hs | Hs]; cbn.
  - split; [ now exists "" |]. split; [ now intros _ | ].
    intros Hn. exfalso. apply Hn, Hiff, Hs.
  - destruct (model_transcribe (model w) audio_tensor) as [[e | text] m'];
      cbn.
    + split; [ now exists "" |]. split.
      * intros Hlt. apply Hiff in Hlt. lia.
      * intros _. now repeat split.
    + split; [ now eexists |]. split.
      * intros Hlt. apply Hiff in Hlt. lia.
      * intros _. now repeat split.
Qed.

End Units.

(** A one-second slice fed to a model that raises. *)
Lemma transcribe_chunk_contract_witness :
  0 < SAMPLE_RATE
  /\ ~ (seconds (len (buffer 16000)) SAMPLE_RATE < 0.1)%Q
  /\ fst (transcribe_chunk failing (buffer 16000) SAMPLE_RATE (fresh tt))
     = Ok ""
  /\ _warnings
       (snd (transcribe_chunk failing (buffer 16000) SAMPLE_RATE (fresh tt)))
     = [chunk_failed (seconds 16000 SAMPLE_RATE) "RuntimeError"].
Proof.
  assert (Hsr : 0 < SAMPLE_RATE) by reflexivity.
  assert (Hlong : ~ (seconds (len (buffer 16000)) SAMPLE_RATE < 0.1)%Q)
    by (vm_compute; discriminate).
  destruct (transcribe_chunk_contract unit failing (buffer 16000) SAMPLE_RATE
              (fresh tt) Hsr) as (_ & _ & H).
  destruct (H Hlong) as (_ & Hr & _ & Hw).
  repeat split; assumption.
Defined.

Ltac split_ands := repeat match goal with |- _ /\ _ => split end.

(** ** Running the monad *)

Lemma bind_ok {Model A B} (m : M Model A) (k : A -> M Model B) w a w' :
  m w = (Ok a, w') -> bind m k w = k a w'.
Proof. intros H. unfold bind. now rewrite H. Qed.

Lemma bind_raise {Model A B} (m : M Model A) (k : A -> M Model B) w e w' :
  m w = (Raise e, w') -> bind m k w = (Raise e, w').
Proof. intros H. unfold bind. now rewrite H. Qed.

(** ** The per-unit transcription inside the loops *)

Section UnitsInLoops.

Variable Model : Type.
Variable model_transcribe : Model -> tensor -> (Exn + string) * Model.

(** A call of [transcribe_chunk] returns a text, records itself, writes no
    progress message and can only add warnings; a non-empty text comes from
    a slice of at least 0.1 s. *)
Lemma transcribe_chunk_ok (audio_tensor : tensor) (sr : Z) (w : World Model) :
  exists text w',
    transcribe_chunk model_transcribe audio_tensor sr w = (Ok text, w')
    /\ units w' = units w ++ [(audio_tensor, text)]
    /\ (text <> "" -> sr <= 10 * len audio_tensor)
    /\ progress_values (stderr w') = progress_values (stderr w)
    /\ (exists ws, _warnings w' = _warnings w ++ ws).
Proof.
  unfold transcribe_chunk, bind, try_except, save_and_transcribe, returned,
    report_warning, ret.
  rewrite short_01.
  destruct (Z.ltb_spec (10 * len audio_tensor) sr) as [Hs | Hs]; cbn -[Z.mul].
  - do 2 eexists. split; [ reflexivity |].
      cbn [units stderr _warnings model invoked]. split_ands.
    + reflexivity.
    + intros H; now elim H.
    + reflexivity.
    + exists []. now rewrite app_nil_r.
  - destruct (model_transcribe (model w) audio_tensor) as [[e | text] m'];
      cbn -[Z.mul].
    + do 2 eexists. split; [ reflexivity |].
      cbn [units stderr _warnings model invoked]. split_ands.
      * reflexivity.
      * intros H; now elim H.
      * clear. induction (stderr w) as [| [] l IH]; cbn; congruence.
      * now eexists.
    + do 2 eexists. split; [ reflexivity |].
      cbn [units stderr _warnings model invoked]. split_ands.
      * reflexivity.
      * intros _; lia.
      * reflexivity.
      * exists []. now rewrite app_nil_r.
Qed.

End UnitsInLoops.

(** ** The chunk schedule *)

Section Schedule.

Variables chunk_samples step_samples total_samples sr : Z.

Local Notation "'short_at' i" :=
  (too_short chunk_samples step_samples total_samples sr i) (at level 10).

(** The loop of lines 251-256 over the starts [k, k+1, ...] steps in: it
    keeps the ranges of the schedule in order, none of them too short, and
    if it stops early the next range is too short. *)
Lemma take_chunks_seq (m k : nat) :
  let l := take_chunks (map (fun i => Z.of_nat i * step_samples) (seq k m))
                       chunk_samples total_samples sr in
  (List.length l <= m)%nat
  /\ (forall j, (j < List.length l)%nat ->
        nth_error l j
        = Some (nth_range chunk_samples step_samples total_samples (k + j))
        /\ ~ short_at (k + j))
  /\ ((List.length l < m)%nat -> short_at (k + List.length l)).
Proof.
  revert k. induction m as [| m IH]; intros k; cbn -[Z.mul Z.of_nat].
  - split; [ lia |]. split; intros; lia.
  - rewrite short_03.
    destruct (Z.ltb_spec
                (10 * (Z.min (Z.of_nat k * step_samples + chunk_samples)
                             total_samples - Z.of_nat k * step_samples))
                (3 * sr)) as [Hs | Hs]; cbn -[Z.mul Z.of_nat].
    + split; [ lia |]. split; [ intros; lia |].
      intros _. unfold too_short, range_samples, nth_range.
      cbn [fst snd]. now rewrite Nat.add_0_r.
    + specialize (IH (S k)). cbv zeta in IH.
      set (l' := take_chunks _ chunk_samples total_samples sr) in *.
      destruct IH as (Hlen & Hnth & Hstop).
      cbn [List.length]. split; [ lia |]. split.
      * intros [| j] Hj.
        -- rewrite Nat.add_0_r. split; [ reflexivity |].
           unfold too_short, range_samples, nth_range. cbn [fst snd]. lia.
        -- cbn [nth_error]. replace (k + S j)%nat with (S k + j)%nat by lia.
           apply Hnth. lia.
      * intros Hlt.
        replace (k + S (List.length l'))%nat with (S k + List.length l')%nat
          by lia.
        apply Hstop. lia.
Qed.

(** Past the last start of [range(0, total_samples, step_samples)] no
    sample is left. *)
Lemma range_len_covers :
  0 < step_samples ->
  total_samples <= Z.of_nat (Py.range_len total_samples step_samples)
                   * step_samples.
Proof.
  intros Hstep. unfold Py.range_len.
  destruct (Z.leb_spec total_samples 0) as [H0 | H0]; [ cbn; lia |].
  rewrite Z2Nat.id by (apply Z.add_nonneg_nonneg; [ apply Z.div_pos |]; lia).
  pose proof (Z.div_mod (total_samples - 1) step_samples ltac:(lia)).
  pose proof (Z.mod_pos_bound (total_samples - 1) step_samples Hstep).
  nia.
Qed.

End Schedule.

(** ** The plain pipeline *)

Section PlainPipeline.

Variable Model : Type.
Variable model_transcribe : Model -> tensor -> (Exn + string) * Model.

(** The loop of lines 263-283 calls [transcribe_chunk] once per chunk, in
    order, and keeps the chunks with a non-empty text. *)
Lemma chunk_loop_run audio_tensor sr po ps total_chunks :
  forall chunks i texts segments (w : World Model),
  exists answers w',
    List.length answers = List.length chunks
    /\ chunk_loop model_transcribe audio_tensor sr po ps total_chunks i
                  chunks texts segments w
       = (Ok (texts ++ filter Py.truthy answers,
              segments ++
                map (chunk_dict sr)
                    (filter (fun c => Py.truthy (snd c))
                            (combine chunks answers))), w')
    /\ units w'
       = units w ++
           combine (map (fun c => slice audio_tensor (fst c) (snd c)) chunks)
                   answers.
Proof.
  induction chunks as [| [start_sample end_sample] rest IH];
    intros i texts segments w.
  - exists [], w. cbn. now rewrite !app_nil_r.
  - cbn [chunk_loop].
    destruct (transcribe_chunk_ok Model model_transcribe
                (slice audio_tensor start_sample end_sample) sr w)
      as (text & w1 & Hrun & Hunits & _).
    rewrite (bind_ok _ _ _ _ _ Hrun).
    destruct (Py.truthy text) eqn:Htext.
    + unfold bind at 1. cbn [report_progress].
      match goal with
      | |- context [chunk_loop _ _ _ _ _ _ _ _ ?t ?s ?w2] =>
          destruct (IH (S i) t s w2) as (answers & w' & Hlen & Heq & Hu)
      end.
      exists (text :: answers), w'. split; [ cbn; now rewrite Hlen |].
      split.
      * rewrite Heq. cbn [filter combine snd map]. rewrite Htext.
        cbn [map]. now rewrite <- !app_assoc.
      * rewrite Hu. cbn [units map combine fst snd]. rewrite Hunits.
        now rewrite <- app_assoc.
    + unfold bind at 1. cbn [report_progress].
      match goal with
      | |- context [chunk_loop _ _ _ _ _ _ _ _ ?t ?s ?w2] =>
          destruct (IH (S i) t s w2) as (answers & w' & Hlen & Heq & Hu)
      end.
      exists (text :: answers), w'. split; [ cbn; now rewrite Hlen |].
      split.
      * rewrite Heq. cbn [filter combine snd map]. now rewrite Htext.
      * rewrite Hu. cbn [units map combine fst snd]. rewrite Hunits.
        now rewrite <- app_assoc.
Qed.

Lemma map_fst_combine_eq {A B} (l : list A) (l' : list B) :
  List.length l' = List.length l -> map fst (combine l l') = l.
Proof.
  revert l'. induction l as [| a l IH]; intros [| b l'] H; cbn in *;
    try discriminate; try reflexivity.
  f_equal. apply IH. now injection H.
Qed.

Lemma map_snd_combine_eq {A B} (l : list A) (l' : list B) :
  List.length l' = List.length l -> map snd (combine l l') = l'.
Proof.
  revert l'. induction l as [| a l IH]; intros [| b l'] H; cbn in *;
    try discriminate; try reflexivity.
  f_equal. apply IH. now injection H.
Qed.

(** The short path: one call on the whole tensor. *)
Lemma transcribe_audio_single audio_tensor sr po ps D O (w : World Model) :
  len audio_tensor <= D * sr ->
  exists text w',
    transcribe_audio model_transcribe audio_tensor sr po ps D O w
    = (Ok (text,
           if Py.truthy text
           then [{| Plain.start := 0;
                    Plain.end_ := seconds (len audio_tensor) sr;
                    Plain.text := text |}]
           else []), w')
    /\ units w' = units w ++ [(audio_tensor, text)]
    /\ (text <> "" -> sr <= 10 * len audio_tensor).
Proof.
  intros Hshort. unfold transcribe_audio.
  destruct (Z.leb_spec (len audio_tensor) (D * sr)) as [_ | H]; [| lia ].
  unfold bind at 1. cbn [report_progress].
  match goal with
  | |- context [transcribe_chunk _ _ _] =>
      destruct (transcribe_chunk_ok Model model_transcribe audio_tensor sr
                  {| model := model w;
                     stderr := stderr w ++
                       [progress_msg (Py.round_n (po + ps * 0.1) 3)
                                     transcribing single_chunk];
                     _warnings := _warnings w; units := units w;
                     invoked := invoked w |})
        as (text & w1 & Hrun & Hunits & Hlen & _)
  end.
  rewrite (bind_ok _ _ _ _ _ Hrun). unfold bind, ret. cbn [report_progress].
  do 2 eexists. split; [ reflexivity |]. cbn [units]. now split.
Qed.

(** The long path: one call per chunk of the schedule. *)
Lemma transcribe_audio_chunked audio_tensor sr po ps D O (w : World Model) :
  D * sr < len audio_tensor -> 0 < (D - O) * sr ->
  let chunks := chunks_of (len audio_tensor) (D * sr) ((D - O) * sr) sr in
  exists answers w',
    List.length answers = List.length chunks
    /\ transcribe_audio model_transcribe audio_tensor sr po ps D O w
       = (Ok (Py.join (filter Py.truthy answers),
              map (chunk_dict sr)
                  (filter (fun c => Py.truthy (snd c))
                          (combine chunks answers))), w')
    /\ units w'
       = units w ++
           combine (map (fun c => slice audio_tensor (fst c) (snd c)) chunks)
                   answers.
Proof.
  intros Hlong Hstep chunks. unfold transcribe_audio.
  destruct (Z.leb_spec (len audio_tensor) (D * sr)) as [H | _]; [ lia |].
  unfold py_range0, Py.range0.
  destruct (Z.eqb_spec ((D - O) * sr) 0) as [H | _]; [ lia |].
  destruct (Z.ltb_spec ((D - O) * sr) 0) as [H | _]; [ lia |].
  unfold bind at 1, ret at 1. fold chunks.
  destruct (chunk_loop_run audio_tensor sr po ps (List.length chunks)
              chunks 0%nat [] [] w) as (answers & w' & Hlen & Heq & Hu).
  exists answers, w'. split; [ assumption |]. split; [| assumption ].
  rewrite (bind_ok _ _ _ _ _ Heq). reflexivity.
Qed.

End PlainPipeline.

Section ChunkSchedule.

Variable Model : Type.
Variable model_transcribe : Model -> tensor -> (Exn + string) * Model.

(** C1: the slices [transcribe_audio] hands to [transcribe_chunk].  For a
    buffer longer than one chunk and [0 <= O < D] they are, in order, the
    ranges [start_i, end_i) with [start_i = i * (D - O) * sr] and
    [end_i = min (start_i + D * sr) total_samples], each at least 0.3 s
    long, and the range that would come next is shorter than 0.3 s (the
    tail is dropped).  For a buffer of at most one chunk the only slice is
    the whole buffer. *)
Theorem chunk_schedule audio_tensor sr po ps D O (w : World Model) :
  0 < sr -> 0 <= O < D -> 0 <= len audio_tensor ->
  let total_samples := len audio_tensor in
  let range := nth_range (D * sr) ((D - O) * sr) total_samples in
  exists submitted : list tensor,
    map fst (units (snd (transcribe_audio model_transcribe audio_tensor sr
                           po ps D O w)))
    = map fst (units w) ++ submitted
    /\ (D * sr < total_samples ->
          (forall i, (i < List.length submitted)%nat ->
             nth_error submitted i
             = Some (window audio_tensor (fst (range i)) (snd (range i)))
             /\ (0.3 <= seconds (range_samples (range i)) sr)%Q)
          /\ (seconds (range_samples (range (List.length submitted))) sr
              < 0.3)%Q)
    /\ (total_samples <= D * sr -> submitted = [audio_tensor]).
Proof.
  intros Hsr HDO Hlen total_samples range. subst total_samples.
  change (0.3%Q) with (3 # 10)%Q.
  destruct (Z.leb_spec (len audio_tensor) (D * sr)) as [Hshort | Hlong].
  - destruct (transcribe_audio_single Model model_transcribe audio_tensor
                sr po ps D O w Hshort) as (text & w' & Heq & Hu & _).
    exists [audio_tensor]. rewrite Heq. cbn [snd]. rewrite Hu, map_app.
    split; [ reflexivity |]. split; [ lia | reflexivity ].
  - assert (Hstep : 0 < (D - O) * sr) by nia.
    destruct (transcribe_audio_chunked Model model_transcribe audio_tensor
                sr po ps D O w Hlong Hstep)
      as (answers & w' & Hlenans & Heq & Hu).
    cbv zeta in Hlenans, Heq, Hu.
    set (chunks := chunks_of (len audio_tensor) (D * sr) ((D - O) * sr) sr)
      in *.
    exists (map (fun c => slice audio_tensor (fst c) (snd c)) chunks).
    rewrite Heq. cbn [snd]. rewrite Hu, map_app.
    rewrite map_fst_combine_eq by (now rewrite length_map).
    split; [ reflexivity |]. split; [| lia ]. intros _.
    rewrite length_map.
    pose proof (take_chunks_seq (D * sr) ((D - O) * sr) (len audio_tensor) sr
                  (Py.range_len (len audio_tensor) ((D - O) * sr)) 0)
      as Hspec.
    cbv zeta in Hspec. fold (chunks_of (len audio_tensor) (D * sr)
                               ((D - O) * sr) sr) in Hspec.
    fold chunks in Hspec. fold range in Hspec.
    destruct Hspec as (Hle & Hnth & Hstop).
    split.
    + intros i Hi. destruct (Hnth i Hi) as (Hi_nth & Hi_long).
      cbn [Nat.add] in Hi_nth, Hi_long.
      unfold too_short in Hi_long. fold range in Hi_long.
      rewrite nth_error_map, Hi_nth. cbn [option_map].
      assert (Hr : 3 * sr <= range_samples (range i) * 10) by lia.
      split; [| now apply seconds_le ].
      f_equal. apply slice_window.
      * unfold range_samples, range, nth_range in *. cbn [fst snd] in *. nia.
      * unfold range, nth_range. cbn [snd]. lia.
    + apply seconds_lt; [ assumption |].
      destruct (Nat.eq_dec (List.length chunks)
                  (Py.range_len (len audio_tensor) ((D - O) * sr)))
        as [Hall | Hearly].
      * pose proof (range_len_covers ((D - O) * sr) (len audio_tensor) Hstep)
          as Hcov.
        rewrite <- Hall in Hcov.
        unfold range_samples, range, nth_range. cbn [fst snd]. lia.
      * assert (Hlt : (List.length chunks
                       < Py.range_len (len audio_tensor) ((D - O) * sr))%nat)
          by lia.
        specialize (Hstop Hlt). cbn [Nat.add] in Hstop.
        unfold too_short in Hstop. fold range in Hstop. lia.
Qed.

End ChunkSchedule.

(** A 45 s buffer with the default chunking. *)
Lemma chunk_schedule_witness :
  0 < SAMPLE_RATE /\ 0 <= 4 < 20 /\ 0 <= len (buffer 720000)
  /\ exists submitted : list tensor,
       map fst (units (snd (transcribe_audio talkative (buffer 720000)
                              SAMPLE_RATE 0.15 0.78 20 4 (fresh tt))))
       = submitted
       /\ List.length submitted = 3%nat.
Proof.
  assert (Hsr : 0 < SAMPLE_RATE) by reflexivity.
  assert (HDO : 0 <= 4 < 20) by lia.
  assert (Hlen : 0 <= len (buffer 720000)) by (vm_compute; discriminate).
  split_ands; try assumption.
  destruct (chunk_schedule unit talkative (buffer 720000) SAMPLE_RATE
              0.15 0.78 20 4 (fresh tt) Hsr HDO Hlen)
    as (submitted & Heq & _).
  exists submitted. split; [ exact Heq |].
  apply (f_equal (@List.length tensor)) in Heq. cbn [fresh units map app] in Heq.
  rewrite <- Heq. vm_compute. reflexivity.
Defined.

(** The ranges claimed for a 45 s buffer with D = 20 and O = 4:
    [0,20), [16,36), [36,45) are not the slices transcribed. *)
Lemma example_45s_not_as_claimed :
  map fst (units (snd (transcribe_audio talkative (buffer (45 * SAMPLE_RATE))
                         SAMPLE_RATE 0.15 0.78 20 4 (fresh tt))))
  <> [window (buffer (45 * SAMPLE_RATE)) 0 (20 * SAMPLE_RATE);
      window (buffer (45 * SAMPLE_RATE)) (16 * SAMPLE_RATE) (36 * SAMPLE_RATE);
      window (buffer (45 * SAMPLE_RATE)) (36 * SAMPLE_RATE) (45 * SAMPLE_RATE)].
Proof. vm_compute. discriminate. Qed.

(** C2 (amended): for a 45 s buffer at the pipeline's rate with D = 20 and
    O = 4, whatever the model answers, exactly three slices are
    transcribed: [0,20), [16,36) and [32,45) in seconds. *)
Theorem example_45s
    (Model : Type) (model_transcribe : Model -> tensor -> (Exn + string) * Model)
    (po ps : Q) (w : World Model) :
  let audio := buffer (45 * SAMPLE_RATE) in
  map fst (units (snd (transcribe_audio model_transcribe audio SAMPLE_RATE
                         po ps 20 4 w)))
  = map fst (units w)
    ++ [window audio 0 (20 * SAMPLE_RATE);
        window audio (16 * SAMPLE_RATE) (36 * SAMPLE_RATE);
        window audio (32 * SAMPLE_RATE) (45 * SAMPLE_RATE)].
Proof.
  intros audio.
  destruct (transcribe_audio_chunked Model model_transcribe audio SAMPLE_RATE
              po ps 20 4 w) as (answers & w' & Hlen & Heq & Hu);
    [ reflexivity | reflexivity |].
  rewrite Heq. cbn [snd]. rewrite Hu, map_app. f_equal.
  rewrite map_fst_combine_eq by (now rewrite length_map).
  vm_compute. reflexivity.
Qed.

(** ** Rounding *)

Lemma round_bounds (q : Q) :
  (q - (1 # 2) <= inject_Z (Py.round q) <= q + (1 # 2))%Q.
Proof.
  unfold Py.round.
  pose proof (Qfloor_le q) as Hlo. pose proof (Qlt_floor q) as Hhi.
  rewrite inject_Z_plus in Hhi. change (inject_Z 1) with 1%Q in Hhi.
  destruct (Qcompare_spec (q - inject_Z (Qfloor q)) (1 # 2)) as [H | H | H].
  - destruct (Z.even (Qfloor q)).
    + lra.
    + rewrite inject_Z_plus. change (inject_Z 1) with 1%Q. lra.
  - lra.
  - rewrite inject_Z_plus. change (inject_Z 1) with 1%Q. lra.
Qed.

(** Two values more than 0.01 apart stay in order when rounded to two
    decimals. *)
Lemma round_2_lt (x y : Q) :
  (x + (1 # 50) <= y)%Q -> (Py.round_n x 2 < Py.round_n y 2)%Q.
Proof.
  intros Hxy. unfold Py.round_n.
  change (10 ^ 2)%positive with 100%positive.
  pose proof (round_bounds (x * inject_Z 100)) as Hx.
  pose proof (round_bounds (y * inject_Z 100)) as Hy.
  change (inject_Z 100) with 100%Q in *.
  assert (H : (inject_Z (Py.round (x * 100)) < inject_Z (Py.round (y * 100)))%Q)
    by lra.
  rewrite <- Zlt_Qlt in H.
  unfold Qlt. cbn [Qnum Qden]. lia.
Qed.

(** ** Sorted lists *)

Lemma StronglySorted_nth {A} (R : A -> A -> Prop) (l : list A) :
  (forall i j a b, (i < j)%nat ->
     nth_error l i = Some a -> nth_error l j = Some b -> R a b) ->
  StronglySorted R l.
Proof.
  induction l as [| x l IH]; intros H; constructor.
  - apply IH. intros i j a b Hij Ha Hb. apply (H (S i) (S j)); auto. lia.
  - apply Forall_forall. intros b Hb.
    destruct (In_nth_error _ _ Hb) as (j & Hj).
    apply (H 0%nat (S j)); auto. lia.
Qed.

Lemma StronglySorted_combine {A B} (R : A -> A -> Prop)
    (l : list A) (l' : list B) :
  StronglySorted R l ->
  StronglySorted (fun p q => R (fst p) (fst q)) (combine l l').
Proof.
  intros H. revert l'. induction H as [| a l Hl IH Ha]; intros [| b l'];
    cbn; try constructor.
  - apply IH.
  - apply Forall_forall. intros [a' b'] Hin. cbn.
    rewrite Forall_forall in Ha. apply Ha. eapply in_combine_l, Hin.
Qed.

Lemma StronglySorted_filter {A} (R : A -> A -> Prop) (p : A -> bool)
    (l : list A) :
  StronglySorted R l -> StronglySorted R (filter p l).
Proof.
  induction 1 as [| a l Hl IH Ha]; cbn; [ constructor |].
  destruct (p a); [| assumption ].
  constructor; [ assumption |].
  rewrite Forall_forall in *. intros b Hb. apply Ha.
  now apply filter_In in Hb.
Qed.

Lemma StronglySorted_map_in {A B} (R : A -> A -> Prop) (R' : B -> B -> Prop)
    (f : A -> B) (l : list A) :
  (forall a b, In a l -> In b l -> R a b -> R' (f a) (f b)) ->
  StronglySorted R l -> StronglySorted R' (map f l).
Proof.
  intros Hf H. induction H as [| a l Hl IH Ha]; cbn; constructor.
  - apply IH. intros x y Hx Hy. apply Hf; now right.
  - rewrite Forall_forall in *. intros b Hb.
    apply in_map_iff in Hb as (x & <- & Hx).
    apply Hf; [ now left | now right | now apply Ha ].
Qed.

Lemma map_snd_filter {A B} (p : B -> bool) (l : list (A * B)) :
  map snd (filter (fun c => p (snd c)) l) = filter p (map snd l).
Proof.
  induction l as [| [a b] l IH]; cbn; [ reflexivity |].
  destruct (p b); cbn; now rewrite IH.
Qed.

Lemma truthy_true (s : string) : Py.truthy s = true <-> s <> "".
Proof. destruct s; cbn; split; congruence. Qed.

Lemma truthy_false (s : string) : Py.truthy s = false <-> s = "".
Proof. destruct s; cbn; split; congruence. Qed.

(** ** The result of the plain pipeline *)

Section PlainResult.

Variable Model : Type.
Variable model_transcribe : Model -> tensor -> (Exn + string) * Model.

(** The chunks of the schedule start at least one step apart and last at
    least 0.3 s. *)
Lemma chunks_of_sorted total_samples chunk_samples step_samples sr :
  0 <= step_samples ->
  StronglySorted (fun a b => fst a + step_samples <= fst b)
                 (chunks_of total_samples chunk_samples step_samples sr)
  /\ Forall (fun c => 3 * sr <= 10 * (snd c - fst c))
            (chunks_of total_samples chunk_samples step_samples sr).
Proof.
  intros Hstep.
  pose proof (take_chunks_seq chunk_samples step_samples total_samples sr
                (Py.range_len total_samples step_samples) 0) as H.
  cbv zeta in H. fold (chunks_of total_samples chunk_samples step_samples sr)
    in H.
  destruct H as (_ & Hnth & _). split.
  - apply StronglySorted_nth. intros i j a b Hij Ha Hb.
    assert (Hj : (j < List.length
                     (chunks_of total_samples chunk_samples step_samples sr))%nat)
      by (apply nth_error_Some; congruence).
    destruct (Hnth i ltac:(lia)) as (Hi' & _).
    destruct (Hnth j Hj) as (Hj' & _).
    cbn [Nat.add] in Hi', Hj'. rewrite Hi' in Ha. rewrite Hj' in Hb.
    injection Ha as <-. injection Hb as <-.
    unfold nth_range. cbn [fst]. nia.
  - apply Forall_forall. intros c Hc.
    destruct (In_nth_error _ _ Hc) as (i & Hi).
    assert (Hlt : (i < List.length
                     (chunks_of total_samples chunk_samples step_samples sr))%nat)
      by (apply nth_error_Some; congruence).
    destruct (Hnth i Hlt) as (Hi' & Hlong).
    cbn [Nat.add] in Hi', Hlong. rewrite Hi' in Hi. injection Hi as <-.
    unfold too_short, range_samples in Hlong. lia.
Qed.

Lemma seconds_pos (n sr : Z) : 0 < sr -> 0 < n -> (0 < seconds n sr)%Q.
Proof.
  intros Hsr Hn. unfold seconds, Qlt, Qdiv, Qmult, Qinv, inject_Z.
  destruct sr as [| p | p]; try lia. cbn [Qnum Qden]. nia.
Qed.

Lemma seconds_apart (a b sr : Z) :
  0 < sr -> 50 * a + sr <= 50 * b ->
  (inject_Z a / inject_Z sr + (1 # 50) <= inject_Z b / inject_Z sr)%Q.
Proof.
  intros Hsr H. unfold Qle, Qplus, Qdiv, Qmult, Qinv, inject_Z.
  destruct sr as [| p | p]; try lia. cbn [Qnum Qden]. nia.
Qed.

(** C10: with [0 <= O < D], whatever the buffer and whatever the model
    does, [transcribe_audio] returns; every segment returned has a
    non-empty text and ends after it starts, the starts increase strictly
    along the list, and the full text is the single-space join of the
    texts of the segments. *)
Theorem plain_result_wellformed audio_tensor sr po ps D O (w : World Model) :
  0 < sr -> 0 <= O < D -> 0 <= len audio_tensor ->
  exists full_text segments w',
    transcribe_audio model_transcribe audio_tensor sr po ps D O w
    = (Ok (full_text, segments), w')
    /\ Forall (fun s => Plain.text s <> ""
                        /\ (Plain.start s < Plain.end_ s)%Q) segments
    /\ StronglySorted (fun a b => (Plain.start a < Plain.start b)%Q) segments
    /\ full_text = Py.join (map Plain.text segments).
Proof.
  intros Hsr HDO Hlen.
  destruct (Z.leb_spec (len audio_tensor) (D * sr)) as [Hshort | Hlong].
  - destruct (transcribe_audio_single Model model_transcribe audio_tensor
                sr po ps D O w Hshort) as (text & w' & Heq & _ & Hpos).
    do 3 eexists. split; [ exact Heq |].
    destruct (Py.truthy text) eqn:Ht.
    + apply truthy_true in Ht. specialize (Hpos Ht). split_ands.
      * constructor; [| constructor ]. cbn [Plain.text Plain.start Plain.end_].
        split; [ assumption |].
        apply seconds_pos; [ assumption | lia ].
      * repeat constructor.
      * reflexivity.
    + apply truthy_false in Ht. subst text. split_ands; constructor.
  - assert (Hstep : 0 < (D - O) * sr) by nia.
    destruct (transcribe_audio_chunked Model model_transcribe audio_tensor
                sr po ps D O w Hlong Hstep)
      as (answers & w' & Hlenans & Heq & _).
    cbv zeta in Hlenans, Heq.
    destruct (chunks_of_sorted (len audio_tensor) (D * sr) ((D - O) * sr) sr
                ltac:(lia))
      as (Hsorted & Hlongs).
    set (chunks := chunks_of (len audio_tensor) (D * sr) ((D - O) * sr) sr)
      in *.
    do 3 eexists. split; [ exact Heq |]. split_ands.
    + apply Forall_forall. intros s Hs.
      apply in_map_iff in Hs as ([[a b] t] & <- & Hin).
      apply filter_In in Hin as (Hin & Ht). cbn [snd] in Ht.
      apply truthy_true in Ht.
      unfold chunk_dict. cbn [Plain.text Plain.start Plain.end_ fst snd].
      split; [ assumption |].
      apply in_combine_l in Hin.
      rewrite Forall_forall in Hlongs. specialize (Hlongs _ Hin).
      cbn [fst snd] in Hlongs.
      apply round_2_lt, seconds_apart; [ assumption | lia ].
    + apply StronglySorted_map_in
        with (R := fun p q => fst (fst p) + (D - O) * sr <= fst (fst q)).
      * intros [[a b] t] [[a' b'] t'] _ _ Hab. cbn [fst snd] in Hab.
        unfold chunk_dict. cbn [Plain.start fst snd].
        apply round_2_lt, seconds_apart; [ assumption | nia ].
      * apply StronglySorted_filter.
        apply (StronglySorted_combine
                 (fun a b => fst a + (D - O) * sr <= fst b)).
        exact Hsorted.
    + f_equal. rewrite map_map.
      change (fun x => Plain.text (chunk_dict sr x))
        with (fun x : Z * Z * string => snd x).
      rewrite map_snd_filter, map_snd_combine_eq by assumption.
      reflexivity.
Qed.

End PlainResult.

(** A 45 s buffer whose chunks are all recognised. *)
Lemma plain_result_wellformed_witness :
  0 < SAMPLE_RATE /\ 0 <= 4 < 20 /\ 0 <= len (buffer 720000)
  /\ exists full_text segments w',
       transcribe_audio talkative (buffer 720000) SAMPLE_RATE 0.15 0.78 20 4
                        (fresh tt)
       = (Ok (full_text, segments), w')
       /\ full_text = Py.join (map Plain.text segments).
Proof.
  assert (Hsr : 0 < SAMPLE_RATE) by reflexivity.
  assert (HDO : 0 <= 4 < 20) by lia.
  assert (Hlen : 0 <= len (buffer 720000)) by (vm_compute; discriminate).
  split_ands; try assumption.
  destruct (plain_result_wellformed unit talkative (buffer 720000)
              SAMPLE_RATE 0.15 0.78 20 4 (fresh tt) Hsr HDO Hlen)
    as (full_text & segments & w' & Heq & _ & _ & Hjoin).
  exists full_text, segments, w'. now split.
Defined.

(** ** The merge step *)



(** The gap is a difference of floats.  The floats 5.8 and 5.0 differ by
    less than the float 0.8, so that two segments of one speaker which end
    at 5.0 and start at 5.8 are merged with [merge_gap = 0.8]; the
    difference of the floats 1.0 and 0.2 is the float 0.8, and two such
    segments are kept apart. *)
Example gap_of_floats :
  PrimFloat.ltb (PrimFloat.sub (Py.binary64 5.8) (Py.binary64 5))
                (Py.binary64 0.8) = true
  /\ PrimFloat.eqb (PrimFloat.sub (Py.binary64 1) (Py.binary64 0.2))
                   (Py.binary64 0.8) = true
  /\ merge_results 0.8
       [{| start := 0; end_ := 5; speaker := "A"; text := "a" |};
        {| start := 5.8; end_ := 9; speaker := "A"; text := "b" |}]
     = [{| start := 0; end_ := 9; speaker := "A"; text := "a b" |}]
  /\ merge_results 0.8
       [{| start := 0; end_ := 0.2; speaker := "A"; text := "a" |};
        {| start := 1; end_ := 2; speaker := "A"; text := "b" |}]
     = [{| start := 0; end_ := 0.2; speaker := "A"; text := "a" |};
        {| start := 1; end_ := 2; speaker := "A"; text := "b" |}].
Proof. split_ands; vm_compute; reflexivity. Qed.

(** ** The turns of the diarized pipeline *)

Lemma progress_values_app (l l' : list Msg) :
  progress_values (l ++ l') = progress_values l ++ progress_values l'.
Proof.
  induction l as [| m l IH]; [ reflexivity |].
  destruct m; cbn; rewrite ?IH; reflexivity.
Qed.

Section Turns.

Variable Model : Type.
Variable model_transcribe : Model -> tensor -> (Exn + string) * Model.




End Turns.



Section Placeholders.

Variable Model : Type.
Variable model_transcribe : Model -> tensor -> (Exn + string) * Model.


End Placeholders.



(** ** The fallback on the tail *)

Lemma slice_chunk (t : tensor) (a c : Z) :
  0 <= a <= len t -> 0 <= c ->
  slice t a (a + c) = window t a (Z.min (a + c) (len t)).
Proof.
  intros Ha Hc. unfold slice, window, Py.clamp_index.
  destruct (Z.ltb_spec a 0); destruct (Z.ltb_spec (a + c) 0); try lia.
  f_equal; lia.
Qed.

Lemma range_starts_bounds (total step : Z) :
  0 < step ->
  Forall (fun s => 0 <= s <= total)
         (map (fun i => Z.of_nat i * step) (seq 0 (Py.range_len total step))).
Proof.
  intros Hstep. apply Forall_forall. intros s Hs.
  apply in_map_iff in Hs as (i & <- & Hi). apply in_seq in Hi.
  unfold Py.range_len in Hi.
  destruct (Z.leb_spec total 0) as [H0 | H0]; [ cbn in Hi; lia |].
  assert (Hq : 0 <= (total - 1) / step) by (apply Z.div_pos; lia).
  assert (Hi' : Z.of_nat i <= (total - 1) / step) by lia.
  pose proof (Z.mul_div_le (total - 1) step Hstep). nia.
Qed.

Lemma merge_results_unlabelled merge_gap (results tail : list Dict) :
  Forall (fun s => speaker s = "") tail ->
  merge_results merge_gap (results ++ tail)
  = merge_results merge_gap results ++ tail.
Proof.
  intros Htail. unfold merge_results. rewrite fold_left_app.
  generalize (fold_left (merge_step merge_gap) results []).
  induction Htail as [| r tail Hr _ IH]; intros acc; cbn [fold_left].
  - now rewrite app_nil_r.
  - assert (Hstep : merge_step merge_gap acc r = acc ++ [r]).
    { unfold merge_step. destruct (last_item acc); [| reflexivity ].
      rewrite Hr. cbn [String.eqb negb]. now rewrite andb_false_r. }
    rewrite Hstep, IH, <- app_assoc. reflexivity.
Qed.

Section Tail.

Variable Model : Type.
Variable model_transcribe : Model -> tensor -> (Exn + string) * Model.

(** The loop of lines 395-408 calls [transcribe_chunk] once per chunk of
    the tail, in order, and keeps the chunks with a non-empty text. *)
Lemma tail_loop_run tail_audio sr chunk_samples last_diar_end :
  0 <= chunk_samples ->
  forall starts results (w : World Model),
  Forall (fun s => 0 <= s <= len tail_audio) starts ->
  let chunks := take_chunks starts chunk_samples (len tail_audio) sr in
  exists answers w',
    List.length answers = List.length chunks
    /\ tail_loop model_transcribe tail_audio sr chunk_samples last_diar_end
                 starts results w
       = (Ok (results ++
                map (tail_dict sr last_diar_end)
                    (filter (fun c => Py.truthy (snd c))
                            (combine chunks answers))), w')
    /\ units w'
       = units w ++
           combine (map (fun c => window tail_audio (fst c) (snd c)) chunks)
                   answers.
Proof.
  intros Hchunk.
  induction starts as [| chunk_start rest IH]; intros results w Hstarts;
    cbv zeta.
  - exists [], w. cbn. now rewrite !app_nil_r.
  - inversion Hstarts as [| ? ? Hs Hrest ]; subst.
    cbn [tail_loop take_chunks].
    rewrite (slice_chunk tail_audio chunk_start chunk_samples Hs Hchunk).
    rewrite len_window.
    destruct (Py.Qltb
                (inject_Z (Z.min (chunk_start + chunk_samples) (len tail_audio)
                           - chunk_start))
                (inject_Z sr * 0.3)).
    + exists [], w. cbn. now rewrite !app_nil_r.
    + destruct (transcribe_chunk_ok Model model_transcribe
                  (window tail_audio chunk_start
                     (Z.min (chunk_start + chunk_samples) (len tail_audio)))
                  sr w) as (text & w1 & Hrun & Hunits & _).
      rewrite (bind_ok _ _ _ _ _ Hrun).
      match goal with
      | |- context [tail_loop _ _ _ _ _ _ ?r ?w2] =>
          destruct (IH r w2 Hrest) as (answers & w' & Hlen & Heq & Hu)
      end.
      cbv zeta in Hlen, Heq, Hu.
      exists (text :: answers), w'.
      split; [ cbn; now rewrite Hlen |]. split.
      * rewrite Heq. cbn [combine filter snd].
        destruct (Py.truthy text); cbn [map];
          [ now rewrite <- app_assoc | reflexivity ].
      * rewrite Hu, Hunits. cbn [map combine fst snd].
        now rewrite <- app_assoc.
Qed.

End Tail.

Section TailFallback.

Variable Model : Type.
Variable model_transcribe : Model -> tensor -> (Exn + string) * Model.

(** The fallback of lines 384-408.  If [tail_gap <= 10] it transcribes
    nothing and adds nothing.  If [tail_gap > 10] the audio after the last
    turn is cut into chunks as in the plain pipeline and each chunk is
    transcribed once, in order; every chunk with a non-empty text adds a
    segment with an empty speaker label, and the merge step leaves these
    segments as they are at the end of the result. *)
Lemma tail_fallback_spec audio_tensor sr D O merge_gap diar_segments results
    (w : World Model) :
  0 < sr -> 0 <= O < D ->
  let last_diar_end := last_diar_end_of diar_segments in
  let tail_gap := tail_gap_of audio_tensor sr diar_segments in
  let tail_audio :=
    slice_from audio_tensor (Py.int (last_diar_end * inject_Z sr)) in
  let chunks := chunks_of (len tail_audio) (D * sr) ((D - O) * sr) sr in
  let run := tail_fallback model_transcribe audio_tensor sr D O diar_segments
                           results w in
  ((tail_gap <= 10)%Q -> run = (Ok results, w))
  /\ ((10 < tail_gap)%Q ->
        exists answers,
          let tail_segments :=
            map (tail_dict sr last_diar_end)
                (filter (fun c => Py.truthy (snd c)) (combine chunks answers)) in
          List.length answers = List.length chunks
          /\ fst run = Ok (results ++ tail_segments)
          /\ units (snd run)
             = units w ++
                 combine (map (fun c => window tail_audio (fst c) (snd c))
                              chunks)
                         answers
          /\ Forall (fun s => speaker s = "" /\ text s <> "") tail_segments
          /\ merge_results merge_gap (results ++ tail_segments)
             = merge_results merge_gap results ++ tail_segments).
Proof.
  intros Hsr HDO last_diar_end tail_gap tail_audio chunks run. split.
  - intros Hle. apply Qltb_ge in Hle. subst run. unfold tail_fallback.
    fold last_diar_end. fold tail_gap. now rewrite Hle.
  - intros Hgt. apply Qltb_lt in Hgt.
    assert (Hstep : 0 < (D - O) * sr) by nia.
    destruct (tail_loop_run Model model_transcribe tail_audio sr (D * sr)
                last_diar_end ltac:(nia)
                (map (fun i => Z.of_nat i * ((D - O) * sr))
                     (seq 0 (Py.range_len (len tail_audio) ((D - O) * sr))))
                results
                (snd (report_progress 0.95 transcribing
                        processing_undetected_tail_audio w))
                (range_starts_bounds (len tail_audio) ((D - O) * sr) Hstep))
      as (answers & w' & Hlen & Heq & Hu).
    cbv zeta in Hlen, Heq, Hu.
    fold (chunks_of (len tail_audio) (D * sr) ((D - O) * sr) sr)
      in Hlen, Heq, Hu.
    fold chunks in Hlen, Heq, Hu.
    assert (Hrun : run
                   = (Ok (results ++
                            map (tail_dict sr last_diar_end)
                                (filter (fun c => Py.truthy (snd c))
                                        (combine chunks answers))), w')).
    { subst run. unfold tail_fallback. fold last_diar_end. fold tail_gap.
      fold tail_audio. rewrite Hgt.
      unfold bind at 1. cbn [report_progress].
      unfold py_range0, Py.range0.
      destruct (Z.eqb_spec ((D - O) * sr) 0) as [H | _]; [ lia |].
      destruct (Z.ltb_spec ((D - O) * sr) 0) as [H | _]; [ lia |].
      unfold bind at 1, ret at 1. exact Heq. }
    exists answers. cbv zeta. rewrite Hrun. cbn [fst snd].
    assert (Hforall :
              Forall (fun s => speaker s = "" /\ text s <> "")
                     (map (tail_dict sr last_diar_end)
                          (filter (fun c => Py.truthy (snd c))
                                  (combine chunks answers)))).
    { apply Forall_forall. intros s Hs.
      apply in_map_iff in Hs as (c & <- & Hc).
      apply filter_In in Hc as (_ & Ht). apply truthy_true in Ht.
      now split. }
    split_ands; try assumption; try reflexivity.
    apply merge_results_unlabelled.
    eapply Forall_impl; [| exact Hforall ]. now intros s (Hs & _).
Qed.

End TailFallback.


(** ** The diarized pipeline as a whole *)

Lemma combine_map_l {A B C} (f : A -> C) (l : list A) (l' : list B) :
  combine (map f l) l' = map (fun c => (f (fst c), snd c)) (combine l l').
Proof.
  revert l'. induction l as [| a l IH]; intros [| b l']; cbn;
    try reflexivity.
  now rewrite IH.
Qed.

Section Diarized.

Variable Model : Type.
Variable model_transcribe : Model -> tensor -> (Exn + string) * Model.





End Diarized.

Section DiarizedResult.

Variable Model : Type.
Variable model_transcribe : Model -> tensor -> (Exn + string) * Model.
Variable pyannote : option Z -> Exn + list Diarize.Segment.


End DiarizedResult.


(** ** The progress stream of a run *)

(** ** Computations that only append to the stream *)

Create HintDb stream discriminated.

Lemma appends_ret {Model A} (a : A) : appends (@ret Model A a).
Proof. intros w. exists []. cbn. now rewrite app_nil_r. Qed.

Lemma appends_raise {Model A} (e : Exn) : appends (@raise Model A e).
Proof. intros w. exists []. cbn. now rewrite app_nil_r. Qed.

Lemma appends_bind {Model A B} (m : M Model A) (k : A -> M Model B) :
  appends m -> (forall a, appends (k a)) -> appends (bind m k).
Proof.
  intros Hm Hk w. unfold bind. destruct (Hm w) as (msgs & Hmsgs).
  destruct (m w) as [[a | e] w1]; cbn [snd] in *.
  - destruct (Hk a w1) as (msgs' & Hmsgs'). exists (msgs ++ msgs').
    now rewrite Hmsgs', Hmsgs, app_assoc.
  - now exists msgs.
Qed.

Lemma appends_try_except {Model A} (body : M Model A)
    (handler : Exn -> M Model A) :
  appends body -> (forall e, appends (handler e)) ->
  appends (try_except body handler).
Proof.
  intros Hm Hk w. unfold try_except. destruct (Hm w) as (msgs & Hmsgs).
  destruct (body w) as [[a | e] w1]; cbn [snd] in *.
  - now exists msgs.
  - destruct (Hk e w1) as (msgs' & Hmsgs'). exists (msgs ++ msgs').
    now rewrite Hmsgs', Hmsgs, app_assoc.
Qed.

Lemma appends_lift {Model A} (r : Exn + A) : appends (@lift Model A r).
Proof. destruct r; [ apply appends_raise | apply appends_ret ]. Qed.

Lemma appends_report_progress {Model} p step detail :
  appends (@report_progress Model p step detail).
Proof. intros w. now eexists. Qed.

Lemma appends_report_warning {Model} message :
  appends (@report_warning Model message).
Proof. intros w. now eexists. Qed.

Lemma appends_report_error {Model} message :
  appends (@report_error Model message).
Proof. intros w. now eexists. Qed.

Lemma appends_report_warnings_summary {Model} :
  appends (@report_warnings_summary Model).
Proof.
  intros w. unfold report_warnings_summary.
  destruct (_warnings w); [ exists []; cbn; now rewrite app_nil_r |].
  now eexists.
Qed.

Lemma appends_py_range0 {Model} stop step :
  appends (@py_range0 Model stop step).
Proof.
  unfold py_range0. destruct (Py.range0 stop step);
    [ apply appends_ret | apply appends_raise ].
Qed.

#[local] Hint Resolve appends_ret appends_raise appends_lift
  appends_report_progress appends_report_warning appends_report_error
  appends_report_warnings_summary appends_py_range0 : stream.

Section Stream.

Variable Model : Type.
Variable model_transcribe : Model -> tensor -> (Exn + string) * Model.
Variable pyannote : option Z -> Exn + list Diarize.Segment.

Lemma appends_transcribe_chunk audio_tensor sr :
  appends (transcribe_chunk model_transcribe audio_tensor sr).
Proof.
  unfold transcribe_chunk. apply appends_bind.
  - destruct (Py.Qltb _ _); [ auto with stream |].
    apply appends_try_except.
    + apply appends_bind; [| auto with stream ].
      intros w. exists []. unfold save_and_transcribe.
      destruct (model_transcribe (model w) audio_tensor). cbn.
      now rewrite app_nil_r.
    + intros e. apply appends_bind; auto with stream.
  - intros text w. exists []. cbn. now rewrite app_nil_r.
Qed.

Lemma appends_chunk_loop audio_tensor sr po ps total_chunks :
  forall chunks i texts segments,
    appends (chunk_loop model_transcribe audio_tensor sr po ps total_chunks
                        i chunks texts segments).
Proof.
  induction chunks as [| [start_sample end_sample] rest IH];
    intros i texts segments; cbn [chunk_loop]; [ auto with stream |].
  apply appends_bind; [ apply appends_transcribe_chunk |].
  intros text. destruct (Py.truthy text);
    (apply appends_bind; [ auto with stream | intros _; apply IH ]).
Qed.

Lemma appends_transcribe_audio audio_tensor sr po ps D O :
  appends (transcribe_audio model_transcribe audio_tensor sr po ps D O).
Proof.
  unfold transcribe_audio. destruct (_ <=? _).
  - apply appends_bind; [ auto with stream | intros _ ].
    apply appends_bind; [ apply appends_transcribe_chunk | intros text ].
    apply appends_bind; auto with stream.
  - apply appends_bind; [ auto with stream | intros starts ].
    apply appends_bind; [ apply appends_chunk_loop | auto with stream ].
Qed.

End Stream.
Lemma not_non_decreasing_app (before after : list Q) (a b : Q) :
  (b < a)%Q -> ~ non_decreasing (before ++ [a; b] ++ after).
Proof.
  intros Hlt. induction before as [| x before IH]; cbn [app].
  - cbn [non_decreasing]. intros (Hle & _). apply (Qlt_not_le _ _ Hlt Hle).
  - destruct before as [| y before]; cbn [app] in *;
      cbn [non_decreasing]; intros (_ & H); now apply IH.
Qed.

Section Fallback.

Variable Model : Type.
Variable model_transcribe : Model -> tensor -> (Exn + string) * Model.
Variable pyannote : option Z -> Exn + list Diarize.Segment.

Lemma appends_after_bind {A B} (m : M Model A) (k : A -> M Model B) :
  (forall a, appends (k a)) ->
  forall w, exists msgs,
    stderr (snd (bind m k w)) = stderr (snd (m w)) ++ msgs.
Proof.
  intros Hk w. unfold bind. destruct (m w) as [[a | e] w1]; cbn [snd].
  - apply Hk.
  - exists []. now rewrite app_nil_r.
Qed.

Lemma heartbeat_run :
  forall periods p (w : World Model),
  exists w' msgs,
    _model_heartbeat periods p w = (Ok tt, w')
    /\ stderr w' = stderr w ++ msgs.
Proof.
  induction periods as [| k IH]; intros p w; cbn [_model_heartbeat].
  - exists w, []. split; [ reflexivity | now rewrite app_nil_r ].
  - unfold bind at 1. cbn [report_progress].
    match goal with
    | |- context [_model_heartbeat k ?p' ?w1] =>
        destruct (IH p' w1) as (w' & msgs & Hrun & Hmsgs)
    end.
    exists w'. eexists. split; [ exact Hrun |].
    rewrite Hmsgs. cbn [stderr]. now rewrite <- app_assoc.
Qed.

(** Lines 655-681 when [diarize] raises: 0.16 is reported, then the
    warning, then 0.15. *)
Lemma run_pipeline_fallback args audio sr e (w : World Model) :
  Args.diarize args = true ->
  (forall num_speakers, pyannote num_speakers = inl e) ->
  exists msgs,
    stderr (snd (run_pipeline model_transcribe pyannote args audio sr w))
    = stderr w
      ++ [progress_msg (Py.round_n 0.16 3) diarizing
                       running_speaker_diarization;
          warning_msg (diarization_unavailable e);
          progress_msg (Py.round_n 0.15 3) transcribing
                       fallback_without_diarization]
      ++ msgs.
Proof.
  intros Hd Hpy. unfold run_pipeline. rewrite Hd.
  unfold try_except, transcribe_with_diarization, diarize.
  rewrite Hpy. unfold bind at 2. cbn [report_progress].
  unfold bind at 2. cbn [raise]. unfold bind at 1.
  unfold bind at 1. cbn [report_warning].
  unfold bind at 1. cbn [report_progress].
  match goal with
  | |- context [bind (transcribe_audio ?mt ?a ?s ?po ?ps ?D ?O) ?k ?w3] =>
      destruct (appends_bind (transcribe_audio mt a s po ps D O) k
                  (appends_transcribe_audio Model mt a s po ps D O)
                  ltac:(intros r; apply appends_ret) w3) as (msgs & Hmsgs)
  end.
  exists msgs. rewrite Hmsgs. cbn [stderr].
  now rewrite <- !app_assoc.
Qed.

End Fallback.
Section MainStream.

Variable Model : Type.
Variable model_transcribe : Model -> tensor -> (Exn + string) * Model.
Variable pyannote : option Z -> Exn + list Diarize.Segment.

(** The stream of the body of [main] when every step before the pipeline
    succeeds and [diarize] raises. *)
Lemma main_body_fallback host args audio e (w : World Model) :
  Host.convert_to_wav host = inr tt ->
  Host.torchaudio_load host = inr audio ->
  Host.load_asr_model host = inr tt ->
  Args.diarize args = true ->
  (forall num_speakers, pyannote num_speakers = inl e) ->
  exists before after,
    stderr (snd (main_body model_transcribe pyannote host args w))
    = stderr w ++ before
      ++ [progress_msg (Py.round_n 0.16 3) diarizing
                       running_speaker_diarization;
          warning_msg (diarization_unavailable e);
          progress_msg (Py.round_n 0.15 3) transcribing
                       fallback_without_diarization]
      ++ after.
Proof.
  intros Hconv Hload Hmodel Hd Hpy. unfold main_body.
  rewrite Hconv, Hload, Hmodel.
  unfold bind at 1. cbn [report_progress].
  unfold bind at 1. cbn [lift ret].
  unfold bind at 1. cbn [report_progress].
  unfold bind at 1. cbn [lift ret].
  unfold bind at 1. cbn [report_progress].
  match goal with
  | |- context [bind (_model_heartbeat ?n ?p) ?k ?w3] =>
      destruct (heartbeat_run Model n p w3) as (w4 & hb & Hhb & Hmsgs4);
      rewrite (bind_ok _ k w3 tt w4 Hhb)
  end.
  unfold bind at 1, try_except. cbn [lift ret].
  unfold bind at 1. cbn [report_progress].
  match goal with
  | |- context [bind (run_pipeline ?mt ?py ?a ?au ?s) ?k ?w5] =>
      destruct (appends_after_bind Model (run_pipeline mt py a au s) k) with
        (w := w5) as (post & Hpost);
      [| destruct (run_pipeline_fallback Model mt py a au s e w5 Hd Hpy)
           as (msgs & Hmsgs) ]
  end.
  - intros r. apply appends_bind; [ auto with stream | intros _ ].
    apply appends_bind; [ auto with stream | intros _ ].
    apply appends_bind; [ auto with stream | intros _ ].
    apply appends_bind; [ auto with stream | intros _ ].
    destruct r as [[[d n] t] s]. apply appends_ret.
  - rewrite Hpost, Hmsgs. cbn [stderr]. rewrite Hmsgs4. cbn [stderr].
    exists ([progress_msg (Py.round_n 0.01 3) preparing converting_audio;
             progress_msg (Py.round_n 0.03 3) preparing loading_audio;
             progress_msg (Py.round_n 0.05 3) loading_model loading_GigaAM]
            ++ hb
            ++ [progress_msg (Py.round_n 0.14 3) loading_model model_ready]).
    exists (msgs ++ post).
    rewrite <- !app_assoc. cbn [app]. reflexivity.
Qed.

(** C8: a run with [--diarize] in which the file is decoded, the model is
    loaded and [diarize] raises.  The stream carries the progress 0.16 of
    the diarizing stage and, right after it, the progress 0.15 of the
    fallback: the progress values of the run go back. *)
Theorem fallback_progress_goes_back host args audio e (w : World Model) :
  Host.input_exists host = true ->
  Host.extension_supported host = true ->
  Host.convert_to_wav host = inr tt ->
  Host.torchaudio_load host = inr audio ->
  Host.load_asr_model host = inr tt ->
  Args.diarize args = true ->
  (forall num_speakers, pyannote num_speakers = inl e) ->
  let values :=
    progress_values
      (stderr (snd (main model_transcribe pyannote host args w))) in
  (exists before after,
     values = before ++ [160 # 1000; 150 # 1000]%Q ++ after)
  /\ ~ non_decreasing values.
Proof.
  intros Hin Hext Hconv Hload Hmodel Hd Hpy values.
  assert (Hvalues : exists before after,
             values = before ++ [160 # 1000; 150 # 1000]%Q ++ after).
  { subst values. unfold main. rewrite Hin, Hext. cbn [negb].
    destruct (main_body_fallback host args audio e w Hconv Hload Hmodel Hd
                Hpy) as (before & after & Hbody).
    destruct (main_body model_transcribe pyannote host args w)
      as [[t | e'] w'] eqn:Hrun; cbn [snd] in Hbody |- *.
    - rewrite Hbody, !progress_values_app.
      exists (progress_values (stderr w) ++ progress_values before).
      exists (progress_values after).
      now rewrite <- !app_assoc.
    - cbn [report_error snd stderr].
      rewrite Hbody, !progress_values_app.
      exists (progress_values (stderr w) ++ progress_values before).
      exists (progress_values after ++ progress_values [error_msg e']).
      now rewrite <- !app_assoc. }
  split; [ exact Hvalues |].
  destruct Hvalues as (before & after & ->).
  now apply not_non_decreasing_app.
Qed.

End MainStream.

(** A decodable 45 s input with the default command line and
    [--diarize], when the pyannote pipeline cannot be loaded. *)
Lemma fallback_progress_goes_back_witness :
  let run := main talkative unavailable (host_ok 720000 1)
                  (default_args true) (fresh tt) in
  progress_values (stderr (snd run))
  = [10 # 1000; 30 # 1000; 50 # 1000; 58 # 1000; 140 # 1000;
     160 # 1000; 150 # 1000;
     410 # 1000; 670 # 1000; 930 # 1000; 950 # 1000; 1000 # 1000]%Q
  /\ ~ non_decreasing (progress_values (stderr (snd run))).
Proof.
  intros run. subst run. split; [ vm_compute; reflexivity |].
  apply (fallback_progress_goes_back unit talkative unavailable
           (host_ok 720000 1) (default_args true) (buffer 720000)
           "RuntimeError: pipeline not loaded" (fresh tt));
    reflexivity.
Defined.

(** ** Timestamps of values with two decimals *)

Lemma int_nonneg (x : Q) : (0 <= x)%Q -> Py.int x = Qfloor x.
Proof.
  intros H. unfold Py.int. apply Qle_bool_iff in H. now rewrite H.
Qed.

Lemma int_inject (z : Z) : Py.int (inject_Z z) = z.
Proof.
  unfold Py.int. destruct (Qle_bool 0 (inject_Z z));
    [ apply Qfloor_Z | apply Qceiling_Z ].
Qed.

Lemma round_comp (x y : Q) : (x == y)%Q -> Py.round x = Py.round y.
Proof.
  intros H. unfold Py.round.
  assert (Hf : Qfloor x = Qfloor y) by (now apply Qfloor_comp).
  assert (Hc : (x - inject_Z (Qfloor x) ?= 1 # 2)%Q
               = (y - inject_Z (Qfloor y) ?= 1 # 2)%Q)
    by (rewrite Hf; apply Qcompare_comp; [ now rewrite H | reflexivity ]).
  cbv zeta. now rewrite Hc, Hf.
Qed.

Lemma round_inject (z : Z) : Py.round (inject_Z z) = z.
Proof.
  unfold Py.round. rewrite Qfloor_Z.
  assert (H : (inject_Z z - inject_Z z ?= 1 # 2)%Q = Lt)
    by (rewrite <- Qlt_alt; unfold Qlt, Qminus, Qplus, Qopp, inject_Z;
        cbn [Qnum Qden]; lia).
  now rewrite H.
Qed.

Lemma floor_hundredths (k : Z) (c : positive) :
  Qfloor ((k # 100) / inject_Z (Zpos c)) = k / (100 * Zpos c).
Proof.
  unfold Qdiv, Qinv, inject_Z, Qmult, Qfloor. cbn [Qnum Qden].
  f_equal; lia.
Qed.

Lemma mod_hundredths (k : Z) (c : positive) :
  (Py.mod_ (k # 100) (inject_Z (Zpos c)) == (k mod (100 * Zpos c)) # 100)%Q.
Proof.
  unfold Py.mod_, Py.floordiv. rewrite floor_hundredths.
  rewrite (Z.mod_eq k (100 * Zpos c)) by lia.
  unfold Qeq, Qminus, Qplus, Qopp, Qmult, inject_Z. cbn [Qnum Qden]. nia.
Qed.

Lemma hundredths_nonneg (k : Z) : 0 <= k -> (0 <= k # 100)%Q.
Proof. intros H. unfold Qle. cbn [Qnum Qden]. lia. Qed.

(** The fields [_format_ts_srt] computes for [k] hundredths of a
    second. *)
Lemma ts_fields (k : Z) :
  0 <= k ->
  Py.int (Py.floordiv (k # 100) 3600) = k / 360000
  /\ Py.int (Py.floordiv (Py.mod_ (k # 100) 3600) 60) = (k mod 360000) / 6000
  /\ Py.int (Py.mod_ (k # 100) 60) = (k mod 6000) / 100
  /\ Py.round (((k # 100) - inject_Z (Py.int (k # 100))) * 1000)
     = (k mod 100) * 10.
Proof.
  intros Hk. split_ands.
  - unfold Py.floordiv. rewrite int_inject.
    change 3600%Q with (inject_Z 3600). now rewrite floor_hundredths.
  - unfold Py.floordiv at 1. rewrite int_inject.
    change 3600%Q with (inject_Z 3600). change 60%Q with (inject_Z 60).
    rewrite (Qfloor_comp _ (((k mod 360000) # 100) / inject_Z 60))
      by (now rewrite mod_hundredths).
    now rewrite floor_hundredths.
  - change 60%Q with (inject_Z 60).
    pose proof (mod_hundredths k 60) as Hmod.
    change (100 * 60) with 6000 in Hmod.
    assert (Hpos : (0 <= Py.mod_ (k # 100) (inject_Z 60))%Q).
    { rewrite Hmod. apply hundredths_nonneg.
      apply Z.mod_pos_bound. lia. }
    rewrite (int_nonneg _ Hpos), (Qfloor_comp _ _ Hmod). reflexivity.
  - rewrite (int_nonneg _ (hundredths_nonneg k Hk)).
    change (Qfloor (k # 100)) with (k / 100).
    rewrite (round_comp _ (inject_Z ((k mod 100) * 10))).
    + apply round_inject.
    + rewrite (Z.mod_eq k 100) by lia.
      unfold Qeq, Qminus, Qplus, Qopp, Qmult, inject_Z. cbn [Qnum Qden].
      nia.
Qed.

(** Two and three digits, written and read back. *)
Lemma two_digits (n : Z) :
  0 <= n < 100 ->
  exists a b,
    format_d 2 n = String a (String b EmptyString) /\ digits2 a b = Some n.
Proof.
  intros Hn.
  assert (Hall :
            forallb
              (fun i =>
                 match format_d 2 (Z.of_nat i) with
                 | String a (String b EmptyString) =>
                     match digits2 a b with
                     | Some v => v =? Z.of_nat i
                     | None => false
                     end
                 | _ => false
                 end) (seq 0 100) = true) by (vm_compute; reflexivity).
  rewrite forallb_forall in Hall.
  specialize (Hall (Z.to_nat n)). rewrite Z2Nat.id in Hall by lia.
  assert (Hin : In (Z.to_nat n) (seq 0 100)) by (apply in_seq; lia).
  specialize (Hall Hin).
  destruct (format_d 2 n) as [| a [| b [| c r ] ] ];
    cbn beta iota in Hall; try discriminate.
  destruct (digits2 a b) as [v |] eqn:Hd; try discriminate.
  apply Z.eqb_eq in Hall. subst v. now exists a, b.
Qed.

Lemma three_digits (n : Z) :
  0 <= n < 1000 ->
  exists a b c,
    format_d 3 n = String a (String b (String c EmptyString))
    /\ digits3 a b c = Some n.
Proof.
  intros Hn.
  assert (Hall :
            forallb
              (fun i =>
                 match format_d 3 (Z.of_nat i) with
                 | String a (String b (String c EmptyString)) =>
                     match digits3 a b c with
                     | Some v => v =? Z.of_nat i
                     | None => false
                     end
                 | _ => false
                 end) (seq 0 1000) = true) by (vm_compute; reflexivity).
  rewrite forallb_forall in Hall.
  specialize (Hall (Z.to_nat n)). rewrite Z2Nat.id in Hall by lia.
  assert (Hin : In (Z.to_nat n) (seq 0 1000)) by (apply in_seq; lia).
  specialize (Hall Hin).
  destruct (format_d 3 n) as [| a [| b [| c [| d r ] ] ] ];
    cbn beta iota in Hall; try discriminate.
  destruct (digits3 a b c) as [v |] eqn:Hd; try discriminate.
  apply Z.eqb_eq in Hall. subst v. now exists a, b, c.
Qed.

(** Below 100 hours, a time with two decimals is read back exactly from
    its SRT timestamp: this covers every start and end that the pipelines
    round with [round(_, 2)]. *)
Lemma srt_round_trip_hundredths (k : Z) :
  0 <= k < 36000000 ->
  exists q, parse_ts_srt (_format_ts_srt (k # 100)) = Some q
            /\ (q == k # 100)%Q.
Proof.
  intros Hk. unfold _format_ts_srt.
  destruct (ts_fields k ltac:(lia)) as (Hh & Hm & Hs & Hms).
  rewrite Hh, Hm, Hs, Hms.
  destruct (two_digits (k / 360000)) as (h1 & h2 & Hfh & Hph);
    [ split; [ apply Z.div_pos | apply Z.div_lt_upper_bound ]; lia |].
  destruct (two_digits (k mod 360000 / 6000)) as (m1 & m2 & Hfm & Hpm).
  { pose proof (Z.mod_pos_bound k 360000 ltac:(lia)).
    split; [ apply Z.div_pos | apply Z.div_lt_upper_bound ]; lia. }
  destruct (two_digits (k mod 6000 / 100)) as (s1 & s2 & Hfs & Hps).
  { pose proof (Z.mod_pos_bound k 6000 ltac:(lia)).
    split; [ apply Z.div_pos | apply Z.div_lt_upper_bound ]; lia. }
  destruct (three_digits (k mod 100 * 10)) as (f1 & f2 & f3 & Hff & Hpf).
  { pose proof (Z.mod_pos_bound k 100 ltac:(lia)). lia. }
  rewrite Hfh, Hfm, Hfs, Hff. cbn [append parse_ts_srt].
  rewrite Hph, Hpm, Hps, Hpf.
  eexists. split; [ reflexivity |].
  unfold Qeq, Qplus, inject_Z. cbn [Qnum Qden].
  pose proof (Z.div_mod k 360000 ltac:(lia)).
  pose proof (Z.div_mod (k mod 360000) 6000 ltac:(lia)).
  pose proof (Z.div_mod (k mod 6000) 100 ltac:(lia)).
  assert (k mod 360000 mod 6000 = k mod 6000)
    by (apply Z.mod_mod_divide; exists 60; lia).
  assert (k mod 6000 mod 100 = k mod 100)
    by (apply Z.mod_mod_divide; exists 60; lia).
  lia.
Qed.

Lemma srt_round_trip_rounded (x : Q) :
  (0 <= Py.round_n x 2 < 360000)%Q ->
  exists q, parse_ts_srt (_format_ts_srt (Py.round_n x 2)) = Some q
            /\ (q == Py.round_n x 2)%Q.
Proof.
  unfold Py.round_n. change (10 ^ 2)%positive with 100%positive.
  intros (Hlo & Hhi). apply srt_round_trip_hundredths.
  unfold Qle, Qlt in *. cbn [Qnum Qden] in *. lia.
Qed.

(** ** The SRT renderer on the result of a run *)

(** C9: a buffer of 31999 samples that is recognised.  The only segment
    ends at 31999/16000 = 1.9999375 s; its end is rendered with a
    millisecond field of 1000, which is not a timestamp HH:MM:SS,mmm and
    cannot be read back. *)
Theorem srt_millisecond_overflow :
  let run := transcribe_audio talkative (buffer 31999) SAMPLE_RATE 0.15 0.78
                              20 4 (fresh tt) in
  let segment := {| Plain.start := 0;
                    Plain.end_ := seconds 31999 SAMPLE_RATE;
                    Plain.text := "hi" |} in
  fst run = Ok ("hi", [segment])
  /\ _format_ts_srt (Plain.end_ segment) = "00:00:01,1000"
  /\ parse_ts_srt (_format_ts_srt (Plain.end_ segment)) = None
  /\ format_output_srt [plain segment] false
     = String.concat newline
         ["1"; "00:00:00,000 --> 00:00:01,1000"; "hi"; ""].
Proof.
  intros run segment. subst run segment.
  split_ands; vm_compute; reflexivity.
Qed.

(** * Further properties *)

(** ** Loops that absorb the next element into the last one kept *)

Lemma last_item_Some {A} (l : list A) (x : A) :
  last_item l = Some x -> exists l', l = l' ++ [x].
Proof.
  unfold last_item. intros H. destruct (rev l) as [| y r] eqn:Hrev;
    [ discriminate |].
  injection H as ->. exists (rev r).
  rewrite <- (rev_involutive l), Hrev. reflexivity.
Qed.

Lemma last_item_None {A} (l : list A) : last_item l = None -> l = [].
Proof.
  unfold last_item. intros H. destruct (rev l) as [| y r] eqn:Hrev;
    [| discriminate ].
  rewrite <- (rev_involutive l), Hrev. reflexivity.
Qed.

Lemma adjacent_free_snoc {A} (R : A -> A -> Prop) (l : list A) (x : A) :
  adjacent_free R (l ++ [x])
  <-> adjacent_free R l
      /\ match last_item l with Some y => ~ R y x | None => True end.
Proof.
  induction l as [| a l IH]; [ cbn; tauto |].
  destruct l as [| b l].
  - cbn. tauto.
  - change (adjacent_free R ((a :: b :: l) ++ [x]))
      with (~ R a b /\ adjacent_free R ((b :: l) ++ [x])).
    change (adjacent_free R (a :: b :: l))
      with (~ R a b /\ adjacent_free R (b :: l)).
    replace (last_item (a :: b :: l)) with (last_item (b :: l)).
    + rewrite IH. tauto.
    + unfold last_item. cbn [rev].
      destruct (rev l ++ [b]) as [| y r] eqn:Hr;
        [ now destruct (rev l) | reflexivity ].
Qed.

Lemma adjacent_free_app_l {A} (R : A -> A -> Prop) (l l' : list A) :
  adjacent_free R (l ++ l') -> adjacent_free R l.
Proof.
  induction l as [| a l IH]; [ now cbn |].
  destruct l as [| b l]; [ now cbn |].
  cbn [app adjacent_free]. intros (Hab & Hrest). split; [ assumption |].
  now apply IH.
Qed.

Lemma adjacent_free_iff {A} (R R' : A -> A -> Prop) (l : list A) :
  (forall a b, R a b <-> R' a b) ->
  adjacent_free R l -> adjacent_free R' l.
Proof.
  intros Hiff. induction l as [| a l IH]; [ now cbn |].
  destruct l as [| b l]; [ now cbn |].
  cbn [adjacent_free]. intros (Hab & Hrest).
  split; [ now rewrite <- Hiff | now apply IH ].
Qed.

Section Absorb.

Variable A : Type.
Variable test : A -> A -> bool.
Variable join : A -> A -> A.

(** Absorbing on the right does not change what the left neighbour
    sees. *)
Hypothesis join_left : forall p prev next, test p (join prev next) = test p prev.

Lemma absorb_step_free (kept : list A) (next : A) :
  adjacent_free (fun a b => test a b = true) kept ->
  adjacent_free (fun a b => test a b = true) (absorb_step test join kept next).
Proof.
  intros Hfree. unfold absorb_step.
  destruct (last_item kept) as [prev |] eqn:Hlast.
  - destruct (last_item_Some _ _ Hlast) as (kept' & ->).
    destruct (test prev next) eqn:Htest.
    + rewrite set_last_snoc.
      apply adjacent_free_snoc in Hfree as (Hfree & Hprev).
      apply adjacent_free_snoc. split; [ assumption |].
      destruct (last_item kept'); [| exact I ].
      now rewrite join_left.
    + apply adjacent_free_snoc. split; [ assumption |].
      rewrite last_item_snoc. now rewrite Htest.
  - apply last_item_None in Hlast. subst kept. exact I.
Qed.

Lemma absorb_fold_free (l kept : list A) :
  adjacent_free (fun a b => test a b = true) kept ->
  adjacent_free (fun a b => test a b = true)
                (fold_left (absorb_step test join) l kept).
Proof.
  revert kept. induction l as [| x l IH]; intros kept Hfree;
    cbn [fold_left]; [ assumption |].
  now apply IH, absorb_step_free.
Qed.

Lemma absorb_fold_fixed (l kept : list A) :
  adjacent_free (fun a b => test a b = true) (kept ++ l) ->
  fold_left (absorb_step test join) l kept = kept ++ l.
Proof.
  revert kept. induction l as [| x l IH]; intros kept Hfree;
    cbn [fold_left]; [ now rewrite app_nil_r |].
  assert (Hstep : absorb_step test join kept x = kept ++ [x]).
  { unfold absorb_step. destruct (last_item kept) as [prev |] eqn:Hlast;
      [| reflexivity ].
    replace (kept ++ x :: l) with ((kept ++ [x]) ++ l) in Hfree
      by (now rewrite <- app_assoc).
    apply adjacent_free_app_l, adjacent_free_snoc in Hfree as (_ & Hprev).
    rewrite Hlast in Hprev. now destruct (test prev x). }
  rewrite Hstep, IH; rewrite <- app_assoc; [ reflexivity | assumption ].
Qed.

End Absorb.

(** ** The merge step of the pipeline *)

Lemma merge_step_absorb (merge_gap : Q) :
  merge_step merge_gap
  = absorb_step
      (fun prev r =>
         String.eqb (speaker prev) (speaker r)
         && negb (String.eqb (speaker r) "")
         && Py.sub_lt (start r) (end_ prev) merge_gap)
      (fun prev r =>
         {| start := start prev; end_ := end_ r; speaker := speaker prev;
            text := (text prev ++ " " ++ text r)%string |}).
Proof. reflexivity. Qed.

Lemma mergeable_test (merge_gap : Q) (prev r : Dict) :
  String.eqb (speaker prev) (speaker r)
  && negb (String.eqb (speaker r) "")
  && Py.sub_lt (start r) (end_ prev) merge_gap = true
  <-> mergeable merge_gap prev r.
Proof.
  unfold mergeable.
  rewrite !andb_true_iff, negb_true_iff, String.eqb_eq, String.eqb_neq.
  tauto.
Qed.

(** X1: the result of the merge step is settled.  No segment of the result
    can still be merged into the one before it (same non-empty speaker and
    a gap below [merge_gap]), and merging the result again changes
    nothing. *)
Theorem merge_results_settled (merge_gap : Q) (results : list Dict) :
  adjacent_free (mergeable merge_gap) (merge_results merge_gap results)
  /\ merge_results merge_gap (merge_results merge_gap results)
     = merge_results merge_gap results.
Proof.
  assert (Hfree :
            adjacent_free
              (fun a b =>
                 String.eqb (speaker a) (speaker b)
                 && negb (String.eqb (speaker b) "")
                 && Py.sub_lt (start b) (end_ a) merge_gap = true)
              (merge_results merge_gap results)).
  { unfold merge_results. rewrite merge_step_absorb.
    apply absorb_fold_free; [ reflexivity | exact I ]. }
  split.
  - eapply adjacent_free_iff; [| exact Hfree ].
    intros a b. apply mergeable_test.
  - unfold merge_results at 1. rewrite merge_step_absorb.
    now rewrite absorb_fold_fixed.
Qed.

Lemma join_cons (x : string) (l : list string) :
  l <> [] -> Py.join (x :: l) = (x ++ " " ++ Py.join l)%string.
Proof. destruct l; [ congruence | reflexivity ]. Qed.

Lemma string_app_assoc (a b c : string) :
  ((a ++ b) ++ c = a ++ b ++ c)%string.
Proof. induction a as [| x a IH]; cbn; [ reflexivity | now rewrite IH ]. Qed.

Lemma join_absorb (l rest : list string) (a b : string) :
  Py.join (l ++ (a ++ " " ++ b)%string :: rest) = Py.join (l ++ a :: b :: rest).
Proof.
  induction l as [| x l IH]; cbn [app].
  - destruct rest as [| y rest]; [ reflexivity |].
    rewrite !join_cons by discriminate. now rewrite string_app_assoc.
  - rewrite !join_cons, IH; try reflexivity; now destruct l.
Qed.

Lemma merge_step_texts merge_gap merged r (rest : list string) :
  Py.join (map text (merge_step merge_gap merged r) ++ rest)
  = Py.join (map text merged ++ text r :: rest).
Proof.
  unfold merge_step.
  destruct (last_item merged) as [prev |] eqn:Hlast.
  - destruct (last_item_Some _ _ Hlast) as (merged' & ->).
    destruct (_ && _).
    + rewrite set_last_snoc, !map_app. cbn [map text].
      rewrite <- !app_assoc. cbn [app]. apply join_absorb.
    + rewrite map_app, <- app_assoc. reflexivity.
  - rewrite map_app, <- app_assoc. reflexivity.
Qed.

(** X2: the merge step never changes the words of the transcript.  The
    full text, joined from the merged segments, is the single-space join
    of the texts of the segments before merging. *)
Theorem merge_keeps_full_text (merge_gap : Q) (results : list Dict) :
  Py.join (map text (merge_results merge_gap results))
  = Py.join (map text results).
Proof.
  unfold merge_results.
  change (map text results) with (map text [] ++ map text results).
  generalize (@nil Dict) as merged.
  induction results as [| r results IH]; intros merged; cbn [fold_left].
  - cbn [map]. now rewrite app_nil_r.
  - rewrite IH. cbn [map]. apply merge_step_texts.
Qed.

(** ** diarize.py: merging and filtering the raw turns *)

Lemma _merge_step_absorb (gap_threshold : Q) :
  _merge_step gap_threshold
  = absorb_step
      (fun prev seg =>
         String.eqb (Diarize.speaker_id seg) (Diarize.speaker_id prev)
         && Py.sub_lt (Diarize.start seg) (Diarize.end_ prev) gap_threshold)
      (fun prev seg =>
         {| Diarize.start := Diarize.start prev;
            Diarize.end_ := Diarize.end_ seg;
            Diarize.speaker_id := Diarize.speaker_id prev |}).
Proof. reflexivity. Qed.

Lemma mergeable_turns_test (gap_threshold : Q) (prev seg : Diarize.Segment) :
  String.eqb (Diarize.speaker_id seg) (Diarize.speaker_id prev)
  && Py.sub_lt (Diarize.start seg) (Diarize.end_ prev) gap_threshold = true
  <-> mergeable_turns gap_threshold prev seg.
Proof.
  unfold mergeable_turns. rewrite andb_true_iff, String.eqb_eq. tauto.
Qed.

(** X3: [_merge_segments] leaves nothing to merge.  In its result no turn
    has the speaker of the turn before it with a gap below the threshold,
    and merging the result again changes nothing. *)
Theorem _merge_segments_settled (segments : list Diarize.Segment)
    (gap_threshold : Q) :
  adjacent_free (mergeable_turns gap_threshold)
                (_merge_segments segments gap_threshold)
  /\ _merge_segments (_merge_segments segments gap_threshold) gap_threshold
     = _merge_segments segments gap_threshold.
Proof.
  assert (Hfree :
            adjacent_free
              (fun a b =>
                 String.eqb (Diarize.speaker_id b) (Diarize.speaker_id a)
                 && Py.sub_lt (Diarize.start b) (Diarize.end_ a)
                              gap_threshold
                 = true)
              (_merge_segments segments gap_threshold)).
  { unfold _merge_segments. destruct segments as [| first others];
      [ exact I |].
    rewrite _merge_step_absorb. apply absorb_fold_free;
      [ reflexivity | exact I ]. }
  split.
  - eapply adjacent_free_iff; [| exact Hfree ].
    intros a b. apply mergeable_turns_test.
  - destruct (_merge_segments segments gap_threshold) as [| first others];
      [ reflexivity |].
    unfold _merge_segments. rewrite _merge_step_absorb.
    now rewrite absorb_fold_fixed.
Qed.

Lemma fold_left_Forall {A B} (P : A -> Prop) (f : list A -> B -> list A)
    (l : list B) (Q' : B -> Prop) :
  (forall acc r, Forall P acc -> Q' r -> Forall P (f acc r)) ->
  Forall Q' l ->
  forall acc, Forall P acc -> Forall P (fold_left f l acc).
Proof.
  intros Hstep Hl. induction Hl as [| r l Hr _ IH]; intros acc Hacc;
    cbn [fold_left]; [ assumption |].
  apply IH, Hstep; assumption.
Qed.


Section DiarizeTurns.

Variable Model : Type.
Variable pyannote : option Z -> Exn + list Diarize.Segment.


End DiarizeTurns.

Lemma StronglySorted_remove {A} (R : A -> A -> Prop) (l1 l2 : list A) (x : A) :
  StronglySorted R (l1 ++ x :: l2) -> StronglySorted R (l1 ++ l2).
Proof.
  induction l1 as [| a l1 IH]; cbn [app]; intros H.
  - now inversion H.
  - inversion H as [| ? ? Hrest Hall]; subst. constructor; [ now apply IH |].
    rewrite Forall_app in *. destruct Hall as (H1 & H2).
    split; [ assumption | now inversion H2 ].
Qed.

Lemma StronglySorted_map_iff {A B} (R : B -> B -> Prop) (f : A -> B)
    (l : list A) :
  StronglySorted (fun a b => R (f a) (f b)) l <-> StronglySorted R (map f l).
Proof.
  induction l as [| a l IH]; cbn [map]; split; intros H;
    try constructor; inversion H as [| ? ? Hrest Hall]; subst.
  - now apply IH.
  - now rewrite Forall_map.
  - now apply IH.
  - now rewrite Forall_map in Hall.
Qed.

Lemma _merge_fold_sorted gap_threshold (rest acc : list Diarize.Segment) :
  StronglySorted Qle (map Diarize.start (acc ++ rest)) ->
  StronglySorted Qle
    (map Diarize.start (fold_left (_merge_step gap_threshold) rest acc)).
Proof.
  revert acc. induction rest as [| r rest IH]; intros acc Hsorted;
    cbn [fold_left]; [ now rewrite app_nil_r in Hsorted |].
  apply IH. unfold _merge_step.
  destruct (last_item acc) as [prev |] eqn:Hlast;
    [| now rewrite <- app_assoc ].
  destruct (_ && _); [| now rewrite <- app_assoc ].
  destruct (last_item_Some _ _ Hlast) as (acc' & ->).
  rewrite set_last_snoc.
  rewrite <- !app_assoc, !map_app in *. cbn [app map Diarize.start] in *.
  replace (map Diarize.start acc'
           ++ Diarize.start prev :: Diarize.start r :: map Diarize.start rest)
    with ((map Diarize.start acc' ++ [Diarize.start prev])
          ++ Diarize.start r :: map Diarize.start rest) in Hsorted
    by (now rewrite <- app_assoc).
  apply StronglySorted_remove in Hsorted.
  now rewrite <- app_assoc in Hsorted.
Qed.

(** X5: [diarize] keeps the order of the turns.  When the raw turns come
    in non-decreasing order of start, so do the turns left after merging
    and filtering. *)
Theorem diarize_keeps_order (raw : list Diarize.Segment)
    (gap_threshold min_duration : Q) :
  StronglySorted (fun a b => (Diarize.start a <= Diarize.start b)%Q) raw ->
  StronglySorted (fun a b => (Diarize.start a <= Diarize.start b)%Q)
    (_filter_short (_merge_segments raw gap_threshold) min_duration).
Proof.
  intros Hsorted. apply StronglySorted_filter.
  apply StronglySorted_map_iff. apply StronglySorted_map_iff in Hsorted.
  unfold _merge_segments. destruct raw as [| first others];
    [ constructor |].
  now apply _merge_fold_sorted.
Qed.

(** The turns of speaker A and the blip of speaker B. *)
Lemma diarize_keeps_order_witness :
  StronglySorted (fun a b => (Diarize.start a <= Diarize.start b)%Q)
                 [turn_A1; turn_B; turn_A2]
  /\ StronglySorted (fun a b => (Diarize.start a <= Diarize.start b)%Q)
       (_filter_short (_merge_segments [turn_A1; turn_B; turn_A2] 0.8) 0.2).
Proof.
  assert (H : StronglySorted
                (fun a b => (Diarize.start a <= Diarize.start b)%Q)
                [turn_A1; turn_B; turn_A2]).
  { repeat constructor; vm_compute; discriminate. }
  split; [ exact H |]. now apply diarize_keeps_order.
Defined.

(** ** Relations kept by every step of a run *)

Section Stable.

Variable Model : Type.
Variable model_transcribe : Model -> tensor -> (Exn + string) * Model.
Variable pyannote : option Z -> Exn + list Diarize.Segment.
Variable sr : Z.
Variable R : World Model -> World Model -> Prop.

Hypothesis R_refl : forall w, R w w.
Hypothesis R_trans : forall w1 w2 w3, R w1 w2 -> R w2 w3 -> R w1 w3.

Lemma stable_ret {A} (a : A) : stable R (@ret Model A a).
Proof. intros w. apply R_refl. Qed.

Lemma stable_raise {A} (e : Exn) : stable R (@raise Model A e).
Proof. intros w. apply R_refl. Qed.

Lemma stable_lift {A} (r : Exn + A) : stable R (@lift Model A r).
Proof. destruct r; [ apply stable_raise | apply stable_ret ]. Qed.

Lemma stable_py_range0 stop step : stable R (@py_range0 Model stop step).
Proof.
  unfold py_range0. destruct (Py.range0 stop step);
    [ apply stable_ret | apply stable_raise ].
Qed.

Lemma stable_bind {A B} (m : M Model A) (k : A -> M Model B) :
  stable R m -> (forall a, stable R (k a)) -> stable R (bind m k).
Proof.
  intros Hm Hk w. unfold bind. specialize (Hm w).
  destruct (m w) as [[a | e] w1]; cbn [snd] in *; [| assumption ].
  eapply R_trans; [ exact Hm | apply Hk ].
Qed.

Lemma stable_try_except {A} (body : M Model A) (handler : Exn -> M Model A) :
  stable R body -> (forall e, stable R (handler e)) ->
  stable R (try_except body handler).
Proof.
  intros Hm Hk w. unfold try_except. specialize (Hm w).
  destruct (body w) as [[a | e] w1]; cbn [snd] in *; [ assumption |].
  eapply R_trans; [ exact Hm | apply Hk ].
Qed.

Hypothesis H_progress :
  forall p step detail,
    step <> complete -> stable R (@report_progress Model p step detail).
Hypothesis H_chunk :
  forall audio_tensor,
    stable R (transcribe_chunk model_transcribe audio_tensor sr).

Lemma stable_chunk_loop audio_tensor po ps total_chunks :
  forall chunks i texts segments,
    stable R (chunk_loop model_transcribe audio_tensor sr po ps total_chunks
                         i chunks texts segments).
Proof.
  induction chunks as [| [start_sample end_sample] rest IH];
    intros i texts segments; cbn [chunk_loop]; [ apply stable_ret |].
  apply stable_bind; [ apply H_chunk | intros text ].
  destruct (Py.truthy text);
    (apply stable_bind; [ apply H_progress; discriminate | intros _; apply IH ]).
Qed.

Lemma stable_transcribe_audio audio_tensor po ps D O :
  stable R (transcribe_audio model_transcribe audio_tensor sr po ps D O).
Proof.
  unfold transcribe_audio. destruct (_ <=? _).
  - apply stable_bind; [ apply H_progress; discriminate | intros _ ].
    apply stable_bind; [ apply H_chunk | intros text ].
    apply stable_bind; [ apply H_progress; discriminate | intros _; apply stable_ret ].
  - apply stable_bind; [ apply stable_py_range0 | intros starts ].
    apply stable_bind; [ apply stable_chunk_loop | intros r ].
    apply stable_ret.
Qed.

Lemma stable_diarize num_speakers gap_threshold min_duration :
  stable R (@diarize Model pyannote num_speakers gap_threshold min_duration).
Proof.
  unfold diarize. destruct (pyannote num_speakers);
    [ apply stable_raise | apply stable_ret ].
Qed.

Lemma stable_span_loop segment_audio chunk_samples :
  forall starts parts,
    stable R (span_loop model_transcribe segment_audio sr chunk_samples
                        starts parts).
Proof.
  induction starts as [| chunk_start rest IH]; intros parts;
    cbn [span_loop]; [ apply stable_ret |].
  destruct (Py.Qltb _ _); [ apply stable_ret |].
  apply stable_bind; [ apply H_chunk | intros text; apply IH ].
Qed.

Lemma stable_transcribe_with_expansion audio_tensor D O expansion_pad seg :
  stable R (transcribe_with_expansion model_transcribe audio_tensor sr D O
                                      expansion_pad seg).
Proof.
  unfold transcribe_with_expansion. apply stable_bind.
  - unfold transcribe_span. destruct (Py.Qltb _ _); [| apply H_chunk ].
    apply stable_bind; [ apply stable_py_range0 | intros starts ].
    apply stable_bind; [ apply stable_span_loop | intros parts ].
    apply stable_ret.
  - intros text. unfold retry_expanded.
    destruct (_ && _); [ apply H_chunk | apply stable_ret ].
Qed.

Hypothesis H_warning :
  forall message, stable R (@report_warning Model message).

Lemma stable_turn_loop audio_tensor D O expansion_pad total_segments :
  forall diar_segments i results,
    stable R (turn_loop model_transcribe audio_tensor sr D O expansion_pad
                        total_segments i diar_segments results).
Proof.
  induction diar_segments as [| seg rest IH]; intros i results;
    cbn [turn_loop]; [ apply stable_ret |].
  apply stable_bind.
  - unfold turn_body. apply stable_bind;
      [ apply stable_transcribe_with_expansion | intros text ].
    unfold emit_turn. destruct (Py.truthy text); [ apply stable_ret |].
    destruct (Qle_bool _ _); [| apply stable_ret ].
    apply stable_bind; [ apply H_warning | intros _; apply stable_ret ].
  - intros results'.
    apply stable_bind; [ apply H_progress; discriminate | intros _; apply IH ].
Qed.

Lemma stable_tail_fallback audio_tensor D O diar_segments results :
  stable R (tail_fallback model_transcribe audio_tensor sr D O diar_segments
                          results).
Proof.
  unfold tail_fallback. destruct (Py.Qltb _ _); [| apply stable_ret ].
  apply stable_bind; [ apply H_progress; discriminate | intros _ ].
  apply stable_bind; [ apply stable_py_range0 | intros starts ].
  generalize results. induction starts as [| chunk_start rest IH];
    intros results0; cbn [tail_loop]; [ apply stable_ret |].
  destruct (Py.Qltb _ _); [ apply stable_ret |].
  apply stable_bind; [ apply H_chunk | intros text; apply IH ].
Qed.

Lemma stable_transcribe_with_diarization audio_tensor num_speakers D O
    merge_gap min_segment expansion_pad :
  stable R (transcribe_with_diarization model_transcribe pyannote
              audio_tensor sr num_speakers D O merge_gap min_segment
              expansion_pad).
Proof.
  unfold transcribe_with_diarization.
  apply stable_bind; [ apply H_progress; discriminate | intros _ ].
  apply stable_bind; [ apply stable_diarize | intros diar_segments ].
  apply stable_bind; [ apply H_progress; discriminate | intros _ ].
  apply stable_bind; [ apply stable_turn_loop | intros results ].
  apply stable_bind; [ apply stable_tail_fallback | intros results' ].
  apply stable_ret.
Qed.

Lemma stable_run_pipeline args audio :
  stable R (run_pipeline model_transcribe pyannote args audio sr).
Proof.
  unfold run_pipeline. destruct (Args.diarize args).
  - apply stable_try_except.
    + apply stable_bind;
        [ apply stable_transcribe_with_diarization | intros r ].
      apply stable_ret.
    + intros e. apply stable_bind; [ apply H_warning | intros _ ].
      apply stable_bind; [ apply H_progress; discriminate | intros _ ].
      apply stable_bind; [ apply stable_transcribe_audio | intros r ].
      apply stable_ret.
  - apply stable_bind; [ apply H_progress; discriminate | intros _ ].
    apply stable_bind; [ apply stable_transcribe_audio | intros r ].
    apply stable_ret.
Qed.

Lemma stable_heartbeat :
  forall periods p, stable R (@_model_heartbeat Model periods p).
Proof.
  induction periods as [| k IH]; intros p; cbn [_model_heartbeat];
    [ apply stable_ret |].
  apply stable_bind; [ apply H_progress; discriminate | intros _; apply IH ].
Qed.

Hypothesis H_complete :
  forall p detail, stable R (@report_progress Model p complete detail).
Hypothesis H_error : forall message, stable R (@report_error Model message).
Hypothesis H_summary : stable R (@report_warnings_summary Model).
Hypothesis H_rate : sr = SAMPLE_RATE.

Lemma stable_main_body host args :
  stable R (main_body model_transcribe pyannote host args).
Proof.
  unfold main_body. rewrite <- H_rate.
  apply stable_bind; [ apply H_progress; discriminate | intros _ ].
  apply stable_bind; [ apply stable_lift | intros _ ].
  apply stable_bind; [ apply H_progress; discriminate | intros _ ].
  apply stable_bind; [ apply stable_lift | intros audio ].
  apply stable_bind; [ apply H_progress; discriminate | intros _ ].
  apply stable_bind; [ apply stable_heartbeat | intros _ ].
  apply stable_bind.
  { apply stable_try_except; [ apply stable_lift | intros e ].
    apply stable_bind; [| intros _; apply stable_raise ].
    destruct (Host.load_report host); [ apply H_error | apply stable_ret ]. }
  intros _.
  apply stable_bind; [ apply H_progress; discriminate | intros _ ].
  apply stable_bind; [ apply stable_run_pipeline | intros r ].
  apply stable_bind; [ apply H_progress; discriminate | intros _ ].
  apply stable_bind; [ apply stable_lift | intros _ ].
  apply stable_bind; [ apply H_summary | intros _ ].
  apply stable_bind; [ apply H_complete | intros _ ].
  destruct r as [[[d n] t] s]. apply stable_ret.
Qed.

Lemma stable_main host args (w : World Model) :
  R w (snd (main model_transcribe pyannote host args w)).
Proof.
  unfold main.
  destruct (negb (Host.input_exists host)); [ apply H_error |].
  destruct (negb (Host.extension_supported host)); [ apply H_error |].
  pose proof (stable_main_body host args w) as Hbody.
  destruct (main_body model_transcribe pyannote host args w)
    as [[t | e] w']; cbn [snd] in *; [ assumption |].
  eapply R_trans; [ exact Hbody | apply H_error ].
Qed.

End Stable.

(** ** Invocations of the model, warnings and the stream *)

Lemma warnings_of_app (l l' : list Msg) :
  warnings_of (l ++ l') = warnings_of l ++ warnings_of l'.
Proof.
  induction l as [| m l IH]; [ reflexivity |].
  destruct m; cbn; rewrite ?IH; reflexivity.
Qed.

Section Invocations.

Variable Model : Type.
Variable model_transcribe : Model -> tensor -> (Exn + string) * Model.
Variable pyannote : option Z -> Exn + list Diarize.Segment.
Variable sr : Z.

(** The state [transcribe_chunk] ends in. *)
Lemma transcribe_chunk_world audio_tensor (w : World Model) :
  snd (transcribe_chunk model_transcribe audio_tensor sr w)
  = if 10 * len audio_tensor <? sr then
      {| model := model w; stderr := stderr w; _warnings := _warnings w;
         units := units w ++ [(audio_tensor, "")]; invoked := invoked w |}
    else
      let answer := fst (model_transcribe (model w) audio_tensor) in
      let warnings := failure_warning sr (audio_tensor, answer) in
      {| model := snd (model_transcribe (model w) audio_tensor);
         stderr := stderr w ++ map warning_msg warnings;
         _warnings := _warnings w ++ warnings;
         units := units w ++
                    [(audio_tensor,
                      match answer with
                      | inr text => Py.strip text
                      | inl _ => ""
                      end)];
         invoked := invoked w ++ [(audio_tensor, answer)] |}.
Proof.
  unfold transcribe_chunk, bind, try_except, save_and_transcribe, returned,
    report_warning, ret.
  rewrite short_01. destruct (10 * len audio_tensor <? sr); [ reflexivity |].
  destruct (model_transcribe (model w) audio_tensor) as [[e | text] m'];
    cbn; rewrite ?app_nil_r; reflexivity.
Qed.

End Invocations.

Lemma summaries_agree_app (l l' : list Msg) :
  forall seen,
    summaries_agree seen (l ++ l')
    <-> summaries_agree seen l
        /\ summaries_agree (seen ++ warnings_of l) l'.
Proof.
  induction l as [| m l IH]; intros seen.
  - cbn. rewrite app_nil_r. tauto.
  - destruct m; cbn [app summaries_agree warnings_of]; rewrite IH;
      rewrite <- ?app_assoc; cbn [app]; tauto.
Qed.

Section Relations.

Variable Model : Type.
Variable model_transcribe : Model -> tensor -> (Exn + string) * Model.
Variable sr : Z.

Lemma tracks_refl (w : World Model) : tracks sr w w.
Proof. exists []. cbn. now rewrite !app_nil_r. Qed.

Lemma tracks_trans (w1 w2 w3 : World Model) :
  tracks sr w1 w2 -> tracks sr w2 w3 -> tracks sr w1 w3.
Proof.
  intros (c1 & Hi1 & Hw1) (c2 & Hi2 & Hw2). exists (c1 ++ c2).
  rewrite Hi2, Hi1, Hw2, Hw1, flat_map_app, !app_assoc. now split.
Qed.

Lemma tracks_progress p step detail :
  stable (tracks sr) (@report_progress Model p step detail).
Proof. intros w. exists []. cbn. now rewrite !app_nil_r. Qed.

Lemma tracks_chunk audio_tensor :
  stable (tracks sr) (transcribe_chunk model_transcribe audio_tensor sr).
Proof.
  intros w. rewrite transcribe_chunk_world.
  destruct (10 * len audio_tensor <? sr);
    [ exists []; cbn; now rewrite !app_nil_r |].
  eexists. cbn [invoked _warnings]. split; [ reflexivity |].
  cbn [flat_map]. now rewrite app_nil_r.
Qed.

Lemma reaches_refl (w : World Model) : reaches sr w w.
Proof. exists []. cbn. now rewrite !app_nil_r. Qed.

Lemma reaches_trans (w1 w2 w3 : World Model) :
  reaches sr w1 w2 -> reaches sr w2 w3 -> reaches sr w1 w3.
Proof.
  intros (u1 & Hu1 & Hi1) (u2 & Hu2 & Hi2). exists (u1 ++ u2).
  rewrite Hu2, Hu1, Hi2, Hi1, map_app, filter_app, !app_assoc. now split.
Qed.

Lemma reaches_progress p step detail :
  stable (reaches sr) (@report_progress Model p step detail).
Proof. intros w. exists []. cbn. now rewrite !app_nil_r. Qed.

Lemma reaches_warning message :
  stable (reaches sr) (@report_warning Model message).
Proof. intros w. exists []. cbn. now rewrite !app_nil_r. Qed.

Lemma reaches_chunk audio_tensor :
  stable (reaches sr) (transcribe_chunk model_transcribe audio_tensor sr).
Proof.
  intros w. rewrite transcribe_chunk_world.
  destruct (10 * len audio_tensor <? sr) eqn:Hshort.
  - eexists. cbn [units invoked]. split; [ reflexivity |].
    cbn [map filter fst]. rewrite Hshort. cbn. now rewrite app_nil_r.
  - eexists. cbn [units invoked]. split; [ reflexivity |].
    rewrite map_app. cbn [map filter fst]. now rewrite Hshort.
Qed.

Lemma in_step_refl (w : World Model) : in_step w w.
Proof. intros seen H1 H2. now split. Qed.

Lemma in_step_trans (w1 w2 w3 : World Model) :
  in_step w1 w2 -> in_step w2 w3 -> in_step w1 w3.
Proof.
  intros H12 H23 seen H1 H2. destruct (H12 seen H1 H2) as (H3 & H4).
  now apply H23.
Qed.

(** Appending messages that carry the warnings [ws] collected with
    them. *)
Lemma in_step_append (w w' : World Model) (msgs : list Msg) :
  stderr w' = stderr w ++ msgs ->
  _warnings w' = _warnings w ++ warnings_of msgs ->
  (forall seen, summaries_agree seen msgs) ->
  in_step w w'.
Proof.
  intros Hs Hw Hmsgs seen H1 H2. rewrite Hs, Hw, H1, warnings_of_app.
  split; [ now rewrite app_assoc |].
  apply summaries_agree_app. split; [ assumption | apply Hmsgs ].
Qed.

Lemma in_step_progress p step detail :
  stable in_step (@report_progress Model p step detail).
Proof.
  intros w.
  eapply in_step_append;
    [ cbn; reflexivity | cbn; now rewrite app_nil_r | intros seen; exact I ].
Qed.

Lemma in_step_error message :
  stable in_step (@report_error Model message).
Proof.
  intros w.
  eapply in_step_append;
    [ cbn; reflexivity | cbn; now rewrite app_nil_r | intros seen; exact I ].
Qed.

Lemma in_step_warning message :
  stable in_step (@report_warning Model message).
Proof.
  intros w.
  eapply in_step_append;
    [ cbn; reflexivity | cbn; reflexivity | intros seen; exact I ].
Qed.

Lemma in_step_summary : stable in_step (@report_warnings_summary Model).
Proof.
  intros w seen H1 H2. unfold report_warnings_summary.
  destruct (_warnings w) as [| x ws] eqn:Hws;
    [ cbn [snd]; rewrite Hws; now split |].
  cbn [snd stderr _warnings]. rewrite warnings_of_app.
  cbn [warnings_of]. rewrite app_nil_r. split; [ assumption |].
  apply summaries_agree_app. split; [ assumption |].
  cbn [summaries_agree]. rewrite <- H1. split_ands; try reflexivity.
  discriminate.
Qed.

Lemma in_step_chunk audio_tensor :
  stable in_step (transcribe_chunk model_transcribe audio_tensor sr).
Proof.
  intros w. rewrite transcribe_chunk_world.
  destruct (10 * len audio_tensor <? sr); [ intros seen H1 H2; now split |].
  eapply in_step_append; cbn [stderr _warnings]; [ reflexivity | |].
  - f_equal. unfold failure_warning. cbn [snd fst].
    now destruct (fst (model_transcribe (model w) audio_tensor)).
  - intros seen. unfold failure_warning. cbn [snd fst].
    now destruct (fst (model_transcribe (model w) audio_tensor)).
Qed.

End Relations.

Section RunInvariants.

Variable Model : Type.
Variable model_transcribe : Model -> tensor -> (Exn + string) * Model.
Variable pyannote : option Z -> Exn + list Diarize.Segment.

(** X6: in both pipelines the model sees what [transcribe_chunk] is given,
    short slices apart.  The slices on which the model is invoked during
    a run of [transcribe_audio] or of [transcribe_with_diarization] are, in
    order, the slices handed to [transcribe_chunk] that last at least
    0.1 s. *)
Theorem model_sees_the_units audio_tensor sr po ps num_speakers D O
    merge_gap min_segment expansion_pad (w : World Model) :
  reaches sr w
    (snd (transcribe_audio model_transcribe audio_tensor sr po ps D O w))
  /\ reaches sr w
       (snd (transcribe_with_diarization model_transcribe pyannote
               audio_tensor sr num_speakers D O merge_gap min_segment
               expansion_pad w)).
Proof.
  split.
  - apply stable_transcribe_audio.
    + apply reaches_refl.
    + apply reaches_trans.
    + intros p step detail _. apply reaches_progress.
    + apply reaches_chunk.
  - apply stable_transcribe_with_diarization.
    + apply reaches_refl.
    + apply reaches_trans.
    + intros p step detail _. apply reaches_progress.
    + apply reaches_chunk.
    + apply reaches_warning.
Qed.

(** X7: one warning per failed invocation.  During a run of
    [transcribe_audio] the warnings collected are, in order, one
    [chunk_failed] warning for each invocation of the model that raised,
    with the duration of its slice and the exception, and nothing else. *)
Theorem warnings_track_failures audio_tensor sr po ps D O (w : World Model) :
  exists calls,
    invoked (snd (transcribe_audio model_transcribe audio_tensor sr po ps
                                   D O w))
    = invoked w ++ calls
    /\ _warnings (snd (transcribe_audio model_transcribe audio_tensor sr
                                        po ps D O w))
       = _warnings w ++ flat_map (failure_warning sr) calls.
Proof.
  apply (stable_transcribe_audio Model model_transcribe sr (tracks sr)).
  - apply tracks_refl.
  - apply tracks_trans.
  - intros p step detail _. apply tracks_progress.
  - apply tracks_chunk.
Qed.

(** X8: the summary tells the truth about the stream.  At the end of a run
    of [main] from a fresh state the warnings collected are exactly the
    warnings written to the stream, in order; a summary is written only
    when there is at least one warning, and it carries the number of the
    warnings written before it and the first 20 of them. *)
Theorem summary_agrees_with_stream host args (m : Model) :
  let run := main model_transcribe pyannote host args (fresh m) in
  _warnings (snd run) = warnings_of (stderr (snd run))
  /\ summaries_agree [] (stderr (snd run)).
Proof.
  intros run.
  assert (Hstep : in_step (fresh m) (snd run)).
  { apply (stable_main Model model_transcribe pyannote SAMPLE_RATE in_step).
    - apply in_step_refl.
    - apply in_step_trans.
    - intros p step detail _. apply in_step_progress.
    - apply in_step_chunk.
    - apply in_step_warning.
    - intros p detail. apply in_step_progress.
    - apply in_step_error.
    - apply in_step_summary.
    - reflexivity. }
  apply (Hstep []); [ reflexivity | exact I ].
Qed.

End RunInvariants.

(** ** Pre- and postconditions *)

Section Triples.

Variable Model : Type.

Lemma triple_ret {A} (P : World Model -> Prop) (a : A) Q E :
  (forall w, P w -> Q a w) -> triple P (ret a) Q E.
Proof. intros H w Hw. now apply H. Qed.


Lemma triple_bind {A B} (P : World Model -> Prop) (m : M Model A)
    (k : A -> M Model B) (Q1 : A -> World Model -> Prop) Q E :
  triple P m Q1 E -> (forall a, triple (Q1 a) (k a) Q E) ->
  triple P (bind m k) Q E.
Proof.
  intros Hm Hk w Hw. unfold bind. specialize (Hm w Hw).
  destruct (m w) as [[a | e] w1]; [ now apply Hk | assumption ].
Qed.


Lemma triple_conseq {A} (P P' : World Model -> Prop) (m : M Model A)
    (Q Q' : A -> World Model -> Prop) (E E' : Exn -> World Model -> Prop) :
  triple P' m Q' E' ->
  (forall w, P w -> P' w) ->
  (forall a w, Q' a w -> Q a w) ->
  (forall e w, E' e w -> E e w) ->
  triple P m Q E.
Proof.
  intros Hm HP HQ HE w Hw. specialize (Hm w (HP w Hw)).
  destruct (m w) as [[a | e] w1]; auto.
Qed.



End Triples.

(** ** Lines a run never writes *)

Section AddsNo.

Variable Model : Type.
Variable model_transcribe : Model -> tensor -> (Exn + string) * Model.
Variable unwanted : Msg -> bool.



Lemma adds_no_line (line : Msg) (w w' : World Model) :
  unwanted line = false -> stderr w' = stderr w ++ [line] ->
  adds_no unwanted w w'.
Proof.
  intros Hline Hw. exists [line]. split; [ exact Hw |].
  cbn. now rewrite Hline.
Qed.



Lemma adds_no_error message :
  unwanted (error_msg message) = false ->
  stable (adds_no unwanted) (@report_error Model message).
Proof. intros H w. eapply adds_no_line; [ exact H | reflexivity ]. Qed.



End AddsNo.



Section ExitBehaviour.

Variable Model : Type.
Variable model_transcribe : Model -> tensor -> (Exn + string) * Model.
Variable pyannote : option Z -> Exn + list Diarize.Segment.





End ExitBehaviour.

(** ** The order of the progress values *)

Lemma round_mono (x y : Q) : (x <= y)%Q -> Py.round x <= Py.round y.
Proof.
  intros Hxy. unfold Py.round.
  pose proof (Qfloor_resp_le _ _ Hxy) as Hf.
  destruct (Z.eq_dec (Qfloor x) (Qfloor y)) as [Heq | Hne].
  - rewrite <- Heq.
    destruct (Qcompare_spec (x - inject_Z (Qfloor x)) (1 # 2)),
             (Qcompare_spec (y - inject_Z (Qfloor x)) (1 # 2));
      destruct (Z.even (Qfloor x)); try lia; lra.
  - destruct (x - inject_Z (Qfloor x) ?= 1 # 2)%Q,
             (y - inject_Z (Qfloor y) ?= 1 # 2)%Q,
             (Z.even (Qfloor x)), (Z.even (Qfloor y)); lia.
Qed.

Lemma round_n_mono (x y : Q) (n : positive) :
  (x <= y)%Q -> (Py.round_n x n <= Py.round_n y n)%Q.
Proof.
  intros Hxy. unfold Py.round_n.
  assert (H : (x * inject_Z (Z.pos (10 ^ n)) <= y * inject_Z (Z.pos (10 ^ n)))%Q).
  { apply Qmult_le_compat_r; [ exact Hxy |]. unfold Qle. cbn. lia. }
  apply round_mono in H. unfold Qle. cbn [Qnum Qden]. nia.
Qed.








Section ProgressOrder.

Variable Model : Type.
Variable model_transcribe : Model -> tensor -> (Exn + string) * Model.
Variable pyannote : option Z -> Exn + list Diarize.Segment.
Variable lo : Q.











(** *** The plain pipeline *)



(** *** The pipeline over the turns, for a step that is not zero *)

Section Turns.

Variables (sr D O : Z).
Hypothesis H_step : (D - O) * sr <> 0.
Variable E : Exn -> World Model -> Prop.






End Turns.

End ProgressOrder.

(** *** A whole run *)


Section ProgressOfMain.

Variable Model : Type.
Variable model_transcribe : Model -> tensor -> (Exn + string) * Model.
Variable pyannote : option Z -> Exn + list Diarize.Segment.
Variable lo : Q.




End ProgressOfMain.

Section ProgressNeverGoesBack.

Variable Model : Type.
Variable model_transcribe : Model -> tensor -> (Exn + string) * Model.
Variable pyannote : option Z -> Exn + list Diarize.Segment.


End ProgressNeverGoesBack.


(** ** An overlap that is not below the chunk duration *)

Section Overlap.

Variable Model : Type.
Variable model_transcribe : Model -> tensor -> (Exn + string) * Model.

(** X11: an overlap that is not below the chunk duration.  On audio longer
    than one chunk, [transcribe_audio] with [chunk_overlap] equal to
    [chunk_duration] raises the [ValueError] of [range], and with
    [chunk_overlap] above [chunk_duration] it returns an empty text and no
    segment; in both cases the model is never invoked and nothing is
    written. *)
Theorem overlap_not_below_duration audio_tensor sr po ps D O
    (w : World Model) :
  0 < sr -> 0 <= D <= O -> D * sr < len audio_tensor ->
  transcribe_audio model_transcribe audio_tensor sr po ps D O w
  = (if D =? O
     then Raise "ValueError: range() arg 3 must not be zero"
     else Ok ("", []),
     w).
Proof.
  intros Hsr HDO Hlong. unfold transcribe_audio.
  destruct (Z.leb_spec (len audio_tensor) (D * sr)) as [Hle | _]; [ lia |].
  unfold py_range0, Py.range0.
  destruct (Z.eqb_spec D O) as [-> | Hne].
  - rewrite Z.sub_diag. cbn [Z.mul Z.eqb]. reflexivity.
  - destruct (Z.eqb_spec ((D - O) * sr) 0) as [H0 | _]; [ nia |].
    destruct (Z.ltb_spec ((D - O) * sr) 0) as [_ | Hpos]; [| nia ].
    destruct (Z.leb_spec 0 (len audio_tensor)) as [_ | Hneg].
    + reflexivity.
    + exfalso. nia.
Qed.

End Overlap.

Lemma overlap_not_below_duration_witness :
  transcribe_audio talkative (buffer 400000) SAMPLE_RATE 0.15 0.78 20 20
                   (fresh tt)
  = (Raise "ValueError: range() arg 3 must not be zero", fresh tt)
  /\ transcribe_audio talkative (buffer 400000) SAMPLE_RATE 0.15 0.78 20 30
                      (fresh tt)
     = (Ok ("", []), fresh tt).
Proof.
  split.
  - apply (overlap_not_below_duration unit talkative (buffer 400000)
             SAMPLE_RATE 0.15 0.78 20 20 (fresh tt));
      [ reflexivity | split; discriminate | reflexivity ].
  - apply (overlap_not_below_duration unit talkative (buffer 400000)
             SAMPLE_RATE 0.15 0.78 20 30 (fresh tt));
      [ reflexivity | split; discriminate | reflexivity ].
Defined.

(** ** The fallback against the plain run *)

Section Alike.

Variable Model : Type.
Variable model_transcribe : Model -> tensor -> (Exn + string) * Model.

Lemma same_work_refl (w : World Model) : same_work w w.
Proof. unfold same_work. now split_ands. Qed.

Lemma alike_ret {A} (a : A) : alike (@ret Model A a) (ret a).
Proof. intros w1 w2 H. now split. Qed.

Lemma alike_raise {A} (e : Exn) : alike (@raise Model A e) (raise e).
Proof. intros w1 w2 H. now split. Qed.

Lemma alike_lift {A} (r : Exn + A) : alike (@lift Model A r) (lift r).
Proof. destruct r; [ apply alike_raise | apply alike_ret ]. Qed.

Lemma alike_py_range0 stop step :
  alike (@py_range0 Model stop step) (py_range0 stop step).
Proof.
  unfold py_range0. destruct (Py.range0 stop step);
    [ apply alike_ret | apply alike_raise ].
Qed.

Lemma alike_bind {A B} (m1 m2 : M Model A) (k1 k2 : A -> M Model B) :
  alike m1 m2 -> (forall a, alike (k1 a) (k2 a)) ->
  alike (bind m1 k1) (bind m2 k2).
Proof.
  intros Hm Hk w1 w2 H. unfold bind. destruct (Hm w1 w2 H) as (Hres & Hw).
  destruct (m1 w1) as [[a1 | e1] w1'], (m2 w2) as [[a2 | e2] w2'];
    cbn [fst snd] in *; try discriminate.
  - injection Hres as ->. now apply Hk.
  - injection Hres as ->. now split.
Qed.

Lemma alike_try_except {A} (b1 b2 : M Model A) (h1 h2 : Exn -> M Model A) :
  alike b1 b2 -> (forall e, alike (h1 e) (h2 e)) ->
  alike (try_except b1 h1) (try_except b2 h2).
Proof.
  intros Hm Hk w1 w2 H. unfold try_except.
  destruct (Hm w1 w2 H) as (Hres & Hw).
  destruct (b1 w1) as [[a1 | e1] w1'], (b2 w2) as [[a2 | e2] w2'];
    cbn [fst snd] in *; try discriminate.
  - now split.
  - injection Hres as ->. now apply Hk.
Qed.

(** A step that only writes to the stream or to the warnings can be added
    on either side. *)
Lemma alike_after_l {A} (m : M Model unit) (m1 m2 : M Model A) :
  (forall w, fst (m w) = Ok tt /\ same_work w (snd (m w))) ->
  alike m1 m2 -> alike (bind m (fun _ => m1)) m2.
Proof.
  intros Hm H12 w1 w2 H. unfold bind. destruct (Hm w1) as (Hres & Hw).
  destruct (m w1) as [[[] | e] w1']; cbn [fst snd] in *; try discriminate.
  apply H12. destruct H as (H1 & H2 & H3), Hw as (H4 & H5 & H6).
  unfold same_work. split_ands; congruence.
Qed.

Lemma alike_after_r {A} (m : M Model unit) (m1 m2 : M Model A) :
  (forall w, fst (m w) = Ok tt /\ same_work w (snd (m w))) ->
  alike m1 m2 -> alike m1 (bind m (fun _ => m2)).
Proof.
  intros Hm H12 w1 w2 H. unfold bind. destruct (Hm w2) as (Hres & Hw).
  destruct (m w2) as [[[] | e] w2']; cbn [fst snd] in *; try discriminate.
  apply H12. destruct H as (H1 & H2 & H3), Hw as (H4 & H5 & H6).
  unfold same_work. split_ands; congruence.
Qed.

Lemma writes_progress p step detail (w : World Model) :
  fst (report_progress p step detail w) = Ok tt
  /\ same_work w (snd (report_progress p step detail w)).
Proof. split; [ reflexivity | unfold same_work; now split_ands ]. Qed.

Lemma writes_warning message (w : World Model) :
  fst (report_warning message w) = Ok tt
  /\ same_work w (snd (report_warning message w)).
Proof. split; [ reflexivity | unfold same_work; now split_ands ]. Qed.

Lemma writes_summary (w : World Model) :
  fst (report_warnings_summary w) = Ok tt
  /\ same_work w (snd (report_warnings_summary w)).
Proof.
  unfold report_warnings_summary. destruct (_warnings w);
    (split; [ reflexivity | unfold same_work; now split_ands ]).
Qed.

Lemma alike_writes (m : M Model unit) :
  (forall w, fst (m w) = Ok tt /\ same_work w (snd (m w))) -> alike m m.
Proof.
  intros Hm w1 w2 H. destruct (Hm w1) as (Hr1 & Hw1), (Hm w2) as (Hr2 & Hw2).
  split; [ congruence |].
  destruct H as (H1 & H2 & H3), Hw1 as (? & ? & ?), Hw2 as (? & ? & ?).
  unfold same_work. split_ands; congruence.
Qed.

Lemma alike_transcribe_chunk audio_tensor sr :
  alike (transcribe_chunk model_transcribe audio_tensor sr)
        (transcribe_chunk model_transcribe audio_tensor sr).
Proof.
  intros w1 w2 (Hm & Hu & Hi).
  destruct (transcribe_chunk_ok Model model_transcribe audio_tensor sr w1)
    as (t1 & w1' & Hrun1 & Hunits1 & _).
  destruct (transcribe_chunk_ok Model model_transcribe audio_tensor sr w2)
    as (t2 & w2' & Hrun2 & Hunits2 & _).
  pose proof (transcribe_chunk_world Model model_transcribe sr audio_tensor w1)
    as Hw1.
  pose proof (transcribe_chunk_world Model model_transcribe sr audio_tensor w2)
    as Hw2.
  rewrite Hrun1 in Hw1 |- *. rewrite Hrun2 in Hw2 |- *. cbn [fst snd] in *.
  assert (Hsame : same_work w1' w2').
  { rewrite Hw1, Hw2, Hm, Hu, Hi.
    unfold same_work.
    destruct (10 * len audio_tensor <? sr); now split_ands. }
  split; [| exact Hsame ].
  destruct Hsame as (_ & Hunits & _).
  rewrite Hunits1, Hunits2, Hu in Hunits.
  apply app_inv_head in Hunits. congruence.
Qed.

Lemma alike_chunk_loop audio_tensor sr po ps total_chunks :
  forall chunks i texts segments,
    alike (chunk_loop model_transcribe audio_tensor sr po ps total_chunks i
                      chunks texts segments)
          (chunk_loop model_transcribe audio_tensor sr po ps total_chunks i
                      chunks texts segments).
Proof.
  induction chunks as [| [start_sample end_sample] rest IH];
    intros i texts segments; cbn [chunk_loop]; [ apply alike_ret |].
  apply alike_bind; [ apply alike_transcribe_chunk | intros text ].
  destruct (Py.truthy text);
    (apply alike_bind;
     [ apply alike_writes, writes_progress | intros _; apply IH ]).
Qed.

Lemma alike_transcribe_audio audio_tensor sr po ps D O :
  alike (transcribe_audio model_transcribe audio_tensor sr po ps D O)
        (transcribe_audio model_transcribe audio_tensor sr po ps D O).
Proof.
  unfold transcribe_audio. destruct (_ <=? _).
  - apply alike_bind; [ apply alike_writes, writes_progress | intros _ ].
    apply alike_bind; [ apply alike_transcribe_chunk | intros text ].
    apply alike_bind; [ apply alike_writes, writes_progress | intros _ ].
    apply alike_ret.
  - apply alike_bind; [ apply alike_py_range0 | intros starts ].
    apply alike_bind; [ apply alike_chunk_loop | intros r ].
    apply alike_ret.
Qed.

End Alike.

Section FallbackResult.

Variable Model : Type.
Variable model_transcribe : Model -> tensor -> (Exn + string) * Model.
Variable pyannote : option Z -> Exn + list Diarize.Segment.

Lemma alike_run_pipeline args audio sr e :
  Args.diarize args = true ->
  pyannote (if 0 <? Args.speakers args then Some (Args.speakers args)
            else None) = inl e ->
  alike (run_pipeline model_transcribe pyannote args audio sr)
        (run_pipeline model_transcribe pyannote (without_diarize args) audio
                      sr).
Proof.
  intros Hd Hpy. unfold run_pipeline. rewrite Hd.
  cbn [without_diarize Args.diarize Args.chunk_duration Args.chunk_overlap].
  set (fallback :=
         bind (report_warning (diarization_unavailable e))
           (fun _ =>
              bind (report_progress 0.15 transcribing
                                    fallback_without_diarization)
                (fun _ =>
                   bind (transcribe_audio model_transcribe audio sr 0.15 0.78
                           (Args.chunk_duration args)
                           (Args.chunk_overlap args))
                        (fun r => ret (false, 0%nat, fst r,
                                       map plain (snd r)))))).
  assert (Hfallback :
            alike fallback
              (bind (report_progress 0.15 transcribing starting_transcription)
                 (fun _ =>
                    bind (transcribe_audio model_transcribe audio sr 0.15 0.78
                            (Args.chunk_duration args)
                            (Args.chunk_overlap args))
                         (fun r => ret (false, 0%nat, fst r,
                                        map plain (snd r)))))).
  { apply alike_after_l; [ apply writes_warning |].
    apply alike_after_l; [ apply writes_progress |].
    apply alike_after_r; [ apply writes_progress |].
    apply alike_bind; [ apply alike_transcribe_audio | intros r ].
    apply alike_ret. }
  intros w1 w2 H.
  unfold try_except, transcribe_with_diarization, diarize.
  rewrite Hpy. unfold bind at 2. cbn [report_progress].
  unfold bind at 2. cbn [raise]. unfold bind at 1.
  apply Hfallback. destruct H as (H1 & H2 & H3).
  unfold same_work. now split_ands.
Qed.

Lemma alike_heartbeat :
  forall periods p,
    alike (@_model_heartbeat Model periods p) (_model_heartbeat periods p).
Proof.
  induction periods as [| k IH]; intros p; cbn [_model_heartbeat];
    [ apply alike_ret |].
  apply alike_bind; [ apply alike_writes, writes_progress | intros _ ].
  apply IH.
Qed.

Lemma writes_error message (w : World Model) :
  fst (report_error message w) = Ok tt
  /\ same_work w (snd (report_error message w)).
Proof. split; [ reflexivity | unfold same_work; now split_ands ]. Qed.

Lemma alike_main_body host args e :
  Args.diarize args = true ->
  pyannote (if 0 <? Args.speakers args then Some (Args.speakers args)
            else None) = inl e ->
  alike (main_body model_transcribe pyannote host args)
        (main_body model_transcribe pyannote host (without_diarize args)).
Proof.
  intros Hd Hpy. unfold main_body.
  apply alike_bind; [ apply alike_writes, writes_progress | intros _ ].
  apply alike_bind; [ apply alike_lift | intros _ ].
  apply alike_bind; [ apply alike_writes, writes_progress | intros _ ].
  apply alike_bind; [ apply alike_lift | intros audio ].
  apply alike_bind; [ apply alike_writes, writes_progress | intros _ ].
  apply alike_bind; [ apply alike_heartbeat | intros _ ].
  apply alike_bind.
  { apply alike_try_except; [ apply alike_lift | intros e0 ].
    apply alike_bind; [| intros _; apply alike_raise ].
    destruct (Host.load_report host);
      [ apply alike_writes, writes_error | apply alike_ret ]. }
  intros _.
  apply alike_bind; [ apply alike_writes, writes_progress | intros _ ].
  apply alike_bind; [ now apply (alike_run_pipeline args audio _ e) |].
  intros r.
  apply alike_bind; [ apply alike_writes, writes_progress | intros _ ].
  apply alike_bind; [ apply alike_lift | intros _ ].
  apply alike_bind; [ apply alike_writes, writes_summary | intros _ ].
  apply alike_bind; [ apply alike_writes, writes_progress | intros _ ].
  destruct r as [[[d n] t] s]. apply alike_ret.
Qed.

(** X12: the fallback gives what the plain run gives.  When the pyannote
    pipeline raises, a run of [main] with [--diarize] ends with the same
    exit code and the same transcription (text, segments, no diarization,
    no speakers) as the run without [--diarize], and the model is invoked
    on the same slices with the same answers. *)
Theorem fallback_gives_the_plain_result host args e (m : Model) :
  Args.diarize args = true ->
  pyannote (if 0 <? Args.speakers args then Some (Args.speakers args)
            else None) = inl e ->
  let fallen := main model_transcribe pyannote host args (fresh m) in
  let plain_run :=
    main model_transcribe pyannote host (without_diarize args) (fresh m) in
  fst fallen = fst plain_run /\ same_work (snd fallen) (snd plain_run).
Proof.
  intros Hd Hpy fallen plain_run. subst fallen plain_run. unfold main.
  destruct (negb (Host.input_exists host));
    [ split; [ reflexivity | unfold same_work; now split_ands ] |].
  destruct (negb (Host.extension_supported host));
    [ split; [ reflexivity | unfold same_work; now split_ands ] |].
  destruct (alike_main_body host args e Hd Hpy (fresh m) (fresh m)
              (same_work_refl Model (fresh m))) as (Hres & Hsame).
  destruct (main_body model_transcribe pyannote host args (fresh m))
    as [[t1 | e1] w1],
    (main_body model_transcribe pyannote host (without_diarize args)
               (fresh m)) as [[t2 | e2] w2];
    cbn [fst snd] in *; try discriminate.
  - injection Hres as ->. now split.
  - injection Hres as ->. split; [ reflexivity |].
    destruct Hsame as (H1 & H2 & H3). unfold same_work. now split_ands.
Qed.

End FallbackResult.

Lemma fallback_gives_the_plain_result_witness :
  let args := default_args true in
  let fallen := main talkative unavailable (host_ok 400000 2) args (fresh tt) in
  let plain_run :=
    main talkative unavailable (host_ok 400000 2) (without_diarize args)
         (fresh tt) in
  fst fallen = fst plain_run /\ same_work (snd fallen) (snd plain_run).
Proof.
  apply (fallback_gives_the_plain_result unit talkative unavailable
           (host_ok 400000 2) (default_args true)
           "RuntimeError: pipeline not loaded" tt);
    reflexivity.
Defined.


(** ** The segments of the diarized result *)

Lemma _merge_segments_speakers gap_threshold (raw : list Diarize.Segment) :
  Forall (fun t => In (Diarize.speaker_id t) (map Diarize.speaker_id raw))
         (_merge_segments raw gap_threshold).
Proof.
  unfold _merge_segments. destruct raw as [| first others] eqn:Hraw;
    [ constructor |].
  rewrite <- Hraw.
  apply fold_left_Forall with (Q' := fun r => In r raw).
  - intros acc r Hacc Hr.
    assert (Hself : In (Diarize.speaker_id r) (map Diarize.speaker_id raw))
      by (now apply in_map).
    unfold _merge_step.
    destruct (last_item acc) as [prev |] eqn:Hlast;
      [| apply Forall_app; split; [ assumption | now constructor ] ].
    destruct (last_item_Some _ _ Hlast) as (acc' & ->).
    destruct (_ && _);
      [| apply Forall_app; split; [ assumption | now constructor ] ].
    rewrite set_last_snoc. apply Forall_app in Hacc as (Hacc' & Hprev).
    apply Forall_app. split; [ assumption |].
    inversion Hprev; subst. now constructor.
  - apply Forall_forall. intros r Hr. rewrite Hraw. now right.
  - constructor; [| constructor ]. apply in_map. rewrite Hraw. now left.
Qed.

Lemma join_empty (texts : list string) :
  Forall (fun t => t <> "") texts -> (Py.join texts = "" <-> texts = []).
Proof.
  intros Hall. split; [| now intros -> ].
  destruct Hall as [| t texts Ht _]; [ reflexivity |].
  destruct texts as [| t' texts].
  - cbn. intros ->. now elim Ht.
  - rewrite join_cons by discriminate.
    destruct t; [ now elim Ht | discriminate ].
Qed.

Section DiarizedSegments.

Variable Model : Type.
Variable model_transcribe : Model -> tensor -> (Exn + string) * Model.
Variable pyannote : option Z -> Exn + list Diarize.Segment.
Variables (sr D O : Z).
Hypothesis H_step : (D - O) * sr <> 0.
Variable E : Exn -> World Model -> Prop.

Lemma triple_pure {A} (fact : Prop) (m : M Model A) Q :
  (fact -> triple anywhere m Q E) -> triple (fun _ => fact) m Q E.
Proof. intros H w Hfact. exact (H Hfact w I). Qed.

Lemma chunk_returns audio_tensor :
  triple anywhere (transcribe_chunk model_transcribe audio_tensor sr)
         (fun _ _ => True) E.
Proof.
  intros w _.
  destruct (transcribe_chunk_ok Model model_transcribe audio_tensor sr w)
    as (text & w' & Hrun & _).
  now rewrite Hrun.
Qed.

Lemma range_returns stop :
  triple anywhere (@py_range0 Model stop ((D - O) * sr)) (fun _ _ => True) E.
Proof.
  intros w _. unfold py_range0, Py.range0.
  destruct (Z.eqb_spec ((D - O) * sr) 0) as [H0 | _]; [ now elim H_step |].
  now destruct (_ <? 0).
Qed.

Lemma turn_text_returns audio_tensor expansion_pad seg :
  triple anywhere
         (transcribe_with_expansion model_transcribe audio_tensor sr D O
                                    expansion_pad seg)
         (fun _ _ => True) E.
Proof.
  unfold transcribe_with_expansion.
  apply triple_bind with (Q1 := fun _ _ => True).
  - unfold transcribe_span. destruct (Py.Qltb _ _); [| apply chunk_returns ].
    apply triple_bind with (Q1 := fun _ _ => True);
      [ apply range_returns | intros starts ].
    apply triple_bind with (Q1 := fun _ _ => True);
      [| intros parts; now apply triple_ret ].
    generalize (@nil string).
    induction starts as [| chunk_start rest IH]; intros parts;
      cbn [span_loop]; [ now apply triple_ret |].
    destruct (Py.Qltb _ _); [ now apply triple_ret |].
    apply triple_bind with (Q1 := fun _ _ => True);
      [ apply chunk_returns | intros text; apply IH ].
  - intros text. unfold retry_expanded.
    destruct (_ && _); [ apply chunk_returns | now apply triple_ret ].
Qed.

(** The three ways a segment enters the result. *)
Variable good : Dict -> Prop.
Variable turns : list Diarize.Segment.

Hypothesis H_turn :
  forall seg words,
    In seg turns -> words <> "" ->
    good {| start := Py.round_n (Diarize.start seg) 2;
            end_ := Py.round_n (Diarize.end_ seg) 2;
            speaker := Diarize.speaker_id seg;
            text := words |}.
Hypothesis H_tail :
  forall a b words,
    words <> "" ->
    good {| start := Py.round_n a 2; end_ := Py.round_n b 2;
            speaker := ""; text := words |}.
Hypothesis H_merge :
  forall prev r,
    good prev -> good r ->
    good {| start := start prev; end_ := end_ r; speaker := speaker prev;
            text := (text prev ++ " " ++ text r)%string |}.

Lemma good_turn_loop audio_tensor expansion_pad n :
  forall diar_segments i results,
    incl diar_segments turns -> Forall good results ->
    triple anywhere
           (turn_loop model_transcribe audio_tensor sr D O expansion_pad n i
                      diar_segments results)
           (fun r _ => Forall good r) E.
Proof.
  induction diar_segments as [| seg rest IH]; intros i results Hincl Hgood;
    cbn [turn_loop]; [ now apply triple_ret |].
  assert (Hseg : In seg turns) by (apply Hincl; now left).
  assert (Hrest : incl rest turns)
    by (intros s Hs; apply Hincl; now right).
  apply triple_bind with (Q1 := fun r _ => Forall good r).
  - unfold turn_body.
    apply triple_bind with (Q1 := fun _ _ => True);
      [ apply turn_text_returns | intros words ].
    unfold emit_turn. destruct (Py.truthy words) eqn:Hwords.
    + apply triple_ret. intros w _. apply Forall_app. split; [ exact Hgood |].
      constructor; [| constructor ].
      apply H_turn; [ exact Hseg | now apply truthy_true ].
    + destruct (Qle_bool _ _); [| now apply triple_ret ].
      apply triple_bind with (Q1 := fun _ _ => True);
        [ now intros w _ | intros _ ].
      apply triple_ret. intros w _. apply Forall_app. split; [ exact Hgood |].
      constructor; [| constructor ]. now apply H_turn.
  - intros results'. apply triple_pure. intros Hres.
    apply triple_bind with (Q1 := fun _ _ => True);
      [ now intros w _ | intros _ ].
    now apply IH.
Qed.

Lemma good_tail_fallback audio_tensor diar_segments results :
  Forall good results ->
  triple anywhere
         (tail_fallback model_transcribe audio_tensor sr D O diar_segments
                        results)
         (fun r _ => Forall good r) E.
Proof.
  intros Hgood. unfold tail_fallback.
  destruct (Py.Qltb _ _); [| now apply triple_ret ].
  apply triple_bind with (Q1 := fun _ _ => True);
    [ now intros w _ | intros _ ].
  apply triple_bind with (Q1 := fun _ _ => True);
    [ apply range_returns | intros starts ].
  revert results Hgood. induction starts as [| chunk_start rest IH];
    intros results Hgood; cbn [tail_loop]; [ now apply triple_ret |].
  destruct (Py.Qltb _ _); [ now apply triple_ret |].
  apply triple_bind with (Q1 := fun _ _ => True);
    [ apply chunk_returns | intros words ].
  apply IH. destruct (Py.truthy words) eqn:Hwords; [| exact Hgood ].
  apply Forall_app. split; [ exact Hgood |]. constructor; [| constructor ].
  apply H_tail. now apply truthy_true.
Qed.

Lemma good_merge_results merge_gap (results : list Dict) :
  Forall good results -> Forall good (merge_results merge_gap results).
Proof.
  intros Hgood. unfold merge_results.
  apply fold_left_Forall with (Q' := good); [| exact Hgood | constructor ].
  intros acc r Hacc Hr. unfold merge_step.
  destruct (last_item acc) as [prev |] eqn:Hlast;
    [| apply Forall_app; split; [ assumption | now constructor ] ].
  destruct (last_item_Some _ _ Hlast) as (acc' & ->).
  destruct (_ && _);
    [| apply Forall_app; split; [ assumption | now constructor ] ].
  rewrite set_last_snoc. apply Forall_app in Hacc as (Hacc' & Hprev).
  apply Forall_app. split; [ assumption |].
  inversion Hprev; subst. constructor; [| constructor ]. now apply H_merge.
Qed.

End DiarizedSegments.

Section DiarizedResultShape.

Variable Model : Type.
Variable model_transcribe : Model -> tensor -> (Exn + string) * Model.
Variable pyannote : option Z -> Exn + list Diarize.Segment.

(** X13: the segments of the diarized result.  When the pyannote pipeline
    answers and the chunk step is not zero, [transcribe_with_diarization]
    returns; every segment returned has a non-empty text, a start and an
    end rounded to two decimals, and a speaker that is a speaker of the
    raw turns or none; and the full text is empty exactly when there is no
    segment. *)
Theorem diarized_result_wellformed audio_tensor sr num_speakers D O
    merge_gap min_segment expansion_pad raw (w : World Model) :
  (D - O) * sr <> 0 -> pyannote num_speakers = inr raw ->
  exists full_text segments w',
    transcribe_with_diarization model_transcribe pyannote audio_tensor sr
      num_speakers D O merge_gap min_segment expansion_pad w
    = (Ok (full_text, segments), w')
    /\ Forall (wellformed_segment (map Diarize.speaker_id raw)) segments
    /\ (full_text = "" <-> segments = []).
Proof.
  intros Hstep Hpy.
  set (good := wellformed_segment (map Diarize.speaker_id raw)).
  set (turns := _filter_short (_merge_segments raw merge_gap) min_segment).
  assert (Hturn : forall seg words,
             In seg turns -> words <> "" ->
             good {| start := Py.round_n (Diarize.start seg) 2;
                     end_ := Py.round_n (Diarize.end_ seg) 2;
                     speaker := Diarize.speaker_id seg;
                     text := words |}).
  { intros seg words Hseg Hwords. unfold good, wellformed_segment.
    cbn [text start end_ speaker]. split_ands;
      [ exact Hwords | now eexists | now eexists |].
    right. apply filter_In in Hseg as (Hseg & _).
    pose proof (_merge_segments_speakers merge_gap raw) as Hall.
    rewrite Forall_forall in Hall. now apply Hall. }
  assert (Htail : forall a b words,
             words <> "" ->
             good {| start := Py.round_n a 2; end_ := Py.round_n b 2;
                     speaker := ""; text := words |}).
  { intros a b words Hwords. unfold good, wellformed_segment.
    cbn [text start end_ speaker]. split_ands;
      [ exact Hwords | now eexists | now eexists | now left ]. }
  assert (Hmerge : forall prev r,
             good prev -> good r ->
             good {| start := start prev; end_ := end_ r;
                     speaker := speaker prev;
                     text := (text prev ++ " " ++ text r)%string |}).
  { intros prev r (Ht & Hs & _ & Hspk) (_ & _ & He & _).
    unfold good, wellformed_segment. cbn [text start end_ speaker].
    split_ands; try assumption.
    destruct (text prev); [ now elim Ht | discriminate ]. }
  assert (Hrun :
            triple anywhere
              (transcribe_with_diarization model_transcribe pyannote
                 audio_tensor sr num_speakers D O merge_gap min_segment
                 expansion_pad)
              (fun r _ => Forall good (snd r)
                          /\ fst r = Py.join (map text (snd r)))
              (fun _ _ => False)).
  { unfold transcribe_with_diarization.
    apply triple_bind with (Q1 := fun _ _ => True);
      [ now intros w0 _ | intros _ ].
    apply triple_bind with (Q1 := fun segs _ => segs = turns).
    { unfold diarize. rewrite Hpy. now apply triple_ret. }
    intros diar_segments. apply triple_pure. intros ->.
    apply triple_bind with (Q1 := fun _ _ => True);
      [ now intros w0 _ | intros _ ].
    apply triple_bind with (Q1 := fun r _ => Forall good r).
    { apply (good_turn_loop Model model_transcribe sr D O Hstep _ good turns
               Hturn);
        [ apply incl_refl | constructor ]. }
    intros results. apply triple_pure. intros Hresults.
    apply triple_bind with (Q1 := fun r _ => Forall good r).
    { now apply (good_tail_fallback Model model_transcribe sr D O Hstep _
                   good Htail). }
    intros results'. apply triple_pure. intros Hresults'.
    apply triple_ret. intros w0 _. cbn [fst snd]. split; [| reflexivity ].
    now apply good_merge_results. }
  specialize (Hrun w I).
  destruct (transcribe_with_diarization model_transcribe pyannote audio_tensor
              sr num_speakers D O merge_gap min_segment expansion_pad w)
    as [[[full_text segments] | e] w']; [| contradiction ].
  cbn [fst snd] in Hrun. destruct Hrun as (Hgood & ->).
  exists (Py.join (map text segments)), segments, w'.
  split_ands; [ reflexivity | exact Hgood | split ].
  - intros Hempty. apply join_empty in Hempty.
    + now apply map_eq_nil in Hempty.
    + apply Forall_map. eapply Forall_impl; [| exact Hgood ].
      now intros d (Ht & _).
  - now intros ->.
Qed.

End DiarizedResultShape.

Lemma diarized_result_wellformed_witness :
  exists full_text segments w',
    transcribe_with_diarization talkative (finds [turn_A1; turn_B; turn_A2])
      (buffer 160000) SAMPLE_RATE None 20 4 0.8 0.2 3 (fresh tt)
    = (Ok (full_text, segments), w')
    /\ Forall (wellformed_segment
                 (map Diarize.speaker_id [turn_A1; turn_B; turn_A2]))
              segments
    /\ (full_text = "" <-> segments = []).
Proof.
  apply (diarized_result_wellformed unit talkative
           (finds [turn_A1; turn_B; turn_A2]) (buffer 160000) SAMPLE_RATE
           None 20 4 0.8 0.2 3 [turn_A1; turn_B; turn_A2] (fresh tt));
    [ discriminate | reflexivity ].
Defined.

(** ** Timestamps of any time below 100 hours *)

Lemma floor_unique (z : Z) (q : Q) :
  (inject_Z z <= q < inject_Z (z + 1))%Q -> Qfloor q = z.
Proof.
  intros (Hlo & Hhi).
  pose proof (Qfloor_resp_le _ _ Hlo) as H1. rewrite Qfloor_Z in H1.
  pose proof (Qfloor_le q) as H2.
  assert (H3 : (inject_Z (Qfloor q) < inject_Z (z + 1))%Q)
    by (eapply Qle_lt_trans; eassumption).
  rewrite <- Zlt_Qlt in H3. lia.
Qed.

Lemma floor_bounds (q : Q) :
  (inject_Z (Qfloor q) <= q < inject_Z (Qfloor q) + 1)%Q.
Proof.
  split; [ apply Qfloor_le |].
  pose proof (Qlt_floor q) as H. rewrite inject_Z_plus in H. exact H.
Qed.

(** [floor (x / c) = floor x / c] and [floor (x - k) = floor x - k]. *)
Lemma floor_div_const (x : Q) (c : positive) :
  Qfloor (x / inject_Z (Zpos c)) = Qfloor x / Zpos c.
Proof.
  destruct x as [n d]. unfold Qdiv, Qinv, inject_Z, Qmult, Qfloor.
  cbn [Qnum Qden]. rewrite Z.mul_1_r, Pos2Z.inj_mul, Z.div_div by lia.
  reflexivity.
Qed.

Lemma floor_minus_Z (x : Q) (k : Z) :
  Qfloor (x - inject_Z k) = Qfloor x - k.
Proof.
  apply floor_unique. pose proof (floor_bounds x) as (Hlo & Hhi).
  unfold Z.sub. rewrite !inject_Z_plus, inject_Z_opp.
  change (inject_Z 1) with 1%Q. lra.
Qed.

Lemma mod_as_minus (x : Q) (c : positive) :
  (Py.mod_ x (inject_Z (Zpos c))
   == x - inject_Z (Zpos c * (Qfloor x / Zpos c)))%Q.
Proof.
  unfold Py.mod_, Py.floordiv. rewrite floor_div_const, inject_Z_mult.
  reflexivity.
Qed.

(** The fields of a timestamp, in terms of the whole seconds. *)
Lemma ts_fields_of (x : Q) :
  (0 <= x)%Q ->
  let whole := Qfloor x in
  Py.int (Py.floordiv x 3600) = whole / 3600
  /\ Py.int (Py.floordiv (Py.mod_ x 3600) 60) = whole mod 3600 / 60
  /\ Py.int (Py.mod_ x 60) = whole mod 60
  /\ Py.int x = whole.
Proof.
  intros Hx whole.
  assert (Hwhole : 0 <= whole).
  { pose proof (Qfloor_resp_le _ _ Hx) as H. exact H. }
  pose proof (floor_bounds x) as (Hlo & Hhi). fold whole in Hlo, Hhi.
  split_ands.
  - unfold Py.floordiv. rewrite int_inject.
    change 3600%Q with (inject_Z 3600). apply floor_div_const.
  - unfold Py.floordiv at 1. rewrite int_inject.
    change 3600%Q with (inject_Z 3600). change 60%Q with (inject_Z 60).
    rewrite floor_div_const.
    rewrite (Qfloor_comp _ _ (mod_as_minus x 3600)), floor_minus_Z.
    fold whole. rewrite (Z.mod_eq whole 3600) by lia. reflexivity.
  - change 60%Q with (inject_Z 60).
    pose proof (mod_as_minus x 60) as Hmod. fold whole in Hmod.
    assert (Hle : (inject_Z (60 * (whole / 60)) <= inject_Z whole)%Q).
    { rewrite <- Zle_Qle. pose proof (Z.mul_div_le whole 60). lia. }
    assert (Hpos : (0 <= Py.mod_ x (inject_Z 60))%Q) by (rewrite Hmod; lra).
    rewrite (int_nonneg _ Hpos), (Qfloor_comp _ _ Hmod), floor_minus_Z.
    fold whole. rewrite (Z.mod_eq whole 60) by lia. reflexivity.
  - now apply int_nonneg.
Qed.

(** The millisecond field of a time. *)
Lemma ms_field (x : Q) :
  let fraction := (x - inject_Z (Qfloor x))%Q in
  let ms := Py.round (fraction * 1000) in
  0 <= ms <= 1000
  /\ (inject_Z ms - (1 # 2) <= fraction * 1000 <= inject_Z ms + (1 # 2))%Q
  /\ ((fraction < 0.9995)%Q -> ms < 1000)
  /\ ((0.9995 <= fraction)%Q -> ms = 1000).
Proof.
  intros fraction ms.
  pose proof (floor_bounds x) as (Hlo & Hhi).
  pose proof (round_bounds (fraction * 1000)) as (Hrlo & Hrhi).
  fold ms in Hrlo, Hrhi.
  assert (Hfrac : (0 <= fraction < 1)%Q) by (unfold fraction; lra).
  assert (Hms0 : 0 <= ms).
  { assert (H : (inject_Z (-1) < inject_Z ms)%Q)
      by (change (inject_Z (-1)) with (-1 # 1)%Q; lra).
    rewrite <- Zlt_Qlt in H. lia. }
  assert (Hms1 : ms <= 1000).
  { assert (H : (inject_Z ms < inject_Z 1001)%Q)
      by (change (inject_Z 1001) with 1001%Q; lra).
    rewrite <- Zlt_Qlt in H. lia. }
  split_ands; try lia; try lra.
  - intros Hsmall.
    assert (H : (inject_Z ms < inject_Z 1000)%Q)
      by (change (inject_Z 1000) with 1000%Q; lra).
    rewrite <- Zlt_Qlt in H. exact H.
  - intros Hlarge. destruct (Qle_lt_or_eq _ _ Hlarge) as [Hlt | Heq].
    + assert (H : (inject_Z 999 < inject_Z ms)%Q)
        by (change (inject_Z 999) with 999%Q; lra).
      rewrite <- Zlt_Qlt in H. lia.
    + unfold ms. rewrite (round_comp _ (1999 # 2)); [ reflexivity |].
      rewrite <- Heq. reflexivity.
Qed.

(** The shape of both timestamps below 100 hours: two digits for each of
    the hours, minutes and seconds, which add up to the whole seconds,
    then the millisecond field. *)
Lemma timestamp_shape (x : Q) :
  (0 <= x < 360000)%Q ->
  exists h1 h2 m1 m2 s1 s2 h m s,
    (forall sep,
       (format_d 2 (Py.int (Py.floordiv x 3600)) ++ ":"
        ++ format_d 2 (Py.int (Py.floordiv (Py.mod_ x 3600) 60)) ++ ":"
        ++ format_d 2 (Py.int (Py.mod_ x 60)) ++ sep
        ++ format_d 3 (Py.round ((x - inject_Z (Py.int x)) * 1000)))%string
       = String h1 (String h2 (String ":" (String m1 (String m2 (String ":"
           (String s1 (String s2
              (sep ++ format_d 3
                        (Py.round ((x - inject_Z (Qfloor x)) * 1000)))%string))))))))
    /\ digits2 h1 h2 = Some h /\ digits2 m1 m2 = Some m
    /\ digits2 s1 s2 = Some s
    /\ 3600 * h + 60 * m + s = Qfloor x.
Proof.
  intros (Hx & Hhi).
  destruct (ts_fields_of x Hx) as (Hh & Hm & Hs & Hint).
  rewrite Hh, Hm, Hs, Hint.
  assert (Hwhole : 0 <= Qfloor x < 360000).
  { split.
    - pose proof (Qfloor_resp_le _ _ Hx) as H. exact H.
    - pose proof (Qfloor_le x) as H.
      assert (H' : (inject_Z (Qfloor x) < inject_Z 360000)%Q)
        by (change (inject_Z 360000) with 360000%Q; lra).
      now rewrite <- Zlt_Qlt in H'. }
  destruct (two_digits (Qfloor x / 3600)) as (h1 & h2 & Hfh & Hph);
    [ split; [ apply Z.div_pos | apply Z.div_lt_upper_bound ]; lia |].
  destruct (two_digits (Qfloor x mod 3600 / 60)) as (m1 & m2 & Hfm & Hpm).
  { pose proof (Z.mod_pos_bound (Qfloor x) 3600 ltac:(lia)).
    split; [ apply Z.div_pos | apply Z.div_lt_upper_bound ]; lia. }
  destruct (two_digits (Qfloor x mod 60)) as (s1 & s2 & Hfs & Hps).
  { pose proof (Z.mod_pos_bound (Qfloor x) 60 ltac:(lia)). lia. }
  exists h1, h2, m1, m2, s1, s2.
  exists (Qfloor x / 3600), (Qfloor x mod 3600 / 60), (Qfloor x mod 60).
  split_ands; try assumption.
  - intros sep. rewrite Hfh, Hfm, Hfs. reflexivity.
  - pose proof (Z.div_mod (Qfloor x) 3600 ltac:(lia)).
    pose proof (Z.div_mod (Qfloor x mod 3600) 60 ltac:(lia)).
    assert (Qfloor x mod 3600 mod 60 = Qfloor x mod 60)
      by (apply Z.mod_mod_divide; exists 60; lia).
    lia.
Qed.

(** X14: which SRT timestamps can be read back.  For a time below 100
    hours whose fraction of a second is at most 0.9994, the timestamp
    written by [_format_ts_srt] is of the form HH:MM:SS,mmm and reads back
    to the time within a millisecond.  For a fraction of at least 0.9996
    the millisecond field is 1000 and the timestamp cannot be read back.
    Both bounds stay clear of 0.9995 and the distance is not claimed below
    a millisecond: next to a tie the millisecond field depends on how the
    product with 1000 is rounded in binary64. *)
Theorem srt_timestamp_reads_back (x : Q) :
  (0 <= x < 360000)%Q ->
  let fraction := (x - inject_Z (Qfloor x))%Q in
  ((fraction <= 0.9994)%Q ->
   exists q, parse_ts_srt (_format_ts_srt x) = Some q
             /\ (x - 0.001 < q < x + 0.001)%Q)
  /\ ((0.9996 <= fraction)%Q -> parse_ts_srt (_format_ts_srt x) = None).
Proof.
  intros Hx fraction.
  destruct (timestamp_shape x Hx)
    as (h1 & h2 & m1 & m2 & s1 & s2 & h & m & s & Hshape & Hh & Hm & Hs & Hsum).
  destruct (ms_field x) as (Hms & Hnear & Hsmall & Hlarge).
  fold fraction in Hnear, Hsmall, Hlarge, Hms.
  unfold _format_ts_srt. rewrite (Hshape ","). fold fraction. split.
  - intros Hfrac.
    assert (Hbelow : (fraction < 0.9995)%Q) by lra.
    specialize (Hsmall Hbelow).
    destruct (three_digits (Py.round (fraction * 1000)) ltac:(lia))
      as (f1 & f2 & f3 & Hff & Hpf).
    rewrite Hff. cbn [append parse_ts_srt]. rewrite Hh, Hm, Hs, Hpf.
    eexists. split; [ reflexivity |]. rewrite Hsum.
    assert (Hq : (Py.round (fraction * 1000) # 1000
                  == inject_Z (Py.round (fraction * 1000)) * (1 # 1000))%Q).
    { unfold Qeq, Qmult, inject_Z. cbn [Qnum Qden]. lia. }
    rewrite Hq. unfold fraction in *. lra.
  - intros Hfrac.
    assert (Habove : (0.9995 <= fraction)%Q) by lra.
    rewrite (Hlarge Habove). cbn [append parse_ts_srt].
    change (format_d 3 1000) with "1000". cbn. reflexivity.
Qed.

Lemma srt_timestamp_reads_back_witness :
  (exists q, parse_ts_srt (_format_ts_srt 3723.4567) = Some q
             /\ (3723.4567 - 0.001 < q < 3723.4567 + 0.001)%Q)
  /\ parse_ts_srt (_format_ts_srt 1.9999375) = None.
Proof.
  split.
  - apply (srt_timestamp_reads_back 3723.4567).
    + split; [ discriminate | reflexivity ].
    + discriminate.
  - apply (srt_timestamp_reads_back 1.9999375).
    + split; [ discriminate | reflexivity ].
    + discriminate.
Defined.

(** X15: VTT timestamps read back as SRT timestamps do.  For a time below
    100 hours, [_format_ts_vtt] writes the fields of [_format_ts_srt] with
    a period before the milliseconds, and reading it back gives what the
    SRT timestamp gives: the time within half a millisecond when the
    fraction of a second is below 0.9995, nothing otherwise. *)
Theorem vtt_timestamp_reads_back (x : Q) :
  (0 <= x < 360000)%Q ->
  parse_ts_vtt (_format_ts_vtt x) = parse_ts_srt (_format_ts_srt x)
  /\ exists fields ms,
       _format_ts_srt x = (fields ++ "," ++ ms)%string
       /\ _format_ts_vtt x = (fields ++ "." ++ ms)%string
       /\ String.length fields = 8%nat.
Proof.
  intros Hx.
  destruct (timestamp_shape x Hx)
    as (h1 & h2 & m1 & m2 & s1 & s2 & h & m & s & Hshape & Hh & Hm & Hs & Hsum).
  destruct (ms_field x) as (Hms & _ & _ & _).
  unfold _format_ts_srt, _format_ts_vtt.
  rewrite (Hshape ","), (Hshape "."). split.
  - set (ms := Py.round ((x - inject_Z (Qfloor x)) * 1000)) in *.
    destruct (Z.eq_dec ms 1000) as [-> | Hne].
    + reflexivity.
    + destruct (three_digits ms ltac:(lia)) as (f1 & f2 & f3 & Hff & Hpf).
      rewrite Hff. reflexivity.
  - exists (String h1 (String h2 (String ":" (String m1 (String m2
              (String ":" (String s1 (String s2 EmptyString)))))))).
    eexists. split_ands; reflexivity.
Qed.

Lemma vtt_timestamp_reads_back_witness :
  parse_ts_vtt (_format_ts_vtt 3723.4567)
  = parse_ts_srt (_format_ts_srt 3723.4567)
  /\ exists fields ms,
       _format_ts_srt 3723.4567 = (fields ++ "," ++ ms)%string
       /\ _format_ts_vtt 3723.4567 = (fields ++ "." ++ ms)%string
       /\ String.length fields = 8%nat.
Proof.
  apply (vtt_timestamp_reads_back 3723.4567).
  split; [ discriminate | reflexivity ].
Defined.

(** ** The chunks of a long turn *)

Section LongTurn.

Variable Model : Type.
Variable model_transcribe : Model -> tensor -> (Exn + string) * Model.



End LongTurn.


(** ** The number of speakers of a diarized run *)

Lemma nodup_unlabelled (labels : list string) :
  List.length (nodup string_dec labels)
  = (List.length
       (nodup string_dec (filter (fun s => negb (String.eqb s "")) labels))
     + if existsb (fun s => String.eqb s "") labels then 1 else 0)%nat.
Proof.
  induction labels as [| a labels IH]; [ reflexivity |].
  cbn [nodup filter existsb].
  destruct (String.eqb_spec a "") as [-> | Hne]; cbn [negb orb].
  - destruct (in_dec string_dec "" labels) as [Hin | Hout].
    + rewrite IH.
      assert (Hex : existsb (fun s => String.eqb s "") labels = true).
      { apply existsb_exists. exists "". split; [ exact Hin | reflexivity ]. }
      now rewrite Hex.
    + cbn [List.length]. rewrite IH.
      assert (Hex : existsb (fun s => String.eqb s "") labels = false).
      { destruct (existsb _ labels) eqn:Hex; [| reflexivity ].
        apply existsb_exists in Hex as (s & Hs & Heq).
        apply String.eqb_eq in Heq. subst s. now elim Hout. }
      rewrite Hex. lia.
  - cbn [nodup].
    destruct (in_dec string_dec a labels) as [Hin | Hout],
             (in_dec string_dec a
                     (filter (fun s => negb (String.eqb s "")) labels))
               as [Hin' | Hout'].
    + exact IH.
    + exfalso. apply Hout'. apply filter_In. split; [ exact Hin |].
      now apply negb_true_iff, String.eqb_neq.
    + exfalso. apply Hout. now apply filter_In in Hin'.
    + cbn [List.length]. rewrite IH. lia.
Qed.

Section SpeakersReported.

Variable Model : Type.
Variable model_transcribe : Model -> tensor -> (Exn + string) * Model.
Variable pyannote : option Z -> Exn + list Diarize.Segment.

(** X17: the number of speakers of a diarized run.  When
    [transcribe_with_diarization] returns, the run reports the number of
    distinct non-empty speaker labels of the segments, plus one when some
    segment has no label, as the segments of the undetected tail have. *)
Theorem speakers_reported args audio sr (w w' : World Model) full_text
    segments :
  Args.diarize args = true ->
  transcribe_with_diarization model_transcribe pyannote audio sr
    (if 0 <? Args.speakers args then Some (Args.speakers args) else None)
    (Args.chunk_duration args) (Args.chunk_overlap args)
    (Args.merge_gap args) (Args.min_segment args) (Args.expansion_pad args) w
  = (Ok (full_text, segments), w') ->
  run_pipeline model_transcribe pyannote args audio sr w
  = (Ok (true,
         (List.length (nodup string_dec (named_speakers segments))
          + if some_unlabelled segments then 1 else 0)%nat,
         full_text, map spoken segments),
     w').
Proof.
  intros Hd Hrun. unfold run_pipeline. rewrite Hd.
  unfold try_except. rewrite (bind_ok _ _ _ _ _ Hrun). cbn [ret fst snd].
  rewrite map_map. cbn [get_speaker].
  unfold named_speakers, some_unlabelled.
  now rewrite <- nodup_unlabelled.
Qed.

End SpeakersReported.

(** No turn is found in a buffer of 20 s and both chunks of the tail are
    recognised: the run reports one speaker. *)
Lemma speakers_reported_witness :
  let args := default_args true in
  let segments :=
    [{| start := 0 # 100; end_ := 2000 # 100; speaker := ""; text := "hi" |};
     {| start := 1600 # 100; end_ := 2000 # 100; speaker := "";
        text := "hi" |}] in
  let run :=
    transcribe_with_diarization talkative (finds []) (buffer 320000)
      SAMPLE_RATE None 20 4 0.8 0.2 3 (fresh tt) in
  run = (Ok ("hi hi", segments), snd run)
  /\ fst (run_pipeline talkative (finds []) args (buffer 320000) SAMPLE_RATE
                       (fresh tt))
     = Ok (true, 1%nat, "hi hi", map spoken segments).
Proof.
  intros args segments run.
  assert (Hrun : run = (Ok ("hi hi", segments), snd run))
    by (vm_compute; reflexivity).
  split; [ exact Hrun |].
  rewrite (speakers_reported unit talkative (finds []) args (buffer 320000)
             SAMPLE_RATE (fresh tt) (snd run) "hi hi" segments eq_refl Hrun).
  reflexivity.
Defined.

(** ** Times with two decimals *)

(** X18: times with two decimals are read back exactly.  A time below 100
    hours that is rounded to two decimals, as the bounds of the segments
    of the chunked and of the diarized results are, is written by
    [_format_ts_srt] as a timestamp HH:MM:SS,mmm whose reading is the time
    itself, and by [_format_ts_vtt] likewise. *)
Theorem two_decimals_read_back (x : Q) :
  two_decimals x -> (0 <= x < 360000)%Q ->
  (exists q, parse_ts_srt (_format_ts_srt x) = Some q /\ (q == x)%Q)
  /\ (exists q, parse_ts_vtt (_format_ts_vtt x) = Some q /\ (q == x)%Q).
Proof.
  intros (y & ->) Hx.
  destruct (srt_round_trip_rounded y Hx) as (q & Hparse & Hq).
  split; [ now exists q |]. exists q. split; [| exact Hq ].
  rewrite <- Hparse.
  destruct (timestamp_shape (Py.round_n y 2) Hx)
    as (h1 & h2 & m1 & m2 & s1 & s2 & h & m & s & Hshape & _).
  destruct (ms_field (Py.round_n y 2)) as (Hms & _ & _ & _).
  unfold _format_ts_srt, _format_ts_vtt.
  rewrite (Hshape ","), (Hshape ".").
  set (ms := Py.round ((Py.round_n y 2
                        - inject_Z (Qfloor (Py.round_n y 2))) * 1000)) in *.
  destruct (Z.eq_dec ms 1000) as [-> | Hne]; [ reflexivity |].
  destruct (three_digits ms ltac:(lia)) as (f1 & f2 & f3 & Hff & Hpf).
  rewrite Hff. reflexivity.
Qed.

Lemma two_decimals_read_back_witness :
  two_decimals (1234 # 100)
  /\ (exists q, parse_ts_srt (_format_ts_srt (1234 # 100)) = Some q
                /\ (q == 1234 # 100)%Q)
  /\ (exists q, parse_ts_vtt (_format_ts_vtt (1234 # 100)) = Some q
                /\ (q == 1234 # 100)%Q).
Proof.
  assert (H : two_decimals (1234 # 100)) by (exists 12.34%Q; reflexivity).
  split; [ exact H |].
  apply (two_decimals_read_back (1234 # 100) H).
  split; [ discriminate | reflexivity ].
Defined.

(** ** What the chunks of the plain pipeline cover *)

Lemma chunks_cover (total chunk step sr p : Z) :
  0 < sr -> 0 < step <= chunk -> sr <= chunk -> chunk < total ->
  0 <= p < total ->
  (3 * sr <= 10 * (chunk - step) \/ 3 * sr <= 10 * (total - p)) ->
  exists c, In c (chunks_of total chunk step sr) /\ fst c <= p < snd c.
Proof.
  intros Hsr Hstep Hchunk Hlong Hp Hcover.
  destruct (take_chunks_seq chunk step total sr (Py.range_len total step) 0)
    as (Hlen & Hnth & Hstop).
  fold (chunks_of total chunk step sr) in Hlen, Hnth, Hstop.
  set (chunks := chunks_of total chunk step sr) in *.
  pose proof (range_len_covers step total ltac:(lia)) as Hall.
  assert (Hq : 0 <= p / step) by (apply Z.div_pos; lia).
  pose proof (Z.mul_div_le p step ltac:(lia)) as Hq1.
  pose proof (Z.mul_succ_div_gt p step ltac:(lia)) as Hq2.
  destruct (Nat.lt_ge_cases (Z.to_nat (p / step)) (List.length chunks))
    as [Hin | Hout].
  - destruct (Hnth _ Hin) as (Hrange & _). cbn [Nat.add] in Hrange.
    eexists. split; [ eapply nth_error_In; exact Hrange |].
    unfold nth_range. cbn [fst snd]. rewrite Z2Nat.id by lia. lia.
  - assert (Hearly : (List.length chunks < Py.range_len total step)%nat).
    { apply Nat.le_lt_trans with (Z.to_nat (p / step)); [ exact Hout |].
      apply Nat2Z.inj_lt. rewrite Z2Nat.id by lia. nia. }
    specialize (Hstop Hearly). cbn [Nat.add] in Hstop.
    unfold too_short, range_samples, nth_range in Hstop. cbn [fst snd] in Hstop.
    assert (Hk : Z.of_nat (List.length chunks) <= p / step) by lia.
    destruct (Nat.eq_dec (List.length chunks) 0) as [Hnone | Hsome].
    + rewrite Hnone in Hstop. change (Z.of_nat 0) with 0 in Hstop. lia.
    + assert (Hlast : (Nat.pred (List.length chunks) < List.length chunks)%nat)
        by lia.
      destruct (Hnth _ Hlast) as (Hrange & _). cbn [Nat.add] in Hrange.
      eexists. split; [ eapply nth_error_In; exact Hrange |].
      unfold nth_range. cbn [fst snd].
      assert (Hpred : Z.of_nat (Nat.pred (List.length chunks))
                      = Z.of_nat (List.length chunks) - 1) by lia.
      rewrite Hpred. nia.
Qed.

Section Coverage.

Variable Model : Type.
Variable model_transcribe : Model -> tensor -> (Exn + string) * Model.

(** X19: no sample is lost by the chunks.  On a buffer longer than one
    chunk, with [0 <= O < D], the slices [transcribe_audio] hands to
    [transcribe_chunk] are those of the chunks of the schedule, and every
    sample of the buffer lies in one of them when the overlap is at least
    one second; without overlap, every sample that is at least 0.3 s
    before the end does. *)
Theorem no_sample_is_lost audio_tensor sr po ps D O (w : World Model) :
  0 < sr -> 0 <= O < D -> D * sr < len audio_tensor ->
  let chunks := chunks_of (len audio_tensor) (D * sr) ((D - O) * sr) sr in
  let w' := snd (transcribe_audio model_transcribe audio_tensor sr po ps D O
                                  w) in
  (exists answers,
     List.length answers = List.length chunks
     /\ units w'
        = units w ++
            combine (map (fun c => slice audio_tensor (fst c) (snd c)) chunks)
                    answers)
  /\ forall p,
       0 <= p < len audio_tensor ->
       1 <= O \/ 3 * sr <= 10 * (len audio_tensor - p) ->
       exists c, In c chunks /\ fst c <= p < snd c.
Proof.
  intros Hsr HDO Hlong chunks w'. subst w'.
  assert (Hstep : 0 < (D - O) * sr) by nia.
  split.
  - destruct (transcribe_audio_chunked Model model_transcribe audio_tensor
                sr po ps D O w Hlong Hstep)
      as (answers & w1 & Hlen & Heq & Hu).
    cbv zeta in Hlen, Heq, Hu. rewrite Heq. cbn [snd]. now exists answers.
  - intros p Hp Hcase.
    apply chunks_cover; try assumption; nia.
Qed.

End Coverage.

Lemma no_sample_is_lost_witness :
  let audio_tensor := buffer 400000 in
  let chunks :=
    chunks_of (len audio_tensor) (20 * SAMPLE_RATE) ((20 - 4) * SAMPLE_RATE)
              SAMPLE_RATE in
  chunks = [(0, 320000); (256000, 400000)]
  /\ forall p,
       0 <= p < len audio_tensor ->
       exists c, In c chunks /\ fst c <= p < snd c.
Proof.
  intros audio_tensor chunks. split; [ reflexivity |].
  intros p Hp.
  destruct (no_sample_is_lost unit talkative audio_tensor SAMPLE_RATE
              0.15 0.78 20 4 (fresh tt) ltac:(reflexivity)
              ltac:(split; [ discriminate | reflexivity ])
              ltac:(reflexivity)) as (_ & Hcover).
  apply Hcover; [ exact Hp | left; discriminate ].
Defined.

(** ** The order of the segments of the diarized result *)

Lemma StronglySorted_drop {A} (R : A -> A -> Prop) (l1 m l2 : list A) :
  StronglySorted R (l1 ++ m ++ l2) -> StronglySorted R (l1 ++ l2).
Proof.
  induction m as [| x m IH]; cbn [app]; [ auto |].
  intros H. apply IH. now apply StronglySorted_remove in H.
Qed.

Lemma StronglySorted_app_le (l l' : list Q) (b : Q) :
  StronglySorted Qle (l ++ [b]) -> StronglySorted Qle l' ->
  Forall (fun x => (b <= x)%Q) l' ->
  StronglySorted Qle (l ++ l').
Proof.
  intros Hl Hl' Hb. induction l as [| a l IH]; cbn [app] in *;
    [ assumption |].
  inversion Hl as [| ? ? Hrest Hall]; subst.
  constructor; [ now apply IH |].
  apply Forall_app in Hall as (Hall & Hab). apply Forall_app. split;
    [ assumption |].
  inversion Hab; subst. eapply Forall_impl; [| exact Hb ].
  intros x Hx. eapply Qle_trans; eassumption.
Qed.

Lemma StronglySorted_last {A} (R : A -> A -> Prop) (l : list A) (x : A) :
  StronglySorted R (l ++ [x]) -> Forall (fun a => R a x) l.
Proof.
  induction l as [| a l IH]; cbn [app]; intros H; [ constructor |].
  inversion H as [| ? ? Hrest Hall]; subst.
  apply Forall_app in Hall as (_ & Hax). inversion Hax; subst.
  constructor; [ assumption | now apply IH ].
Qed.

Lemma StronglySorted_adjacent {A} (R : A -> A -> Prop) (l1 l2 : list A)
    (a b : A) :
  StronglySorted R (l1 ++ a :: b :: l2) -> R a b.
Proof.
  induction l1 as [| x l1 IH]; cbn [app]; intros H;
    inversion H as [| ? ? Hrest Hall]; subst; [| now apply IH ].
  now inversion Hall.
Qed.

Lemma kept_turns_cons (seg : Diarize.Segment) (segs : list Diarize.Segment)
    (outcome : option string) (outcomes : list (option string)) :
  kept_turns (seg :: segs) (outcome :: outcomes)
  = match outcome with
    | Some words => [turn_dict seg words]
    | None => []
    end ++ kept_turns segs outcomes.
Proof. reflexivity. Qed.

(** The starts of the dicts kept for the turns, among the rounded starts
    of the turns. *)
Lemma kept_turns_sorted (segs : list Diarize.Segment) :
  forall (outcomes : list (option string)) (before after : list Q),
    StronglySorted Qle
      (before ++ map (fun s => Py.round_n (Diarize.start s) 2) segs ++ after) ->
    StronglySorted Qle
      (before ++ map start (kept_turns segs outcomes) ++ after).
Proof.
  induction segs as [| seg segs IH]; intros outcomes before after H;
    [ exact H |].
  destruct outcomes as [| outcome outcomes].
  - apply (StronglySorted_drop _ before _ after) in H. exact H.
  - rewrite kept_turns_cons, map_app, <- app_assoc. cbn [map app] in H.
    destruct outcome as [words |]; cbn [map app turn_dict start].
    + change (StronglySorted Qle
                (before ++ [Py.round_n (Diarize.start seg) 2]
                 ++ map start (kept_turns segs outcomes) ++ after)).
      rewrite app_assoc. apply IH. now rewrite <- app_assoc.
    + apply IH. now apply StronglySorted_remove in H.
Qed.

Lemma kept_turns_ordered (segs : list Diarize.Segment)
    (outcomes : list (option string)) :
  Forall (fun s => (Diarize.start s <= Diarize.end_ s)%Q) segs ->
  Forall (fun d => (start d <= end_ d)%Q) (kept_turns segs outcomes).
Proof.
  intros Hsegs. unfold kept_turns. apply Forall_flat_map.
  apply Forall_forall. intros [seg [words |]] Hin; cbn [snd fst];
    [| constructor ].
  constructor; [| constructor ]. cbn [turn_dict start end_].
  apply round_n_mono. rewrite Forall_forall in Hsegs. apply Hsegs.
  eapply in_combine_l, Hin.
Qed.

(** The merge step keeps the order of the starts, and the segments it
    joins still end no earlier than they start. *)
Lemma merge_fold_sorted merge_gap (results : list Dict) :
  forall acc,
    StronglySorted Qle (map start (acc ++ results)) ->
    Forall (fun d => (start d <= end_ d)%Q) (acc ++ results) ->
    StronglySorted Qle
      (map start (fold_left (merge_step merge_gap) results acc))
    /\ Forall (fun d => (start d <= end_ d)%Q)
              (fold_left (merge_step merge_gap) results acc).
Proof.
  induction results as [| r results IH]; intros acc Hsorted Hok;
    cbn [fold_left]; [ now rewrite app_nil_r in * |].
  assert (Hkeep : StronglySorted Qle (map start ((acc ++ [r]) ++ results))
                  /\ Forall (fun d => (start d <= end_ d)%Q)
                            ((acc ++ [r]) ++ results))
    by (now rewrite <- app_assoc).
  unfold merge_step.
  destruct (last_item acc) as [prev |] eqn:Hlast;
    [| now apply IH ].
  destruct (_ && _); [| now apply IH ].
  destruct (last_item_Some _ _ Hlast) as (acc' & ->).
  rewrite set_last_snoc. clear Hkeep.
  rewrite <- !app_assoc in Hsorted, Hok. cbn [app] in Hsorted, Hok.
  assert (Hprev : (start prev <= start r)%Q).
  { rewrite map_app in Hsorted. cbn [map] in Hsorted.
    now apply StronglySorted_adjacent in Hsorted. }
  apply Forall_app in Hok as (Hacc' & Hrest).
  inversion Hrest as [| ? ? Hp Hrest']; subst.
  inversion Hrest' as [| ? ? Hr Hresults]; subst.
  apply IH.
  - rewrite <- app_assoc. cbn [app]. rewrite map_app in *.
    cbn [map start] in *.
    replace (map start acc' ++ start prev :: start r :: map start results)
      with ((map start acc' ++ [start prev]) ++ start r :: map start results)
      in Hsorted by (now rewrite <- app_assoc).
    apply StronglySorted_remove in Hsorted.
    now rewrite <- app_assoc in Hsorted.
  - rewrite <- app_assoc. cbn [app]. apply Forall_app. split;
      [ assumption |].
    constructor; [| assumption ]. cbn [start end_].
    exact (Qle_trans _ _ _ Hprev Hr).
Qed.

Lemma rounded_starts_sorted (turns : list Diarize.Segment) (bound : Q) :
  StronglySorted (fun a b => (Diarize.start a <= Diarize.start b)%Q) turns ->
  Forall (fun s => (Diarize.start s <= bound)%Q) turns ->
  StronglySorted Qle
    (map (fun s => Py.round_n (Diarize.start s) 2) turns
     ++ [Py.round_n bound 2]).
Proof.
  intros Hturns Hbelow.
  induction Hturns as [| s turns Hrest IH Hall]; cbn [map app].
  - repeat constructor.
  - inversion Hbelow as [| ? ? Hs Hbelow']; subst.
    constructor; [ now apply IH |].
    apply Forall_app. split.
    + apply Forall_map. eapply Forall_impl; [| exact Hall ].
      intros s' Hs'. now apply round_n_mono.
    + constructor; [ now apply round_n_mono | constructor ].
Qed.

Lemma chunks_of_from_zero total chunk step sr :
  0 <= step ->
  Forall (fun c => 0 <= fst c)
         (chunks_of total chunk step sr).
Proof.
  intros Hstep.
  destruct (take_chunks_seq chunk step total sr (Py.range_len total step) 0)
    as (_ & Hnth & _).
  fold (chunks_of total chunk step sr) in Hnth.
  apply Forall_forall. intros c Hc.
  destruct (In_nth_error _ _ Hc) as (i & Hi).
  assert (Hlt : (i < List.length (chunks_of total chunk step sr))%nat)
    by (apply nth_error_Some; congruence).
  destruct (Hnth i Hlt) as (Hi' & _). cbn [Nat.add] in Hi'.
  rewrite Hi' in Hi. injection Hi as <-. unfold nth_range. cbn [fst]. nia.
Qed.

Lemma seconds_mono (a b sr : Z) :
  0 < sr -> a <= b -> (inject_Z a / inject_Z sr <= inject_Z b / inject_Z sr)%Q.
Proof.
  intros Hsr Hab. unfold Qdiv. apply Qmult_le_compat_r.
  - now rewrite <- Zle_Qle.
  - apply Qinv_le_0_compat. rewrite <- (Zle_Qle 0). lia.
Qed.

Section DiarizedOrder.

Variable Model : Type.
Variable model_transcribe : Model -> tensor -> (Exn + string) * Model.
Variable pyannote : option Z -> Exn + list Diarize.Segment.
Variables (sr D O : Z).
Hypothesis H_rate : 0 < sr.
Hypothesis H_overlap : 0 <= O < D.
Variable E : Exn -> World Model -> Prop.

Lemma step_not_zero : (D - O) * sr <> 0.
Proof. nia. Qed.

(** What the loop over the turns adds to the results. *)
Lemma turn_loop_shape audio_tensor expansion_pad n :
  forall diar_segments i results,
    triple anywhere
           (turn_loop model_transcribe audio_tensor sr D O expansion_pad n i
                      diar_segments results)
           (fun r _ =>
              exists outcomes,
                List.length outcomes = List.length diar_segments
                /\ r = results ++ kept_turns diar_segments outcomes)
           E.
Proof.
  induction diar_segments as [| seg rest IH]; intros i results;
    cbn [turn_loop].
  - apply triple_ret. intros w _. exists []. split; [ reflexivity |].
    now rewrite app_nil_r.
  - apply triple_bind
      with (Q1 := fun r _ =>
                    exists outcome,
                      r = results ++ kept_turns [seg] [outcome]).
    + unfold turn_body.
      apply triple_bind with (Q1 := fun _ _ => True);
        [ apply turn_text_returns, step_not_zero | intros words ].
      unfold emit_turn. destruct (Py.truthy words).
      * apply triple_ret. intros w _. now exists (Some words).
      * destruct (Qle_bool _ _).
        -- apply triple_bind with (Q1 := fun _ _ => True);
             [ now intros w _ | intros _ ].
           apply triple_ret. intros w _. now exists (Some "[...]").
        -- apply triple_ret. intros w _. exists None. cbn.
           now rewrite app_nil_r.
    + intros results'.
      apply (triple_pure Model E). intros (outcome & ->).
      apply triple_bind with (Q1 := fun _ _ => True);
        [ now intros w _ | intros _ ].
      eapply triple_conseq; [ apply IH | auto | | auto ].
      intros r w (outcomes & Hlen & ->). exists (outcome :: outcomes).
      split; [ cbn; now rewrite Hlen |].
      rewrite (kept_turns_cons seg rest), (kept_turns_cons seg []).
      change (kept_turns [] []) with (@nil Dict).
      now rewrite app_nil_r, <- app_assoc.
Qed.

(** What the fallback on the tail adds to the results. *)
Lemma tail_fallback_shape audio_tensor diar_segments results :
  triple anywhere
         (tail_fallback model_transcribe audio_tensor sr D O diar_segments
                        results)
         (fun r _ =>
            r = results
            \/ exists answers,
                 r = results
                     ++ map (tail_dict sr (last_diar_end_of diar_segments))
                          (filter (fun c => Py.truthy (snd c))
                             (combine
                                (chunks_of
                                   (len (slice_from audio_tensor
                                           (Py.int
                                              (last_diar_end_of diar_segments
                                               * inject_Z sr))))
                                   (D * sr) ((D - O) * sr) sr)
                                answers)))
         E.
Proof.
  intros w _.
  destruct (tail_fallback_spec Model model_transcribe audio_tensor sr D O 0
              diar_segments results w H_rate H_overlap) as (Hnone & Hsome).
  destruct (Qlt_le_dec 10 (tail_gap_of audio_tensor sr diar_segments))
    as [Hgap | Hgap].
  - destruct (Hsome Hgap) as (answers & _ & Hres & _).
    destruct (tail_fallback model_transcribe audio_tensor sr D O diar_segments
                            results w) as [[r | e] w'];
      cbn [fst] in Hres; [| discriminate ].
    injection Hres as ->. right. now exists answers.
  - rewrite (Hnone Hgap). now left.
Qed.

End DiarizedOrder.

Section DiarizedChronology.

Variable Model : Type.
Variable model_transcribe : Model -> tensor -> (Exn + string) * Model.
Variable pyannote : option Z -> Exn + list Diarize.Segment.

(** X20: the diarized result is in chronological order.  With
    [0 <= O < D] and a minimum segment duration that is not negative, when
    the pyannote pipeline answers with turns in non-decreasing order of
    start, the segments [transcribe_with_diarization] returns are in
    non-decreasing order of start, those of the undetected tail included,
    and each of them ends no earlier than it starts. *)
Theorem diarized_result_in_order audio_tensor sr num_speakers D O merge_gap
    min_segment expansion_pad raw (w : World Model) :
  0 < sr -> 0 <= O < D -> (0 <= min_segment)%Q ->
  pyannote num_speakers = inr raw ->
  StronglySorted (fun a b => (Diarize.start a <= Diarize.start b)%Q) raw ->
  exists full_text segments w',
    transcribe_with_diarization model_transcribe pyannote audio_tensor sr
      num_speakers D O merge_gap min_segment expansion_pad w
    = (Ok (full_text, segments), w')
    /\ StronglySorted (fun a b => (start a <= start b)%Q) segments
    /\ Forall (fun d => (start d <= end_ d)%Q) segments.
Proof.
  intros Hsr HDO Hmin Hpy Hraw.
  set (turns := _filter_short (_merge_segments raw merge_gap) min_segment).
  set (last_end := last_diar_end_of turns).
  assert (Hturns : StronglySorted
                     (fun a b => (Diarize.start a <= Diarize.start b)%Q) turns).
  { apply StronglySorted_filter.
    apply StronglySorted_map_iff. apply StronglySorted_map_iff in Hraw.
    unfold _merge_segments. destruct raw as [| first others];
      [ constructor |].
    now apply _merge_fold_sorted. }
  assert (Hlong : Forall (fun s => (Diarize.start s <= Diarize.end_ s)%Q)
                         turns).
  { apply Forall_forall. intros s Hs. apply filter_In in Hs as (_ & Hs).
    apply Qle_bool_iff in Hs. lra. }
  assert (Hbelow : Forall (fun s => (Diarize.start s <= last_end)%Q) turns).
  { unfold last_end, last_diar_end_of.
    destruct (last_item turns) as [last |] eqn:Hlast.
    - destruct (last_item_Some _ _ Hlast) as (front & Hfront).
      rewrite Hfront in Hturns, Hlong |- *.
      apply Forall_app in Hlong as (_ & Hlast_long).
      inversion Hlast_long as [| ? ? Hle _]; subst.
      apply Forall_app. split; [| now constructor ].
      apply StronglySorted_last in Hturns.
      eapply Forall_impl; [| exact Hturns ].
      intros s Hs. cbv beta in Hs. eapply Qle_trans; eassumption.
    - apply last_item_None in Hlast. rewrite Hlast. constructor. }
  pose proof (rounded_starts_sorted turns last_end Hturns Hbelow) as Hstarts.
  assert (Hrun :
            triple anywhere
              (transcribe_with_diarization model_transcribe pyannote
                 audio_tensor sr num_speakers D O merge_gap min_segment
                 expansion_pad)
              (fun r _ =>
                 StronglySorted Qle (map start (snd r))
                 /\ Forall (fun d => (start d <= end_ d)%Q) (snd r))
              (fun _ _ => False)).
  { unfold transcribe_with_diarization.
    apply triple_bind with (Q1 := fun _ _ => True);
      [ now intros w0 _ | intros _ ].
    apply triple_bind with (Q1 := fun segs _ => segs = turns).
    { unfold diarize. rewrite Hpy. now apply triple_ret. }
    intros diar_segments. cbv beta. apply (triple_pure Model _). intros ->.
    apply triple_bind with (Q1 := fun _ _ => True);
      [ now intros w0 _ | intros _ ].
    eapply triple_bind;
      [ apply (turn_loop_shape Model model_transcribe sr D O Hsr HDO)
      | intros results ].
    cbv beta. apply (triple_pure Model _). intros (outcomes & _ & ->). cbn [app].
    eapply triple_bind;
      [ apply (tail_fallback_shape Model model_transcribe sr D O Hsr HDO)
      | intros results' ].
    cbv beta. apply (triple_pure Model _). intros Hshape.
    apply triple_ret. intros w0 _. cbn [snd].
    apply (merge_fold_sorted merge_gap results' []); cbn [app].
    - pose proof (kept_turns_sorted turns outcomes [] [Py.round_n last_end 2]
                    Hstarts) as Hkept. cbn [app] in Hkept.
      destruct Hshape as [-> | (answers & ->)].
      + apply (StronglySorted_drop _ _ [Py.round_n last_end 2] []) in Hkept.
        now rewrite app_nil_r in Hkept.
      + rewrite map_app. fold turns. fold last_end.
        apply StronglySorted_app_le with (b := Py.round_n last_end 2);
          [ exact Hkept | |].
        * rewrite map_map. cbn [tail_dict start].
          apply StronglySorted_map_in
            with (R := fun p q => fst (fst p) <= fst (fst q)).
          -- intros a b _ _ Hab. apply round_n_mono.
             pose proof (seconds_mono _ _ sr Hsr Hab). lra.
          -- apply StronglySorted_filter.
             apply (StronglySorted_combine (fun a b : Z * Z => fst a <= fst b)).
             destruct (chunks_of_sorted
                         (len (slice_from audio_tensor
                                 (Py.int (last_end * inject_Z sr))))
                         (D * sr) ((D - O) * sr) sr ltac:(nia))
               as (Hsorted & _).
             rewrite <- (map_id (chunks_of _ _ _ _)).
             apply (StronglySorted_map_in
                      (fun a b : Z * Z => fst a + (D - O) * sr <= fst b)
                      (fun a b : Z * Z => fst a <= fst b) (fun c => c));
               [| exact Hsorted ].
             intros a b _ _ Hab. nia.
        * rewrite map_map. cbn [tail_dict start]. apply Forall_map.
          apply Forall_forall. intros c Hc.
          apply filter_In in Hc as (Hc & _).
          destruct c as [range answer]. apply in_combine_l in Hc.
          pose proof (chunks_of_from_zero
                        (len (slice_from audio_tensor
                                (Py.int (last_end * inject_Z sr))))
                        (D * sr) ((D - O) * sr) sr ltac:(nia)) as Hzero.
          rewrite Forall_forall in Hzero. specialize (Hzero range Hc).
          cbn [fst]. apply round_n_mono.
          pose proof (seconds_mono 0 (fst range) sr Hsr Hzero) as Hsec.
          assert (H0 : (inject_Z 0 / inject_Z sr == 0)%Q)
            by (unfold Qdiv; apply Qmult_0_l).
          rewrite H0 in Hsec. lra.
    - pose proof (kept_turns_ordered turns outcomes Hlong) as Hkept.
      destruct Hshape as [-> | (answers & ->)]; [ exact Hkept |].
      apply Forall_app. split; [ exact Hkept |].
      apply Forall_map. apply Forall_forall. intros c Hc.
      apply filter_In in Hc as (Hc & _).
      destruct c as [range answer]. apply in_combine_l in Hc.
      destruct (chunks_of_sorted
                  (len (slice_from audio_tensor
                          (Py.int (last_diar_end_of turns * inject_Z sr))))
                  (D * sr) ((D - O) * sr) sr ltac:(nia)) as (_ & Hlen).
      rewrite Forall_forall in Hlen. specialize (Hlen range Hc).
      cbn [tail_dict start end_ fst snd]. apply round_n_mono.
      pose proof (seconds_mono (fst range) (snd range) sr Hsr ltac:(lia)).
      lra. }
  specialize (Hrun w I).
  destruct (transcribe_with_diarization model_transcribe pyannote audio_tensor
              sr num_speakers D O merge_gap min_segment expansion_pad w)
    as [[[full_text segments] | e] w']; [| contradiction ].
  cbn [snd] in Hrun. destruct Hrun as (Hsorted & Hok).
  exists full_text, segments, w'. split_ands;
    [ reflexivity | now apply StronglySorted_map_iff | exact Hok ].
Qed.

End DiarizedChronology.

(** Speaker A, a blip of speaker B and speaker A again, in a buffer of 20 s
    whose last 11 s are left to the fallback on the tail. *)
Lemma diarized_result_in_order_witness :
  StronglySorted (fun a b => (Diarize.start a <= Diarize.start b)%Q)
                 [turn_A1; turn_B; turn_A2]
  /\ exists full_text segments w',
       transcribe_with_diarization talkative
         (finds [turn_A1; turn_B; turn_A2]) (buffer 320000) SAMPLE_RATE None
         20 4 0.8 0.2 3 (fresh tt)
       = (Ok (full_text, segments), w')
       /\ StronglySorted (fun a b => (start a <= start b)%Q) segments
       /\ Forall (fun d => (start d <= end_ d)%Q) segments.
Proof.
  assert (H : StronglySorted
                (fun a b => (Diarize.start a <= Diarize.start b)%Q)
                [turn_A1; turn_B; turn_A2]).
  { repeat constructor; vm_compute; discriminate. }
  split; [ exact H |].
  apply (diarized_result_in_order unit talkative
           (finds [turn_A1; turn_B; turn_A2]) (buffer 320000) SAMPLE_RATE
           None 20 4 0.8 0.2 3 [turn_A1; turn_B; turn_A2] (fresh tt));
    [ reflexivity | split; [ discriminate | reflexivity ] | discriminate
    | reflexivity | exact H ].
Defined.

(** ** The headings of the Markdown output *)

Lemma heading_is_heading (speaker : string) :
  String.prefix "### " ("### " ++ speaker) = true
  /\ String.prefix "*[" ("### " ++ speaker) = false.
Proof. split; [ now destruct speaker | reflexivity ]. Qed.

Lemma line_is_line (seg : AnyDict) :
  String.prefix "*[" (md_line seg) = true
  /\ String.prefix "### " (md_line seg) = false.
Proof.
  unfold md_line. split; [| reflexivity ].
  generalize (md_time (get_start seg) ++ "]* " ++ get_text seg)%string.
  intros rest. now destruct rest.
Qed.

Lemma md_speaker_loop_lines :
  forall (segs : list AnyDict) (current_speaker : option string),
    filter (String.prefix "### ") (md_speaker_loop current_speaker segs)
    = map (fun s => ("### " ++ s)%string)
          (map fst
               (filter (fun c => differs (snd c) (fst c))
                       (combine
                          (filter Py.truthy (map get_speaker segs))
                          (current_speaker
                           :: map Some
                                (filter Py.truthy (map get_speaker segs))))))
    /\ filter (String.prefix "*[") (md_speaker_loop current_speaker segs)
       = map md_line segs.
Proof.
  induction segs as [| seg rest IH]; intros current_speaker;
    [ now split |].
  destruct (line_is_line seg) as (Hline & Hline').
  destruct (heading_is_heading (get_speaker seg)) as (Hhead & Hhead').
  assert (Hblank : String.prefix "### " "" = false
                   /\ String.prefix "*[" "" = false) by (now split).
  destruct Hblank as (Hblank & Hblank').
  cbn [md_speaker_loop map filter].
  destruct (Py.truthy (get_speaker seg)) eqn:Hnamed; cbn [andb].
  - cbn [map combine filter fst snd].
    destruct (differs current_speaker (get_speaker seg)) eqn:Hdiffers.
    + destruct (IH (Some (get_speaker seg))) as (IH1 & IH2).
      cbn [app filter map fst].
      rewrite Hline, Hline', Hhead, Hhead', Hblank, Hblank', IH1, IH2.
      now split.
    + assert (Hcurrent : current_speaker = Some (get_speaker seg)).
      { unfold differs in Hdiffers. destruct current_speaker as [c |];
          [| discriminate ].
        apply negb_false_iff, String.eqb_eq in Hdiffers. now subst c. }
      subst current_speaker.
      destruct (IH (Some (get_speaker seg))) as (IH1 & IH2).
      cbn [app filter].
      rewrite Hline, Hline', Hblank, Hblank', IH1, IH2.
      now split.
  - destruct (IH current_speaker) as (IH1 & IH2).
    cbn [app filter].
    rewrite Hline, Hline', Hblank, Hblank', IH1, IH2. now split.
Qed.

(** X21: the headings of the Markdown output.  For a diarized result with
    at least one labelled segment, [format_output_md] writes one line
    [*[mm:ss]* text] per segment, in order, and one heading [### speaker]
    for each labelled segment whose speaker differs from the speaker of
    the labelled segment before it; a segment without label gets no
    heading and is listed under the heading before it. *)
Theorem md_headings source_stem source_name duration speakers full_text
    (segments : list AnyDict) :
  existsb (fun s => Py.truthy (get_speaker s)) segments = true ->
  let lines := md_lines source_stem source_name duration true speakers
                        full_text segments in
  filter (String.prefix "### ") lines
  = map (fun s => ("### " ++ s)%string)
        (speaker_changes (filter Py.truthy (map get_speaker segments)))
  /\ filter (String.prefix "*[") lines = map md_line segments.
Proof.
  intros Hnamed lines. subst lines. unfold md_lines.
  rewrite Hnamed.
  assert (Hsome : match segments with [] => false | _ => true end = true)
    by (destruct segments; [ discriminate | reflexivity ]).
  rewrite Hsome. cbn [andb].
  destruct (md_speaker_loop_lines segments None) as (H1 & H2).
  rewrite !filter_app, H1, H2.
  destruct (0 <? speakers); split; reflexivity.
Qed.

Lemma md_headings_witness :
  let segments :=
    [spoken {| start := 0; end_ := 5; speaker := "A"; text := "one" |};
     spoken {| start := 7; end_ := 9; speaker := "A"; text := "two" |};
     spoken {| start := 9; end_ := 12; speaker := "B"; text := "three" |};
     spoken {| start := 70; end_ := 90; speaker := ""; text := "four" |}] in
  let lines := md_lines "talk" "talk.wav" 90 true 3 "one two three four"
                        segments in
  filter (String.prefix "### ") lines = ["### A"; "### B"]
  /\ filter (String.prefix "*[") lines
     = ["*[00:00]* one"; "*[00:07]* two"; "*[00:09]* three";
        "*[01:10]* four"].
Proof.
  intros segments lines.
  destruct (md_headings "talk" "talk.wav" 90 3 "one two three four" segments
              eq_refl) as (H1 & H2).
  fold lines in H1, H2. rewrite H1, H2. split; reflexivity.
Defined.
